(** * A select()-based TCP echo server: model and verification

    Shallow embedding of [src/main.c] and [src/error.h].

    - Integers of the C program are [Z]; [size_t] arithmetic wraps modulo
      [2^64] ([size_t]).
    - The array [char data[MAX_PENDING_WRITES]] is a [list byte]; an [fd_set]
      bitmap is the finite set of the descriptors whose bit is set
      ([gset Z]), and holds descriptors below [FD_SETSIZE] only.
    - The operating system is an oracle: a program is a function from the
      list of replies the kernel will give to its system calls, in order, to
      a result, the list of observable events it produced (system calls with
      their results, lines printed) and the replies it left unread.
    - C pointers to the slot table, the master sets and [max_fd] become one
      record [Server] that is passed in and returned. *)

From stdpp Require Import base list gmap strings.
From Stdlib Require Import ZArith Lia.
From Stdlib.Strings Require Import Byte.

Local Open Scope Z_scope.

(** ** Constants of [main.c] and of the platform headers *)

Definition PORT : Z := 8080.
Definition BUFFER_SIZE : Z := 4096.
Definition MAX_PENDING_WRITES : Z := 8192.

(** [<stdlib.h>], [<fcntl.h>], [<sys/socket.h>] on Linux. *)
Definition EXIT_FAILURE : Z := 1.
Definition F_GETFL : Z := 3.
Definition F_SETFL : Z := 4.
Definition O_NONBLOCK : Z := 2048.
Definition SOMAXCONN : Z := 4096.

(** [size_t] is a 64-bit unsigned integer. *)
Definition size_t (z : Z) : Z := z mod 2 ^ 64.

(** The values of [errno] the program can observe. *)
Inductive Errno :=
| EAGAIN | EWOULDBLOCK | EINTR | ECONNRESET | EPIPE | EBADF | ENOMEM | EMFILE.

#[global] Instance Errno_eq_dec : EqDecision Errno.
Proof. solve_decision. Defined.

(** [errno == e], where [errno] is [None] when the last call did not set it. *)
Definition errno_is (errno : option Errno) (e : Errno) : bool :=
  bool_decide (errno = Some e).

(** ** The operating system as an oracle *)

(** What the kernel answers to one system call. *)
Inductive Reply :=
| ok (v : nat)                  (* an int-returning call succeeds with value [v] *)
| err (e : Errno)               (* any call fails: -1, [errno = e] *)
| recv_data (bs : list byte)    (* bytes queued by the peer; [[]] is end of stream *)
| send_room (k : positive)      (* free bytes in the socket's send queue *)
| select_ready (r w : gset Z)   (* descriptors that are readable / writable *)
| accepted (fd : nat) (addr port : Z).
                                (* [accept] succeeds: the new descriptor, and the
                                   peer's address and port left in [client_addr] *)

(** What an observer of the process sees. *)
Inductive Event :=
| EvSys (name : string) (args : list Z) (ret : Z)
| EvAccept (sockfd : Z) (ret : Z)
| EvRecv (fd : Z) (len : Z) (got : list byte) (ret : Z)
| EvSend (fd : Z) (buf : list byte) (ret : Z)
| EvSelect (nfds : Z) (readfds writefds : gset Z) (ret : Z)
| EvClose (fd : Z)
| EvLog (stream : Z) (fmt : string) (args : list Z).

Definition STDOUT : Z := 1.
Definition STDERR : Z := 2.

(** Outcome of running a piece of the program against a list of replies. *)
Inductive Res (A : Type) :=
| Ok (a : A) (out : list Event) (rest : list Reply)
| Exited (status : Z) (out : list Event)   (* [exit(status)] was called *)
| Stuck.                                  (* the replies do not fit the calls *)
Arguments Ok {A} a out rest.
Arguments Exited {A} status out.
Arguments Stuck {A}.

Definition M (A : Type) : Type := list Reply -> Res A.

(** Prefix the events [o] to an outcome. *)
Definition emit {A} (o : list Event) (r : Res A) : Res A :=
  match r with
  | Ok a o' rs => Ok a (o ++ o') rs
  | Exited st o' => Exited st (o ++ o')
  | Stuck => Stuck
  end.

#[global] Instance M_ret : MRet M := fun A a rs => Ok a [] rs.
#[global] Instance M_bind : MBind M := fun A B f m rs =>
  match m rs with
  | Ok a o rs' => emit o (f a rs')
  | Exited st o => Exited st o
  | Stuck => Stuck
  end.

Definition stuck {A} : M A := fun _ => Stuck.
Definition tell (ev : Event) : M unit := fun rs => Ok tt [ev] rs.
Definition exit {A} (status : Z) : M A := fun _ => Exited status [].

(** One system call: the next reply is interpreted by [interp], which gives the
    value returned to the program and the event observed. *)
Definition syscall {A} (interp : Reply -> option (A * Event)) : M A := fun rs =>
  match rs with
  | [] => Stuck
  | r :: rs' =>
      match interp r with
      | Some (a, ev) => Ok a [ev] rs'
      | None => Stuck
      end
  end.

(** [printf], [fprintf(stderr, ...)], [perror]. *)
Definition printf (fmt : string) (args : list Z) : M unit := tell (EvLog STDOUT fmt args).
Definition fprintf_stderr (fmt : string) (args : list Z) : M unit := tell (EvLog STDERR fmt args).
Definition perror (s : string) : M unit := tell (EvLog STDERR s []).

(** Calls that return an int (a descriptor, flags, or 0) or -1. *)
Definition int_call (name : string) (args : list Z) (r : Reply) : option ((Z * option Errno) * Event) :=
  match r with
  | ok v => Some ((Z.of_nat v, None), EvSys name args (Z.of_nat v))
  | err e => Some ((-1, Some e), EvSys name args (-1))
  | _ => None
  end.

Definition sys_socket : M (Z * option Errno) := syscall (int_call "socket" []).
Definition sys_fcntl (fd cmd arg : Z) : M (Z * option Errno) := syscall (int_call "fcntl" [fd; cmd; arg]).
Definition sys_setsockopt (fd : Z) : M (Z * option Errno) := syscall (int_call "setsockopt" [fd]).
Definition sys_bind (fd port : Z) : M (Z * option Errno) := syscall (int_call "bind" [fd; port]).
Definition sys_listen (fd backlog : Z) : M (Z * option Errno) := syscall (int_call "listen" [fd; backlog]).

(** [accept(sockfd, &client_addr, &addr_size)]: the descriptor of the new
    connection, with [client_addr.sin_addr] and [ntohs(client_addr.sin_port)];
    on failure -1, and [client_addr] is not read by the program. *)
Definition accept_reply (sockfd : Z) (r : Reply)
  : option ((Z * (Z * Z) * option Errno) * Event) :=
  match r with
  | accepted fd addr port =>
      Some ((Z.of_nat fd, (addr, port), None), EvAccept sockfd (Z.of_nat fd))
  | err e => Some ((-1, (0, 0), Some e), EvAccept sockfd (-1))
  | _ => None
  end.
Definition sys_accept (sockfd : Z) : M (Z * (Z * Z) * option Errno) :=
  syscall (accept_reply sockfd).

(** [recv(fd, buffer, len, 0)]: at most [len] of the queued bytes are placed
    in [buffer] and their number is returned; 0 bytes is end of stream. *)
Definition recv_reply (fd len : Z) (r : Reply) : option ((Z * list byte * option Errno) * Event) :=
  match r with
  | recv_data bs =>
      let got := take (Z.to_nat len) bs in
      let n := Z.of_nat (length got) in
      Some ((n, got, None), EvRecv fd len got n)
  | err e => Some ((-1, [], Some e), EvRecv fd len [] (-1))
  | _ => None
  end.
Definition sys_recv (fd len : Z) : M (Z * list byte * option Errno) := syscall (recv_reply fd len).

(** [send(fd, buf, len, 0)] on a non-blocking stream socket: the kernel takes
    as many of the [len] bytes as it has room for, at least one, and returns
    that number; with no room it fails with [EAGAIN]. *)
Definition send_reply (fd : Z) (buf : list byte) (len : Z) (r : Reply)
  : option ((Z * option Errno) * Event) :=
  match r with
  | send_room k =>
      let n := Z.min (Z.pos k) len in
      Some ((n, None), EvSend fd buf n)
  | err e => Some ((-1, Some e), EvSend fd buf (-1))
  | _ => None
  end.
Definition sys_send (fd : Z) (buf : list byte) (len : Z) : M (Z * option Errno) :=
  syscall (send_reply fd buf len).

(** [select(nfds, &read_set, &write_set, NULL, NULL)]: on success the two sets
    are overwritten with the ready descriptors among those passed in. *)
Definition select_reply (nfds : Z) (read_set write_set : gset Z) (r : Reply)
  : option ((Z * gset Z * gset Z * option Errno) * Event) :=
  match r with
  | select_ready rd wr =>
      let read_set' := rd ∩ read_set in
      let write_set' := wr ∩ write_set in
      let n := Z.of_nat (size read_set' + size write_set') in
      Some ((n, read_set', write_set', None), EvSelect nfds read_set write_set n)
  | err e => Some ((-1, read_set, write_set, Some e), EvSelect nfds read_set write_set (-1))
  | _ => None
  end.
Definition sys_select (nfds : Z) (read_set write_set : gset Z)
  : M (Z * gset Z * gset Z * option Errno) := syscall (select_reply nfds read_set write_set).

(** [close(fd)]; its result is never inspected by the program. *)
Definition sys_close (fd : Z) : M unit := tell (EvClose fd).

(** ** The write buffer *)

Module WriteBuffer.
Record t := mk {
  data : list byte;   (* char data[MAX_PENDING_WRITES] *)
  size : Z;           (* total data in buffer *)
  offset : Z          (* how much we've already sent *)
}.
End WriteBuffer.
Abbreviation WriteBuffer := WriteBuffer.t.

(** [memcpy(dst + pos, src, len)] with [len] the length of [src]. Inside the
    array this overwrites [dst[pos..pos+len)]; a copy that runs past the end
    of the array (undefined in C) makes the list longer. *)
Definition memcpy (dst : list byte) (pos : Z) (src : list byte) : list byte :=
  take (Z.to_nat pos) dst ++ src ++ drop (Z.to_nat pos + length src) dst.

Definition init_write_buffer (buf : WriteBuffer) : WriteBuffer :=
  WriteBuffer.mk (WriteBuffer.data buf) 0 0.

Definition write_buffer_empty (buf : WriteBuffer) : bool :=
  WriteBuffer.offset buf >=? WriteBuffer.size buf.

(** [write_buffer_append(buf, data, len)], with [len] the length of [data]. *)
Definition write_buffer_append (buf : WriteBuffer) (data : list byte) : M (bool * WriteBuffer) :=
  let len := Z.of_nat (length data) in
  if size_t (WriteBuffer.size buf + len) >? MAX_PENDING_WRITES then
    fprintf_stderr "Write buffer full, cannot append %zu bytes\n" [len];;
    mret (false, buf)
  else
    let buf :=
      if WriteBuffer.offset buf >=? WriteBuffer.size buf
      then WriteBuffer.mk (WriteBuffer.data buf) 0 0
      else buf in
    mret (true,
          WriteBuffer.mk (memcpy (WriteBuffer.data buf) (WriteBuffer.size buf) data)
                         (size_t (WriteBuffer.size buf + len))
                         (WriteBuffer.offset buf)).

(** The [len] bytes at [buf->data + pos]. *)
Definition region (buf : WriteBuffer) (pos len : Z) : list byte :=
  take (Z.to_nat len) (drop (Z.to_nat pos) (WriteBuffer.data buf)).

(** The bytes staged and not yet sent: [buf->size - buf->offset] bytes at
    [buf->data + buf->offset]. *)
Definition pending (buf : WriteBuffer) : list byte :=
  region buf (WriteBuffer.offset buf)
         (size_t (WriteBuffer.size buf - WriteBuffer.offset buf)).

(** [write_buffer_flush(buf, fd)]: 0 when all is sent, -1 on error, 1 if more
    data remains. Every turn of the [while] loop reads one reply. *)
Fixpoint write_buffer_flush (buf : WriteBuffer) (fd : Z) (rs : list Reply) {struct rs}
  : Res (Z * WriteBuffer) :=
  if WriteBuffer.offset buf <? WriteBuffer.size buf then
    match rs with
    | [] => Stuck
    | r :: rs' =>
        match send_reply fd (pending buf)
                (size_t (WriteBuffer.size buf - WriteBuffer.offset buf)) r with
        | None => Stuck
        | Some ((sent, errno), ev) =>
            if sent <? 0 then
              if errno_is errno EAGAIN || errno_is errno EWOULDBLOCK
              then Ok (1, buf) [ev] rs'
              else Ok (-1, buf) [ev; EvLog STDERR "send" []] rs'
            else
              emit [ev]
                (write_buffer_flush
                   (WriteBuffer.mk (WriteBuffer.data buf) (WriteBuffer.size buf)
                                   (size_t (WriteBuffer.offset buf + sent)))
                   fd rs')
        end
    end
  else Ok (0, WriteBuffer.mk (WriteBuffer.data buf) 0 0) [] rs.

(** ** Client slots and the server state *)

Module Client.
Record t := mk {
  fd : Z;
  write_buf : WriteBuffer
}.
End Client.
Abbreviation Client := Client.t.

(** The objects [run_server_with_select] owns and lends to the handlers. *)
Record Server := mkServer {
  clients : list Client;          (* Client clients[FD_SETSIZE] *)
  master_read_set : gset Z;
  master_write_set : gset Z;
  max_fd : Z
}.

Section EventLoop.

(** [FD_SETSIZE] of [<sys/select.h>]: the number of bits of an [fd_set] and
    the length of the slot table. *)
Variable FD_SETSIZE : nat.

(** [FD_SET], [FD_CLR], [FD_ISSET]. An [fd_set] has one bit for each
    descriptor in [0, FD_SETSIZE). [FD_SET] on a descriptor outside that
    range writes outside the bitmap (undefined behaviour in C): no bit of the
    bitmap is set and the descriptor is not registered. The sets built from
    [FD_ZERO] therefore hold descriptors of the range only, and on such a set
    [FD_CLR] and [FD_ISSET] with a descriptor outside the range leave the set
    as it is and answer false. *)
Definition FD_SET (fd : Z) (set : gset Z) : gset Z :=
  if bool_decide (0 <= fd < Z.of_nat FD_SETSIZE) then {[fd]} ∪ set else set.
Definition FD_CLR (fd : Z) (set : gset Z) : gset Z := set ∖ {[fd]}.
Definition FD_ISSET (fd : Z) (set : gset Z) : bool := bool_decide (fd ∈ set).

(** [clients[i].write_buf = buf]. *)
Definition set_write_buf (s : Server) (i : nat) (c : Client) (buf : WriteBuffer) : Server :=
  mkServer (<[i := Client.mk (Client.fd c) buf]> (clients s))
           (master_read_set s) (master_write_set s) (max_fd s).

Definition set_nonblocking (fd : Z) : M Z :=
  '(flags, _) ← sys_fcntl fd F_GETFL 0;
  if flags =? -1 then
    perror "fcntl(F_GETFL)";; mret (-1)
  else
    '(r, _) ← sys_fcntl fd F_SETFL (Z.lor flags O_NONBLOCK);
    if r =? -1 then
      perror "fcntl(F_SETFL)";; mret (-1)
    else mret 0.

(** [close_client(clients, list_index, master_read_set, master_write_set)].
    An index outside the table is undefined behaviour in C: [stuck]. *)
Definition close_client (s : Server) (list_index : nat) : M Server :=
  match clients s !! list_index with
  | None => stuck
  | Some c =>
      let fd := Client.fd c in
      if fd <? 0 then mret s
      else
        printf "Closing client fd=%d\n" [fd];;
        sys_close fd;;
        mret (mkServer
                (<[list_index := Client.mk (-1) (init_write_buffer (Client.write_buf c))]> (clients s))
                (FD_CLR fd (master_read_set s))
                (FD_CLR fd (master_write_set s))
                (max_fd s))
  end.

Definition fatal_error {A} (msg : string) : M A :=
  fprintf_stderr "Fatal error: %s (%s)\n" [];;
  exit EXIT_FAILURE.

Definition create_server_hello_socket (port : Z) : M Z :=
  '(server_fd, _) ← sys_socket;
  (if server_fd <? 0 then perror "socket";; fatal_error "Socket creation failed" else mret tt);;
  nb ← set_nonblocking server_fd;
  (if nb <? 0 then sys_close server_fd;; fatal_error "Failed to set server socket non-blocking"
   else mret tt);;
  '(r, _) ← sys_setsockopt server_fd;
  (if r =? -1 then perror "setsockopt";; sys_close server_fd;; fatal_error "Failed to set SO_REUSEADDR"
   else mret tt);;
  '(r, _) ← sys_bind server_fd port;
  (if r =? -1 then perror "bind";; sys_close server_fd;; fatal_error "Bind failed"
   else mret tt);;
  '(r, _) ← sys_listen server_fd SOMAXCONN;
  (if r =? -1 then perror "listen";; sys_close server_fd;; fatal_error "Listen failed"
   else mret tt);;
  printf "Server listening on port %d\n" [port];;
  mret server_fd.

(** The slot search of [handle_new_connection]:
    [for (int i = 0; i < FD_SETSIZE; ++i) if (clients[i].fd < 0) { ...; break; }]
    started at index [i] with [n] indices left; returns the table and [added]. *)
Fixpoint find_slot (clients : list Client) (client_fd : Z) (i n : nat)
  : option (list Client * bool) :=
  match n with
  | O => Some (clients, false)
  | S n' =>
      match clients !! i with
      | None => None
      | Some c =>
          if Client.fd c <? 0 then
            Some (<[i := Client.mk client_fd (init_write_buffer (Client.write_buf c))]> clients, true)
          else find_slot clients client_fd (S i) n'
      end
  end.

(** [handle_new_connection(server_fd, clients, master_read_set, max_fd)].
    The line printed for a new client has the peer's address (as text,
    through [inet_ntop]), its port and the new descriptor. *)
Definition handle_new_connection (server_fd : Z) (s : Server) : M Server :=
  '(client_fd, client_addr, errno) ← sys_accept server_fd;
  if client_fd =? -1 then
    (if negb (errno_is errno EAGAIN) && negb (errno_is errno EWOULDBLOCK)
     then perror "accept" else mret tt);;
    mret s
  else
    nb ← set_nonblocking client_fd;
    if nb <? 0 then
      sys_close client_fd;; mret s
    else
      let read_set := FD_SET client_fd (master_read_set s) in
      let max_fd' := if client_fd >? max_fd s then client_fd else max_fd s in
      match find_slot (clients s) client_fd 0 FD_SETSIZE with
      | None => stuck
      | Some (clients', added) =>
          if negb added then
            fprintf_stderr "Too many clients, rejecting connection\n" [];;
            sys_close client_fd;;
            mret (mkServer clients' (FD_CLR client_fd read_set) (master_write_set s) max_fd')
          else
            printf "New client connected: %s:%d (fd=%d)\n"
                   [client_addr.1; client_addr.2; client_fd];;
            mret (mkServer clients' read_set (master_write_set s) max_fd')
      end.

Definition handle_client_read (s : Server) (list_index : nat) : M Server :=
  match clients s !! list_index with
  | None => stuck
  | Some c =>
      let fd := Client.fd c in
      '(bytes_received, buffer, errno) ← sys_recv fd BUFFER_SIZE;
      if bytes_received <? 0 then
        if errno_is errno EAGAIN || errno_is errno EWOULDBLOCK then mret s
        else perror "recv";; close_client s list_index
      else if bytes_received =? 0 then
        printf "Client disconnected (fd=%d)\n" [fd];;
        close_client s list_index
      else
        printf "Received %zd bytes from client (fd=%d)\n" [bytes_received; fd];;
        '(appended, buf) ← write_buffer_append (Client.write_buf c) buffer;
        let s := set_write_buf s list_index c buf in
        if negb appended then
          fprintf_stderr "Write buffer overflow for fd=%d, closing connection\n" [fd];;
          close_client s list_index
        else
          mret (mkServer (clients s) (master_read_set s)
                         (FD_SET fd (master_write_set s)) (max_fd s))
  end.

Definition handle_client_write (s : Server) (list_index : nat) : M Server :=
  match clients s !! list_index with
  | None => stuck
  | Some c =>
      let fd := Client.fd c in
      '(result, buf) ← write_buffer_flush (Client.write_buf c) fd;
      let s := set_write_buf s list_index c buf in
      if result =? -1 then close_client s list_index
      else if result =? 0 then
        printf "Finished sending data to client (fd=%d)\n" [fd];;
        mret (mkServer (clients s) (master_read_set s)
                       (FD_CLR fd (master_write_set s)) (max_fd s))
      else mret s
  end.

(** The body of [for (int i = 0; i < FD_SETSIZE; i++)] in the event loop,
    from index [i] with [n] indices left. *)
Fixpoint client_loop (read_set write_set : gset Z) (s : Server) (i n : nat) : M Server :=
  match n with
  | O => mret s
  | S n' =>
      match clients s !! i with
      | None => stuck
      | Some c =>
          let fd := Client.fd c in
          if fd <? 0 then client_loop read_set write_set s (S i) n'
          else
            s ← (if FD_ISSET fd read_set then handle_client_read s i else mret s);
            match clients s !! i with
            | None => stuck
            | Some c' =>
                s ← (if (Client.fd c' >=? 0) && FD_ISSET fd write_set
                     then handle_client_write s i else mret s);
                client_loop read_set write_set s (S i) n'
            end
      end
  end.

(** One turn of [while (true)]: the state to go on with, or the value
    [run_server_with_select] returns. *)
Definition loop_iteration (server_fd : Z) (s : Server) : M (Server + Z) :=
  '(activity, read_set, write_set, errno) ←
    sys_select (max_fd s + 1) (master_read_set s) (master_write_set s);
  if activity <? 0 then
    if errno_is errno EINTR then mret (inl s)
    else perror "select";; mret (inr (-1))
  else
    s ← (if FD_ISSET server_fd read_set then handle_new_connection server_fd s else mret s);
    s ← client_loop read_set write_set s 0 FD_SETSIZE;
    mret (inl s).

(** [while (true)], for at most [fuel] turns. *)
Fixpoint event_loop (fuel : nat) (server_fd : Z) (s : Server) : M Z :=
  match fuel with
  | O => stuck
  | S fuel' =>
      r ← loop_iteration server_fd s;
      match r with
      | inl s' => event_loop fuel' server_fd s'
      | inr v => mret v
      end
  end.

(** The state at the first turn of the loop; [stack] is what the
    uninitialised array [clients] happens to hold. *)
Definition initial_server (stack : list Client) (server_fd : Z) : Server :=
  mkServer
    (map (fun c => Client.mk (-1) (init_write_buffer (Client.write_buf c))) stack)
    (FD_SET server_fd ∅) ∅ server_fd.

Definition run_server_with_select (fuel : nat) (stack : list Client) (server_fd : Z) : M Z :=
  printf "Server ready, waiting for connections...\n" [];;
  event_loop fuel server_fd (initial_server stack server_fd).

Definition main (fuel : nat) (stack : list Client) : M Z :=
  server_fd ← create_server_hello_socket PORT;
  result ← run_server_with_select fuel stack server_fd;
  sys_close server_fd;;
  mret result.

End EventLoop.

(** The exit status the parent of the process observes: the low 8 bits of
    the value returned by [main] or given to [exit]. *)
Definition exit_status (r : Res Z) : option Z :=
  match r with
  | Ok v _ _ => Some (Z.land v 255)
  | Exited st _ => Some (Z.land st 255)
  | Stuck => None
  end.

(** ** Notions used by the statements *)

(** A value of the C type [WriteBuffer] whose counters respect the array. *)
Definition wf_buffer (buf : WriteBuffer) : Prop :=
  0 <= WriteBuffer.offset buf <= WriteBuffer.size buf /\
  WriteBuffer.size buf <= MAX_PENDING_WRITES /\
  Z.of_nat (length (WriteBuffer.data buf)) = MAX_PENDING_WRITES.


(** The state after [close_client] on slot [i], which held [c]. *)
Definition closed (s : Server) (i : nat) (c : Client) : Server :=
  mkServer (<[i := Client.mk (-1) (init_write_buffer (Client.write_buf c))]> (clients s))
           (FD_CLR (Client.fd c) (master_read_set s))
           (FD_CLR (Client.fd c) (master_write_set s))
           (max_fd s).

(** *** What the peer of a connection observes *)

(** The bytes one event hands to the kernel for [fd]: the first [ret] bytes
    of the buffer of a [send] that returned [ret >= 0]. *)
Definition sent_of (fd : Z) (ev : Event) : list byte :=
  match ev with
  | EvSend fd' buf ret => if bool_decide (fd' = fd) then take (Z.to_nat ret) buf else []
  | _ => []
  end.

(** The byte stream transmitted to [fd] by a run with events [out]. *)
Definition transmitted (fd : Z) (out : list Event) : list byte :=
  concat (map (sent_of fd) out).

(** The number of bytes the [send] calls on [fd] reported as sent. *)
Definition sent_count (fd : Z) (ev : Event) : Z :=
  match ev with
  | EvSend fd' _ ret => if bool_decide (fd' = fd) then Z.max 0 ret else 0
  | _ => 0
  end.

Definition sent_total (fd : Z) (out : list Event) : Z :=
  foldr (fun ev n => sent_count fd ev + n) 0 out.

(** The bytes one event delivers to the program from [fd]. *)
Definition got_of (fd : Z) (ev : Event) : list byte :=
  match ev with
  | EvRecv fd' _ got _ => if bool_decide (fd' = fd) then got else []
  | _ => []
  end.

(** The byte stream delivered to the read handler from [fd]. *)
Definition received (fd : Z) (out : list Event) : list byte :=
  concat (map (got_of fd) out).

Definition is_recv (ev : Event) : bool :=
  match ev with EvRecv _ _ _ _ => true | _ => false end.
Definition is_accept (ev : Event) : bool :=
  match ev with EvAccept _ _ => true | _ => false end.
Definition is_close_of (fd : Z) (ev : Event) : bool :=
  match ev with EvClose fd' => bool_decide (fd' = fd) | _ => false end.

(** Number of events of a run that satisfy [p]. *)
Definition count (p : Event -> bool) (out : list Event) : nat :=
  length (List.filter p out).

(** Replies that answer a [send]. *)
Definition is_send_reply (r : Reply) : bool :=
  match r with send_room _ | err _ => true | _ => false end.
Definition is_err (r : Reply) : bool :=
  match r with err _ => true | _ => false end.

(** [EAGAIN] or [EWOULDBLOCK]. *)
Definition would_block (e : Errno) : Prop := e = EAGAIN \/ e = EWOULDBLOCK.

(** Total room offered by a run of successful [send] replies. *)
Definition room (ks : list positive) : Z :=
  foldr (fun k n => Z.pos k + n) 0 ks.

(** [clients[i] = {fd, buf}] with the sets and [max_fd] as given. *)
Definition with_slot (s : Server) (i : nat) (fd : Z) (buf : WriteBuffer)
    (read_set write_set : gset Z) : Server :=
  mkServer (<[i := Client.mk fd buf]> (clients s)) read_set write_set (max_fd s).

(** Every slot is empty ([fd = -1]) or holds a descriptor. *)
Definition slots_wf (cl : list Client) : Prop :=
  forall c, c ∈ cl -> Client.fd c = -1 \/ 0 <= Client.fd c.

(** The lowest-index slot whose [fd == -1], with its index. *)
Definition first_free (cl : list Client) : option (nat * Client) :=
  list_find (fun c => Client.fd c = -1) cl.

(** *** Steps of the event loop *)

(** The operations the loop performs on the state it owns. *)
Inductive Op :=
| OpAccept
| OpRead (i : nat)
| OpWrite (i : nat)
| OpClose (i : nat).

Definition run_op (FD_SETSIZE : nat) (server_fd : Z) (op : Op) (s : Server) : M Server :=
  match op with
  | OpAccept => handle_new_connection FD_SETSIZE server_fd s
  | OpRead i => handle_client_read FD_SETSIZE s i
  | OpWrite i => handle_client_write s i
  | OpClose i => close_client s i
  end.

(** The loop calls the read and write handlers on occupied slots only, and
    [close_client] on slots of the table. *)
Definition enabled (op : Op) (s : Server) : Prop :=
  match op with
  | OpAccept => True
  | OpRead i | OpWrite i => exists c, clients s !! i = Some c /\ 0 <= Client.fd c
  | OpClose i => exists c, clients s !! i = Some c
  end.

(** What is assumed of the descriptor [accept] returns. The kernel never
    hands out a descriptor that is still open, and every descriptor of the
    master read-set is open: the new descriptor is not in the master
    read-set. And the process runs with a limit on open files of at most
    [FD_SETSIZE] (the default), so that the new descriptor has a bit in an
    [fd_set]. *)
Definition fresh_accept (FD_SETSIZE : nat) (op : Op) (s : Server) (rs : list Reply) : Prop :=
  match op, rs with
  | OpAccept, accepted newfd _ _ :: _ =>
      Z.of_nat newfd < Z.of_nat FD_SETSIZE /\ (Z.of_nat newfd ∉ master_read_set s)
  | _, _ => True
  end.

(** [max_fd] bounds the listener and the descriptor of every occupied slot. *)
Definition fd_bound (server_fd : Z) (s : Server) : Prop :=
  server_fd <= max_fd s /\
  forall i c, clients s !! i = Some c -> 0 <= Client.fd c -> Client.fd c <= max_fd s.

(** States the event loop reaches from its first turn. *)
Inductive reachable (FD_SETSIZE : nat) (server_fd : Z) (stack : list Client) : Server -> Prop :=
| reach_init : reachable FD_SETSIZE server_fd stack (initial_server FD_SETSIZE stack server_fd)
| reach_op s op rs s' out rs' :
    reachable FD_SETSIZE server_fd stack s ->
    enabled op s ->
    run_op FD_SETSIZE server_fd op s rs = Ok s' out rs' ->
    reachable FD_SETSIZE server_fd stack s'.

(** The counters of a buffer respect its capacity. *)
Definition buffer_bounds (buf : WriteBuffer) : Prop :=
  0 <= WriteBuffer.offset buf <= WriteBuffer.size buf /\
  WriteBuffer.size buf <= MAX_PENDING_WRITES.

(** What holds of the slot table and the master sets between handlers. *)
Record Inv (FD_SETSIZE : nat) (s : Server) : Prop := mkInv {
  inv_length : length (clients s) = FD_SETSIZE;
  inv_slots : forall i c, clients s !! i = Some c -> Client.fd c = -1 \/ 0 <= Client.fd c;
  inv_range : forall fd, fd ∈ master_read_set s -> 0 <= fd < Z.of_nat FD_SETSIZE;
  inv_read : forall i c, clients s !! i = Some c -> 0 <= Client.fd c ->
    Client.fd c ∈ master_read_set s;
  inv_distinct : forall i j ci cj,
    clients s !! i = Some ci -> clients s !! j = Some cj ->
    0 <= Client.fd ci -> Client.fd ci = Client.fd cj -> i = j;
  inv_write_sub : forall fd, fd ∈ master_write_set s -> fd ∈ master_read_set s;
  inv_write : forall i c, clients s !! i = Some c ->
    Client.fd c ∈ master_write_set s -> write_buffer_empty (Client.write_buf c) = false;
  inv_buffers : forall i c, clients s !! i = Some c -> buffer_bounds (Client.write_buf c)
}.

(** *** One connection *)

Inductive Invocation := ReadReady | WriteReady.

(** The handler invocations [evs] on slot [i], in order; as in the loop, a
    slot that has become empty is skipped. *)
Fixpoint serve (FD_SETSIZE : nat) (i : nat) (evs : list Invocation) (s : Server) : M Server :=
  match evs with
  | [] => mret s
  | ev :: evs' =>
      match clients s !! i with
      | None => stuck
      | Some c =>
          if Client.fd c <? 0 then serve FD_SETSIZE i evs' s
          else
            s' ← (match ev with
                  | ReadReady => handle_client_read FD_SETSIZE s i
                  | WriteReady => handle_client_write s i
                  end);
            serve FD_SETSIZE i evs' s'
      end
  end.

(** A handler on slot [i] leaves [max_fd] and the other slots alone, and
    leaves in slot [i] the descriptor it held or -1. *)
Definition slot_step (s s' : Server) (i : nat) (c : Client) : Prop :=
  max_fd s' = max_fd s /\
  exists c', (Client.fd c' = Client.fd c \/ Client.fd c' = -1) /\
             clients s' = <[i := c']> (clients s).

(** *** A connection with a peer that keeps within the buffer *)

(** What happens at one invocation of a handler on the slot of a
    connection whose peer and whose socket cause no failure. *)
Inductive Turn :=
| Recv (bs : list byte)        (* read handler: [recv] delivers [bs] *)
| RecvAgain (e : Errno)        (* read handler: [recv] fails, it would block *)
| SendAll (ks : list positive) (k : positive)
                               (* write handler: the sends take [ks] bytes, then one
                                  with room [k] takes all that is left *)
| SendSome (ks : list positive) (e : Errno)
                               (* write handler: the sends take [ks] bytes, then one
                                  fails, it would block *)
| SendNone.                    (* write handler with nothing to send *)

Definition invocation (t : Turn) : Invocation :=
  match t with
  | Recv _ | RecvAgain _ => ReadReady
  | SendAll _ _ | SendSome _ _ | SendNone => WriteReady
  end.

(** The replies of the kernel during the turn. *)
Definition replies (t : Turn) : list Reply :=
  match t with
  | Recv bs => [recv_data bs]
  | RecvAgain e => [err e]
  | SendAll ks k => (send_room <$> ks) ++ [send_room k]
  | SendSome ks e => (send_room <$> ks) ++ [err e]
  | SendNone => []
  end.

(** The bytes the peer has sent that reach the program in the turn. *)
Definition arrived (t : Turn) : list byte :=
  match t with Recv bs => bs | _ => [] end.

(** The bytes in flight along a sequence of turns: [staged] bytes have
    arrived since the buffer was last empty, and [unsent] of them are still to
    be sent. [None] when a turn does not fit: a [recv] that delivers nothing
    or more than [BUFFER_SIZE] bytes, or takes the bytes staged beyond
    [MAX_PENDING_WRITES]; an error that is not [EAGAIN]/[EWOULDBLOCK]; sends
    that do not match the bytes that are left. *)
Fixpoint account (staged unsent : Z) (ts : list Turn) : option (Z * Z) :=
  match ts with
  | [] => Some (staged, unsent)
  | t :: ts' =>
      match t with
      | Recv bs =>
          let len := Z.of_nat (length bs) in
          if (0 <? len) && (len <=? BUFFER_SIZE) && (staged + len <=? MAX_PENDING_WRITES)
          then account (staged + len) (unsent + len) ts'
          else None
      | RecvAgain e =>
          if errno_is (Some e) EAGAIN || errno_is (Some e) EWOULDBLOCK
          then account staged unsent ts' else None
      | SendAll ks k =>
          if (room ks <? unsent) && (unsent <=? room ks + Z.pos k)
          then account 0 0 ts' else None
      | SendSome ks e =>
          if (room ks <? unsent) && (errno_is (Some e) EAGAIN || errno_is (Some e) EWOULDBLOCK)
          then account staged (unsent - room ks) ts' else None
      | SendNone =>
          if unsent =? 0 then account 0 0 ts' else None
      end
  end.


(** ** Further notions: the rest of [error.h], and events of a turn *)

(** [usage_error(progname, usage)] of [error.h]. *)
Definition usage_error {A} (progname usage : string) : M A :=
  fprintf_stderr "Usage: %s %s\n" [];;
  exit EXIT_FAILURE.

(** The events of an outcome, however it ended. *)
Definition events {A} (r : Res A) : list Event :=
  match r with
  | Ok _ out _ => out
  | Exited _ out => out
  | Stuck => []
  end.

(** The descriptors the [recv] calls of a run read from, in order. *)
Definition recv_fd (ev : Event) : option Z :=
  match ev with EvRecv fd _ _ _ => Some fd | _ => None end.
Definition recv_fds (out : list Event) : list Z := omap recv_fd out.

Definition is_select (ev : Event) : bool :=
  match ev with EvSelect _ _ _ _ => true | _ => false end.
Definition is_send (ev : Event) : bool :=
  match ev with EvSend _ _ _ => true | _ => false end.






(** A piece of the program that, if it ends the process, ends it with
    [EXIT_FAILURE]. *)
Definition exits_failure {A} (m : M A) : Prop :=
  forall rs st out, m rs = Exited st out -> st = EXIT_FAILURE.

(** Every event of a returning run of [m] satisfies [P]. *)
Definition emits {A} (P : Event -> Prop) (m : M A) : Prop :=
  forall rs a out rs', m rs = Ok a out rs' -> Forall P out.

(** An event stays within what the wait reported: a [recv] is on a readable
    descriptor, a [send] on a writable one, an [accept] on the listener and
    only if it is readable. *)
Definition within (server_fd : Z) (read_set write_set : gset Z) (ev : Event) : Prop :=
  match ev with
  | EvRecv fd _ _ _ => fd ∈ read_set
  | EvSend fd _ _ => fd ∈ write_set
  | EvAccept sockfd _ => sockfd = server_fd /\ server_fd ∈ read_set
  | _ => True
  end.

(** An event that is neither a [select], an [accept] nor a [recv]. *)
Definition plain (ev : Event) : Prop :=
  is_select ev = false /\ is_accept ev = false /\ is_recv ev = false.

(** An event that reads, writes or closes no descriptor other than [fd]. *)
Definition concerns_only (fd : Z) (ev : Event) : Prop :=
  match ev with
  | EvRecv f _ _ _ | EvSend f _ _ | EvClose f => f = fd
  | EvAccept _ _ | EvSelect _ _ _ _ => False
  | EvSys _ _ _ | EvLog _ _ _ => True
  end.

(** * Verification *)

(** ** Running monadic code *)

Lemma run_ret {A} (a : A) (rs : list Reply) : mret (M := M) a rs = Ok a [] rs.
Proof. reflexivity. Qed.

Lemma run_bind {A B} (m : M A) (f : A -> M B) (rs : list Reply) :
  (m ≫= f) rs =
  match m rs with
  | Ok a o rs' => emit o (f a rs')
  | Exited st o => Exited st o
  | Stuck => Stuck
  end.
Proof. reflexivity. Qed.

Lemma run_tell {B} (ev : Event) (k : M B) (rs : list Reply) :
  (tell ev;; k) rs = emit [ev] (k rs).
Proof. reflexivity. Qed.

Lemma run_printf {B} fmt args (k : M B) (rs : list Reply) :
  (printf fmt args;; k) rs = emit [EvLog STDOUT fmt args] (k rs).
Proof. reflexivity. Qed.

Lemma run_fprintf_stderr {B} fmt args (k : M B) (rs : list Reply) :
  (fprintf_stderr fmt args;; k) rs = emit [EvLog STDERR fmt args] (k rs).
Proof. reflexivity. Qed.

Lemma run_perror {B} msg (k : M B) (rs : list Reply) :
  (perror msg;; k) rs = emit [EvLog STDERR msg []] (k rs).
Proof. reflexivity. Qed.

Lemma run_sys_close {B} fd (k : M B) (rs : list Reply) :
  (sys_close fd;; k) rs = emit [EvClose fd] (k rs).
Proof. reflexivity. Qed.

(** Unfold the logging and [close] calls at the head of a run. *)
Ltac run_step :=
  first [ rewrite run_printf | rewrite run_fprintf_stderr | rewrite run_perror
        | rewrite run_sys_close | rewrite run_tell | rewrite run_ret ].

Lemma emit_nil {A} (r : Res A) : emit [] r = r.
Proof. by destruct r. Qed.

Lemma emit_emit {A} (o1 o2 : list Event) (r : Res A) :
  emit o1 (emit o2 r) = emit (o1 ++ o2) r.
Proof. destruct r; simpl; by rewrite ?app_assoc. Qed.

Lemma emit_Ok_inv {A} (o : list Event) (r : Res A) a out rest :
  emit o r = Ok a out rest -> exists o', r = Ok a o' rest /\ out = o ++ o'.
Proof. destruct r; simpl; intros; simplify_eq; eauto. Qed.

(** The loop of [write_buffer_flush] is the C loop around [send]. *)
Lemma write_buffer_flush_unfold (buf : WriteBuffer) (fd : Z) (rs : list Reply) :
  write_buffer_flush buf fd rs =
  (if WriteBuffer.offset buf <? WriteBuffer.size buf then
     '(sent, errno) ← sys_send fd (pending buf)
                       (size_t (WriteBuffer.size buf - WriteBuffer.offset buf));
     if sent <? 0 then
       if errno_is errno EAGAIN || errno_is errno EWOULDBLOCK then mret (1, buf)
       else perror "send";; mret (-1, buf)
     else
       write_buffer_flush
         (WriteBuffer.mk (WriteBuffer.data buf) (WriteBuffer.size buf)
                         (size_t (WriteBuffer.offset buf + sent))) fd
   else mret (0, WriteBuffer.mk (WriteBuffer.data buf) 0 0)) rs.
Proof.
  destruct rs as [|r rs]; simpl.
  - by destruct (_ <? _).
  - destruct (_ <? _); [|done].
    rewrite run_bind. unfold sys_send, syscall.
    destruct (send_reply _ _ _ r) as [[[sent errno] ev]|]; [|done].
    simpl. destruct (sent <? 0); [|done].
    by destruct (errno_is errno EAGAIN || errno_is errno EWOULDBLOCK).
Qed.

(** ** The write buffer: append *)



Lemma size_t_small (z : Z) : 0 <= z < 2 ^ 64 -> size_t z = z.
Proof. intros. unfold size_t. by rewrite Z.mod_small. Qed.

Lemma length_memcpy (dst src : list byte) (pos : Z) :
  0 <= pos -> pos + Z.of_nat (length src) <= Z.of_nat (length dst) ->
  length (memcpy dst pos src) = length dst.
Proof.
  intros. unfold memcpy. rewrite !length_app, length_take, length_drop. lia.
Qed.

(** What the code does: the capacity test uses the size before any reset. *)
Lemma write_buffer_append_run (buf : WriteBuffer) (data : list byte) (rs : list Reply) :
  wf_buffer buf -> Z.of_nat (length data) < 2 ^ 63 ->
  let len := Z.of_nat (length data) in
  write_buffer_append buf data rs =
  if WriteBuffer.size buf + len >? MAX_PENDING_WRITES then
    Ok (false, buf)
       [EvLog STDERR "Write buffer full, cannot append %zu bytes\n" [len]] rs
  else if WriteBuffer.offset buf =? WriteBuffer.size buf then
    Ok (true, WriteBuffer.mk (memcpy (WriteBuffer.data buf) 0 data) len 0) [] rs
  else
    Ok (true, WriteBuffer.mk (memcpy (WriteBuffer.data buf) (WriteBuffer.size buf) data)
                             (WriteBuffer.size buf + len) (WriteBuffer.offset buf)) [] rs.
Proof.
  intros (Hos & Hsz & Hlen) Hl len. unfold write_buffer_append. fold len.
  unfold MAX_PENDING_WRITES in *.
  rewrite (size_t_small (WriteBuffer.size buf + len)) by lia.
  destruct (WriteBuffer.size buf + len >? 8192) eqn:Hfull; [done|].
  destruct (WriteBuffer.offset buf =? WriteBuffer.size buf) eqn:Heq.
  - apply Z.eqb_eq in Heq. rewrite Heq, Z.geb_leb, Z.leb_refl. simpl.
    rewrite run_ret. do 3 f_equal. apply size_t_small. lia.
  - apply Z.eqb_neq in Heq.
    destruct (WriteBuffer.offset buf >=? WriteBuffer.size buf) eqn:Hge.
    + rewrite Z.geb_leb in Hge. apply Z.leb_le in Hge. lia.
    + rewrite run_ret, size_t_small; [done|lia].
Qed.



(** ** Connection close *)


Lemma close_client_open (s : Server) (i : nat) (c : Client) (rs : list Reply) :
  clients s !! i = Some c -> 0 <= Client.fd c ->
  close_client s i rs =
  Ok (closed s i c)
     [EvLog STDOUT "Closing client fd=%d\n" [Client.fd c]; EvClose (Client.fd c)] rs.
Proof.
  intros Hi Hfd. unfold close_client. rewrite Hi.
  destruct (Client.fd c <? 0) eqn:Hneg; [lia|]. reflexivity.
Qed.

Lemma close_client_empty (s : Server) (i : nat) (c : Client) (rs : list Reply) :
  clients s !! i = Some c -> Client.fd c < 0 ->
  close_client s i rs = Ok s [] rs.
Proof.
  intros Hi Hfd. unfold close_client. rewrite Hi.
  destruct (Client.fd c <? 0) eqn:Hneg; [done|lia].
Qed.

Lemma closed_lookup (s : Server) (i : nat) (c : Client) :
  clients s !! i = Some c ->
  clients (closed s i c) !! i = Some (Client.mk (-1) (init_write_buffer (Client.write_buf c))).
Proof.
  intros Hi. simpl. apply list_lookup_insert_eq. by eapply lookup_lt_Some.
Qed.

(** C8. On a slot with [fd >= 0], [close_client] calls [close(fd)], clears
    [fd] from both master sets, marks the slot [fd = -1] and resets its write
    buffer to [size = 0], [offset = 0]. A second close of the slot sees
    [fd < 0] and changes nothing and does nothing observable, so closing
    twice equals closing once. *)
Theorem close_client_releases_slot_and_is_idempotent
    (s : Server) (i : nat) (c : Client) (rs : list Reply) :
  clients s !! i = Some c -> 0 <= Client.fd c ->
  exists s' c',
    close_client s i rs =
      Ok s' [EvLog STDOUT "Closing client fd=%d\n" [Client.fd c]; EvClose (Client.fd c)] rs /\
    master_read_set s' = FD_CLR (Client.fd c) (master_read_set s) /\
    master_write_set s' = FD_CLR (Client.fd c) (master_write_set s) /\
    (Client.fd c ∉ master_read_set s') /\
    (Client.fd c ∉ master_write_set s') /\
    clients s' !! i = Some c' /\
    Client.fd c' = -1 /\
    WriteBuffer.size (Client.write_buf c') = 0 /\
    WriteBuffer.offset (Client.write_buf c') = 0 /\
    (forall j, j <> i -> clients s' !! j = clients s !! j) /\
    max_fd s' = max_fd s /\
    close_client s' i rs = Ok s' [] rs /\
    (close_client s i ≫= fun s1 => close_client s1 i) rs = close_client s i rs.
Proof.
  intros Hi Hfd.
  exists (closed s i c), (Client.mk (-1) (init_write_buffer (Client.write_buf c))).
  pose proof (closed_lookup s i c Hi) as Hi'.
  assert (Hagain : close_client (closed s i c) i rs = Ok (closed s i c) [] rs).
  { eapply close_client_empty; [exact Hi'|]. simpl. lia. }
  repeat split; try done.
  - by apply close_client_open.
  - simpl. unfold FD_CLR. rewrite elem_of_difference, elem_of_singleton. tauto.
  - simpl. unfold FD_CLR. rewrite elem_of_difference, elem_of_singleton. tauto.
  - intros j Hj. simpl. by apply list_lookup_insert_ne.
  - by rewrite run_bind, (close_client_open s i c rs Hi Hfd), Hagain.
Qed.

Lemma close_client_releases_slot_and_is_idempotent_witness :
  let c := Client.mk 5 (WriteBuffer.mk [x41; x42; x43] 3 1) in
  let s := mkServer [Client.mk (-1) (WriteBuffer.mk [] 0 0); c] {[3; 5]} {[5]} 5 in
  exists s' c',
    close_client s 1 [] =
      Ok s' [EvLog STDOUT "Closing client fd=%d\n" [5]; EvClose 5] [] /\
    master_read_set s' = FD_CLR 5 (master_read_set s) /\
    master_write_set s' = FD_CLR 5 (master_write_set s) /\
    (5 ∉ master_read_set s') /\
    (5 ∉ master_write_set s') /\
    clients s' !! 1%nat = Some c' /\
    Client.fd c' = -1 /\
    WriteBuffer.size (Client.write_buf c') = 0 /\
    WriteBuffer.offset (Client.write_buf c') = 0 /\
    (forall j, j <> 1%nat -> clients s' !! j = clients s !! j) /\
    max_fd s' = max_fd s /\
    close_client s' 1 [] = Ok s' [] [] /\
    (close_client s 1 ≫= fun s1 => close_client s1 1) [] = close_client s 1 [].
Proof.
  intros c s.
  apply (close_client_releases_slot_and_is_idempotent s 1 c []); [reflexivity|simpl; lia].
Defined.

(** ** The write buffer: flush *)

Lemma errno_is_would_block (e : Errno) :
  errno_is (Some e) EAGAIN || errno_is (Some e) EWOULDBLOCK = true <-> would_block e.
Proof. unfold would_block. destruct e; cbv; intuition congruence. Qed.

Lemma take_region_app (l : list byte) (pos a b len : nat) :
  (a <= len)%nat ->
  take a (take len (drop pos l)) ++ take b (drop (pos + a) l) = take (a + b) (drop pos l).
Proof.
  intros Ha. rewrite take_take, Nat.min_l by done.
  by rewrite <- drop_drop, take_take_drop.
Qed.

Lemma transmitted_cons (fd : Z) (ev : Event) (out : list Event) :
  transmitted fd (ev :: out) = sent_of fd ev ++ transmitted fd out.
Proof. reflexivity. Qed.

Lemma transmitted_app (fd : Z) (o1 o2 : list Event) :
  transmitted fd (o1 ++ o2) = transmitted fd o1 ++ transmitted fd o2.
Proof. unfold transmitted. by rewrite map_app, concat_app. Qed.

Lemma received_app (fd : Z) (o1 o2 : list Event) :
  received fd (o1 ++ o2) = received fd o1 ++ received fd o2.
Proof. unfold received. by rewrite map_app, concat_app. Qed.

Lemma sent_total_app (fd : Z) (o1 o2 : list Event) :
  sent_total fd (o1 ++ o2) = sent_total fd o1 + sent_total fd o2.
Proof. induction o1 as [|ev o1 IH]; simpl; [done|]. rewrite IH. lia. Qed.

Lemma write_buffer_flush_drained (buf : WriteBuffer) (fd : Z) (rs : list Reply) :
  WriteBuffer.size buf <= WriteBuffer.offset buf ->
  write_buffer_flush buf fd rs = Ok (0, WriteBuffer.mk (WriteBuffer.data buf) 0 0) [] rs.
Proof.
  intros Hge. apply Z.ltb_ge in Hge. destruct rs; simpl; by rewrite Hge.
Qed.

(** Every run of the flush that returns is one of three: drained, stopped by
    a would-block error, stopped by another error. [sent_total] bytes of the
    pending region went out, in order, and nothing else did. *)
Lemma write_buffer_flush_cases (rs : list Reply) :
  forall (buf : WriteBuffer) (fd : Z) res buf' out rs',
  0 <= WriteBuffer.offset buf <= WriteBuffer.size buf ->
  WriteBuffer.size buf < 2 ^ 63 ->
  write_buffer_flush buf fd rs = Ok (res, buf') out rs' ->
  let n := sent_total fd out in
  WriteBuffer.data buf' = WriteBuffer.data buf /\
  0 <= n <= WriteBuffer.size buf - WriteBuffer.offset buf /\
  transmitted fd out = region buf (WriteBuffer.offset buf) n /\
  (forall fd', fd' <> fd -> transmitted fd' out = []) /\
  (forall fd', received fd' out = []) /\
  ((res = 0 /\ n = WriteBuffer.size buf - WriteBuffer.offset buf /\
    WriteBuffer.size buf' = 0 /\ WriteBuffer.offset buf' = 0 /\
    exists ks, rs = (send_room <$> ks) ++ rs') \/
   (res = 1 /\ WriteBuffer.size buf' = WriteBuffer.size buf /\
    WriteBuffer.offset buf' = WriteBuffer.offset buf + n /\
    WriteBuffer.offset buf' < WriteBuffer.size buf' /\
    exists ks e, rs = (send_room <$> ks) ++ err e :: rs' /\ would_block e) \/
   (res = -1 /\ WriteBuffer.size buf' = WriteBuffer.size buf /\
    WriteBuffer.offset buf' = WriteBuffer.offset buf + n /\
    WriteBuffer.offset buf' < WriteBuffer.size buf' /\
    exists ks e, rs = (send_room <$> ks) ++ err e :: rs' /\ ~ would_block e)).
Proof.
  assert (Hdrained : forall (buf : WriteBuffer) fd rs res buf' out rs',
    0 <= WriteBuffer.offset buf <= WriteBuffer.size buf ->
    WriteBuffer.size buf <= WriteBuffer.offset buf ->
    write_buffer_flush buf fd rs = Ok (res, buf') out rs' ->
    WriteBuffer.data buf' = WriteBuffer.data buf /\
    0 <= sent_total fd out <= WriteBuffer.size buf - WriteBuffer.offset buf /\
    transmitted fd out = region buf (WriteBuffer.offset buf) (sent_total fd out) /\
    (forall fd', fd' <> fd -> transmitted fd' out = []) /\
    (forall fd', received fd' out = []) /\
    res = 0 /\ sent_total fd out = WriteBuffer.size buf - WriteBuffer.offset buf /\
    WriteBuffer.size buf' = 0 /\ WriteBuffer.offset buf' = 0 /\
    exists ks, rs = (send_room <$> ks) ++ rs').
  { intros buf fd rs0 res buf' out rs' Hos Hge Hrun.
    rewrite write_buffer_flush_drained in Hrun by done. simplify_eq. simpl.
    split_and!; try done; try lia. by exists []. }
  induction rs as [|r rs IH]; intros buf fd res buf' out rs' Hos Hsz Hrun.
  - destruct (Z.le_gt_cases (WriteBuffer.size buf) (WriteBuffer.offset buf)) as [Hge|Hlt].
    + destruct (Hdrained _ _ _ _ _ _ _ Hos Hge Hrun) as (?&?&?&?&?&?&?&?&?&?).
      cbv zeta. split_and!; try done; try lia. left. by split_and!.
    + simpl in Hrun. apply Z.ltb_lt in Hlt. by rewrite Hlt in Hrun.
  - destruct (Z.le_gt_cases (WriteBuffer.size buf) (WriteBuffer.offset buf)) as [Hge|Hlt].
    { destruct (Hdrained _ _ _ _ _ _ _ Hos Hge Hrun) as (?&?&?&?&?&?&?&?&?&?).
      cbv zeta. split_and!; try done; try lia. left. by split_and!. }
    simpl in Hrun. pose proof Hlt as Hlt'. apply Z.ltb_lt in Hlt'. rewrite Hlt' in Hrun.
    clear Hlt'.
    rewrite (size_t_small (WriteBuffer.size buf - WriteBuffer.offset buf)) in Hrun by lia.
    destruct r as [v|e|bs|k|rd wr|cfd addr port]; simpl in Hrun; try done.
    + (* the send fails *)
      destruct (errno_is (Some e) EAGAIN || errno_is (Some e) EWOULDBLOCK) eqn:He;
        simplify_eq; simpl; rewrite bool_decide_eq_true_2 by done; simpl.
      * apply errno_is_would_block in He.
        split_and!; try done; try lia.
        -- unfold transmitted, region. simpl. by rewrite bool_decide_eq_true_2.
        -- intros fd' Hfd'. unfold transmitted. simpl. by rewrite bool_decide_eq_false_2.
        -- right; left. split_and!; try done; try lia. by exists [], e.
      * assert (~ would_block e) as Hnb.
        { intros Hwb. apply errno_is_would_block in Hwb. congruence. }
        split_and!; try done; try lia.
        -- unfold transmitted, region. simpl. by rewrite bool_decide_eq_true_2.
        -- intros fd' Hfd'. unfold transmitted. simpl. by rewrite bool_decide_eq_false_2.
        -- right; right. split_and!; try done; try lia. by exists [], e.
    + (* the send takes [sent >= 1] bytes *)
      set (len := WriteBuffer.size buf - WriteBuffer.offset buf) in *.
      set (sent := Z.min (Z.pos k) len) in *.
      assert (1 <= sent <= len) as Hsent by (unfold sent; lia).
      destruct (sent <? 0) eqn:Hneg; [lia|].
      rewrite (size_t_small (WriteBuffer.offset buf + sent)) in Hrun by lia.
      apply emit_Ok_inv in Hrun as (out' & Hrun & ->).
      apply IH in Hrun as (Hdata & Hn & Htx & Hoth & Hrx & Hcase); simpl in *; [|lia..].
      rewrite bool_decide_eq_true_2 by done.
      set (n := sent_total fd out') in *.
      rewrite Z.max_r by lia.
      split; [done|]. split; [lia|]. split.
      { rewrite transmitted_cons. simpl. rewrite bool_decide_eq_true_2 by done.
        rewrite Htx. unfold pending, region. simpl.
        rewrite size_t_small by (fold len; lia). fold len.
        replace (Z.to_nat (WriteBuffer.offset buf + sent))
          with (Z.to_nat (WriteBuffer.offset buf) + Z.to_nat sent)%nat by lia.
        rewrite take_region_app by lia. f_equal. lia. }
      split.
      { intros fd' Hfd'. rewrite transmitted_cons. simpl.
        rewrite bool_decide_eq_false_2 by done. by apply Hoth. }
      split; [intros fd'; apply (Hrx fd')|].
      destruct Hcase as [(-> & Hn' & Hs & Ho & ks & ->)
                        |[(-> & Hs & Ho & Hlt' & ks & e & -> & He)
                         |(-> & Hs & Ho & Hlt' & ks & e & -> & He)]].
      * left. split_and!; try done; try lia. by exists (k :: ks).
      * right; left. split_and!; try done; try lia. by exists (k :: ks), e.
      * right; right. split_and!; try done; try lia. by exists (k :: ks), e.
Qed.

(** The flush returns as soon as the kernel has answered enough [send]s:
    one failure, or as many successes as there are bytes pending. *)
Lemma write_buffer_flush_returns (pre : list Reply) :
  forall (buf : WriteBuffer) (fd : Z) (rest : list Reply),
  0 <= WriteBuffer.offset buf <= WriteBuffer.size buf ->
  WriteBuffer.size buf < 2 ^ 63 ->
  Forall (fun r => is_send_reply r = true) pre ->
  (WriteBuffer.size buf - WriteBuffer.offset buf <= Z.of_nat (length pre) \/
   Exists (fun r => is_err r = true) pre) ->
  exists r out rs', write_buffer_flush buf fd (pre ++ rest) = Ok r out rs'.
Proof.
  induction pre as [|r pre IH]; intros buf fd rest Hos Hsz Hall Hfed.
  - assert (WriteBuffer.size buf <= WriteBuffer.offset buf) as Hge.
    { destruct Hfed as [Hlen|Hex]; [simpl in Hlen; lia|by apply Exists_nil in Hex]. }
    rewrite write_buffer_flush_drained by done. eauto.
  - destruct (Z.le_gt_cases (WriteBuffer.size buf) (WriteBuffer.offset buf)) as [Hge|Hlt].
    { rewrite write_buffer_flush_drained by done. eauto. }
    apply Forall_cons in Hall as [Hr Hall].
    simpl. pose proof Hlt as Hlt'. apply Z.ltb_lt in Hlt'. rewrite Hlt'. clear Hlt'.
    rewrite (size_t_small (WriteBuffer.size buf - WriteBuffer.offset buf)) by lia.
    destruct r as [v|e|bs|k|rd wr|cfd addr port]; simpl in Hr; try done; simpl.
    + destruct (errno_is (Some e) EAGAIN || errno_is (Some e) EWOULDBLOCK); eauto.
    + set (len := WriteBuffer.size buf - WriteBuffer.offset buf) in *.
      set (sent := Z.min (Z.pos k) len) in *.
      assert (1 <= sent <= len) as Hsent by (unfold sent; lia).
      destruct (sent <? 0) eqn:Hneg; [lia|].
      rewrite (size_t_small (WriteBuffer.offset buf + sent)) by lia.
      edestruct (IH (WriteBuffer.mk (WriteBuffer.data buf) (WriteBuffer.size buf)
                                    (WriteBuffer.offset buf + sent)) fd rest)
        as (r & out & rs' & ->); simpl; try lia; try done.
      * destruct Hfed as [Hlen|Hex].
        -- left. simpl in Hlen. lia.
        -- right. apply Exists_cons in Hex as [Hex|Hex]; [done|exact Hex].
      * simpl. eauto.
Qed.

Lemma room_nonneg (ks : list positive) : 0 <= room ks.
Proof. induction ks; simpl; lia. Qed.

(** Successful sends that do not drain the buffer, then a failure: the
    flush stops at the failure with [offset] advanced by what was sent. *)
Lemma write_buffer_flush_stopped (ks : list positive) :
  forall (buf : WriteBuffer) (fd : Z) (e : Errno) (rest : list Reply),
  0 <= WriteBuffer.offset buf <= WriteBuffer.size buf ->
  WriteBuffer.size buf < 2 ^ 63 ->
  room ks < WriteBuffer.size buf - WriteBuffer.offset buf ->
  exists out,
    write_buffer_flush buf fd ((send_room <$> ks) ++ err e :: rest) =
      Ok (if errno_is (Some e) EAGAIN || errno_is (Some e) EWOULDBLOCK then 1 else -1,
          WriteBuffer.mk (WriteBuffer.data buf) (WriteBuffer.size buf)
                         (WriteBuffer.offset buf + room ks))
         out rest /\
    sent_total fd out = room ks /\
    transmitted fd out = region buf (WriteBuffer.offset buf) (room ks).
Proof.
  induction ks as [|k ks IH]; intros buf fd e rest Hos Hsz Hroom; simpl in Hroom;
    [|fold (room ks) in *; pose proof (room_nonneg ks)].
  - simpl. assert ((WriteBuffer.offset buf <? WriteBuffer.size buf) = true) as ->
      by (apply Z.ltb_lt; lia).
    rewrite Z.add_0_r.
    destruct (errno_is (Some e) EAGAIN || errno_is (Some e) EWOULDBLOCK);
      (eexists; split; [by destruct buf|]); simpl;
      rewrite bool_decide_eq_true_2 by done; unfold transmitted, region; simpl;
      by rewrite bool_decide_eq_true_2.
  - assert (WriteBuffer.offset buf < WriteBuffer.size buf) as Hlt by lia.
    simpl. pose proof Hlt as Hlt'. apply Z.ltb_lt in Hlt'. rewrite Hlt'. clear Hlt'.
    fold (room ks) in *.
    rewrite (size_t_small (WriteBuffer.size buf - WriteBuffer.offset buf)) by lia.
    rewrite Z.min_l by lia.
    destruct (Z.pos k <? 0) eqn:Hneg; [lia|].
    rewrite (size_t_small (WriteBuffer.offset buf + Z.pos k)) by lia.
    change (list_fmap _ _ send_room ks) with (send_room <$> ks).
    destruct (IH (WriteBuffer.mk (WriteBuffer.data buf) (WriteBuffer.size buf)
                                 (WriteBuffer.offset buf + Z.pos k)) fd e rest)
      as (out & -> & Hn & Htx); simpl; try lia.
    simpl in Hn, Htx.
    eexists. split; [simpl; do 3 f_equal; lia|]. split.
    + simpl. rewrite bool_decide_eq_true_2 by done. lia.
    + rewrite transmitted_cons, Htx. simpl. rewrite bool_decide_eq_true_2 by done.
      unfold pending, region. simpl.
      rewrite size_t_small by lia.
      replace (Z.to_nat (WriteBuffer.offset buf + Z.pos k))
        with (Z.to_nat (WriteBuffer.offset buf) + Z.to_nat (Z.pos k))%nat by lia.
      rewrite take_region_app by lia. f_equal. lia.
Qed.

(** [handle_client_write] in terms of the outcome of the flush. *)
Lemma handle_client_write_run (s : Server) (i : nat) (c : Client) (rs : list Reply)
    res buf out rs' :
  clients s !! i = Some c -> 0 <= Client.fd c ->
  write_buffer_flush (Client.write_buf c) (Client.fd c) rs = Ok (res, buf) out rs' ->
  handle_client_write s i rs =
  if res =? -1 then
    Ok (with_slot s i (-1) (init_write_buffer buf)
                  (FD_CLR (Client.fd c) (master_read_set s))
                  (FD_CLR (Client.fd c) (master_write_set s)))
       (out ++ [EvLog STDOUT "Closing client fd=%d\n" [Client.fd c]; EvClose (Client.fd c)]) rs'
  else if res =? 0 then
    Ok (with_slot s i (Client.fd c) buf (master_read_set s)
                  (FD_CLR (Client.fd c) (master_write_set s)))
       (out ++ [EvLog STDOUT "Finished sending data to client (fd=%d)\n" [Client.fd c]]) rs'
  else
    Ok (with_slot s i (Client.fd c) buf (master_read_set s) (master_write_set s)) out rs'.
Proof.
  intros Hi Hfd Hrun. unfold handle_client_write. rewrite Hi, run_bind, Hrun.
  cbv beta iota zeta.
  destruct (res =? -1).
  - rewrite (close_client_open _ i (Client.mk (Client.fd c) buf)); simpl; [|..|done].
    + unfold closed, with_slot. simpl. by rewrite list_insert_insert_eq.
    + apply list_lookup_insert_eq. by eapply lookup_lt_Some.
  - destruct (res =? 0); [done|].
    simpl. by rewrite app_nil_r.
Qed.

(** C4. For a slot [i] holding an open connection whose buffer has
    [offset <= size]: the write handler returns as soon as the kernel has
    answered enough sends, and every run of the flush that returns is one of
    three. Drained: every reply read was a successful send, the buffer is
    reset to [size = 0], [offset = 0], the flush returns 0 and the handler
    clears the fd from the master write-set. Would block: the last reply read
    was [EAGAIN]/[EWOULDBLOCK], the flush returns 1 with [offset] advanced by
    exactly the bytes the sends took, and the handler leaves both master sets
    as they were. Other error: the flush returns -1 and the handler closes the
    connection. *)
Theorem flush_outcomes_and_write_handler
    (s : Server) (i : nat) (c : Client) (rs : list Reply) :
  clients s !! i = Some c -> 0 <= Client.fd c ->
  0 <= WriteBuffer.offset (Client.write_buf c) <= WriteBuffer.size (Client.write_buf c) ->
  WriteBuffer.size (Client.write_buf c) <= MAX_PENDING_WRITES ->
  let buf := Client.write_buf c in
  let fd := Client.fd c in
  (forall pre rest, rs = pre ++ rest ->
     Forall (fun r => is_send_reply r = true) pre ->
     WriteBuffer.size buf - WriteBuffer.offset buf <= Z.of_nat (length pre) \/
       Exists (fun r => is_err r = true) pre ->
     exists s' out rs', handle_client_write s i rs = Ok s' out rs') /\
  (forall res buf' out rs',
     write_buffer_flush buf fd rs = Ok (res, buf') out rs' ->
     let n := sent_total fd out in
     WriteBuffer.data buf' = WriteBuffer.data buf /\
     transmitted fd out = region buf (WriteBuffer.offset buf) n /\
     ((res = 0 /\
       (exists ks, rs = (send_room <$> ks) ++ rs') /\
       n = WriteBuffer.size buf - WriteBuffer.offset buf /\
       WriteBuffer.size buf' = 0 /\ WriteBuffer.offset buf' = 0 /\
       handle_client_write s i rs =
         Ok (with_slot s i fd buf' (master_read_set s) (FD_CLR fd (master_write_set s)))
            (out ++ [EvLog STDOUT "Finished sending data to client (fd=%d)\n" [fd]]) rs') \/
      (res = 1 /\
       (exists ks e, rs = (send_room <$> ks) ++ err e :: rs' /\ would_block e) /\
       WriteBuffer.size buf' = WriteBuffer.size buf /\
       WriteBuffer.offset buf' = WriteBuffer.offset buf + n /\
       WriteBuffer.offset buf' < WriteBuffer.size buf' /\
       handle_client_write s i rs =
         Ok (with_slot s i fd buf' (master_read_set s) (master_write_set s)) out rs') \/
      (res = -1 /\
       (exists ks e, rs = (send_room <$> ks) ++ err e :: rs' /\ ~ would_block e) /\
       handle_client_write s i rs =
         Ok (with_slot s i (-1) (init_write_buffer buf')
                       (FD_CLR fd (master_read_set s)) (FD_CLR fd (master_write_set s)))
            (out ++ [EvLog STDOUT "Closing client fd=%d\n" [fd]; EvClose fd]) rs'))).
Proof.
  intros Hi Hfd Hos Hsz buf fd. unfold MAX_PENDING_WRITES in Hsz.
  assert (WriteBuffer.size buf < 2 ^ 63) as Hsz' by (unfold buf; lia).
  split.
  - intros pre rest -> Hall Hfed.
    destruct (write_buffer_flush_returns pre buf fd rest Hos Hsz' Hall Hfed)
      as ([res buf'] & out & rs' & Hrun).
    rewrite (handle_client_write_run s i c _ res buf' out rs' Hi Hfd Hrun).
    destruct (res =? -1); [eauto|]. destruct (res =? 0); eauto.
  - intros res buf' out rs' Hrun n.
    pose proof (handle_client_write_run s i c rs res buf' out rs' Hi Hfd Hrun) as Hh.
    destruct (write_buffer_flush_cases rs buf fd res buf' out rs' Hos Hsz' Hrun)
      as (Hdata & Hn & Htx & _ & _ & Hcase).
    split; [done|]. split; [done|].
    destruct Hcase as [(-> & Hn' & Hs & Ho & Hks)
                      |[(-> & Hs & Ho & Hlt & Hks)|(-> & Hs & Ho & Hlt & Hks)]].
    + left. by split_and!.
    + right; left. by split_and!.
    + right; right. by split_and!.
Qed.

Lemma flush_outcomes_and_write_handler_witness :
  let buf := WriteBuffer.mk [x61; x62; x63; x64] 4 1 in
  let s := mkServer [Client.mk 5 buf] {[3; 5]} {[5]} 5 in
  handle_client_write s 0 [send_room 2; err EAGAIN; send_room 7] =
    Ok (with_slot s 0 5 (WriteBuffer.mk [x61; x62; x63; x64] 4 3) (master_read_set s)
                  (master_write_set s))
       [EvSend 5 [x62; x63; x64] 2; EvSend 5 [x64] (-1)] [send_room 7].
Proof.
  intros buf s.
  destruct (flush_outcomes_and_write_handler s 0 (Client.mk 5 buf)
              [send_room 2; err EAGAIN; send_room 7]) as [_ Hcases].
  - reflexivity.
  - simpl. lia.
  - simpl. lia.
  - unfold MAX_PENDING_WRITES. simpl. lia.
  - destruct (Hcases 1 (WriteBuffer.mk [x61; x62; x63; x64] 4 3)
                [EvSend 5 [x62; x63; x64] 2; EvSend 5 [x64] (-1)] [send_room 7] eq_refl)
      as (_ & _ & [(Hres & _)|[(_ & _ & _ & _ & _ & Hrun)|(Hres & _)]]).
    + discriminate Hres.
    + exact Hrun.
    + discriminate Hres.
Defined.

(** C10. When a send fails with an error other than
    [EAGAIN]/[EWOULDBLOCK] after earlier sends of the same flush took
    [room ks] bytes without draining the buffer, the flush returns -1 and
    leaves [size] as it was and [offset] advanced by exactly those bytes:
    nothing is reset on the error path. The reset happens afterwards, when
    the write handler closes the connection. *)
Theorem flush_error_keeps_partial_progress
    (s : Server) (i : nat) (c : Client) (ks : list positive) (e : Errno) (rest : list Reply) :
  clients s !! i = Some c -> 0 <= Client.fd c ->
  0 <= WriteBuffer.offset (Client.write_buf c) <= WriteBuffer.size (Client.write_buf c) ->
  WriteBuffer.size (Client.write_buf c) <= MAX_PENDING_WRITES ->
  room ks < WriteBuffer.size (Client.write_buf c) - WriteBuffer.offset (Client.write_buf c) ->
  ~ would_block e ->
  let buf := Client.write_buf c in
  let fd := Client.fd c in
  let rs := (send_room <$> ks) ++ err e :: rest in
  let buf' := WriteBuffer.mk (WriteBuffer.data buf) (WriteBuffer.size buf)
                             (WriteBuffer.offset buf + room ks) in
  exists out s',
    write_buffer_flush buf fd rs = Ok (-1, buf') out rest /\
    sent_total fd out = room ks /\
    transmitted fd out = region buf (WriteBuffer.offset buf) (room ks) /\
    WriteBuffer.offset buf' < WriteBuffer.size buf' /\
    write_buffer_empty buf' = false /\
    handle_client_write s i rs =
      Ok s' (out ++ [EvLog STDOUT "Closing client fd=%d\n" [fd]; EvClose fd]) rest /\
    clients s' !! i = Some (Client.mk (-1) (WriteBuffer.mk (WriteBuffer.data buf) 0 0)).
Proof.
  intros Hi Hfd Hos Hsz Hroom Hnb buf fd rs buf'. unfold MAX_PENDING_WRITES in Hsz.
  destruct (write_buffer_flush_stopped ks buf fd e rest) as (out & Hrun & Hn & Htx);
    [done|unfold buf; lia|done|].
  assert (errno_is (Some e) EAGAIN || errno_is (Some e) EWOULDBLOCK = false) as He.
  { destruct (errno_is (Some e) EAGAIN || errno_is (Some e) EWOULDBLOCK) eqn:He; [|done].
    by apply errno_is_would_block in He. }
  rewrite He in Hrun.
  eexists out, _. split; [exact Hrun|]. split; [done|]. split; [done|].
  split; [unfold buf', buf; simpl; lia|]. split.
  { unfold write_buffer_empty, buf', buf. simpl. rewrite Z.geb_leb. apply Z.leb_gt. lia. }
  split.
  - by rewrite (handle_client_write_run s i c rs (-1) buf' out rest Hi Hfd Hrun).
  - simpl. apply list_lookup_insert_eq. by eapply lookup_lt_Some.
Qed.

Lemma flush_error_keeps_partial_progress_witness :
  let buf := WriteBuffer.mk [x61; x62; x63; x64] 4 1 in
  let s := mkServer [Client.mk 5 buf] {[3; 5]} {[5]} 5 in
  let rs := [send_room 2; err ECONNRESET] in
  exists out s',
    write_buffer_flush buf 5 rs = Ok (-1, WriteBuffer.mk [x61; x62; x63; x64] 4 3) out [] /\
    sent_total 5 out = 2 /\
    transmitted 5 out = [x62; x63] /\
    3 < 4 /\
    write_buffer_empty (WriteBuffer.mk [x61; x62; x63; x64] 4 3) = false /\
    handle_client_write s 0 rs =
      Ok s' (out ++ [EvLog STDOUT "Closing client fd=%d\n" [5]; EvClose 5]) [] /\
    clients s' !! 0%nat = Some (Client.mk (-1) (WriteBuffer.mk [x61; x62; x63; x64] 0 0)).
Proof.
  intros buf s rs.
  apply (flush_error_keeps_partial_progress s 0 (Client.mk 5 buf) [2%positive] ECONNRESET []).
  - reflexivity.
  - simpl. lia.
  - simpl. lia.
  - unfold MAX_PENDING_WRITES. simpl. lia.
  - simpl. lia.
  - unfold would_block. intros [H|H]; discriminate H.
Defined.

(** ** The read handler *)

(** The append makes no system call; when it refuses it logs one line and
    leaves the buffer as it was. *)
Lemma write_buffer_append_total (buf : WriteBuffer) (data : list byte) (rs : list Reply) :
  exists appended buf' out,
    write_buffer_append buf data rs = Ok (appended, buf') out rs /\
    if appended then out = []
    else buf' = buf /\
         out = [EvLog STDERR "Write buffer full, cannot append %zu bytes\n"
                      [Z.of_nat (length data)]].
Proof.
  unfold write_buffer_append.
  destruct (size_t _ >? MAX_PENDING_WRITES).
  - by eexists false, buf, _.
  - by eexists true, _, _.
Qed.

Lemma client_eta (c : Client) : Client.mk (Client.fd c) (Client.write_buf c) = c.
Proof. by destruct c. Qed.

Lemma set_write_buf_same (s : Server) (i : nat) (c : Client) :
  clients s !! i = Some c -> set_write_buf s i c (Client.write_buf c) = s.
Proof.
  intros Hi. unfold set_write_buf. rewrite client_eta, list_insert_id by done.
  by destruct s.
Qed.


(** ** The acceptor *)


Lemma count_app (p : Event -> bool) (o1 o2 : list Event) :
  count p (o1 ++ o2) = (count p o1 + count p o2)%nat.
Proof. unfold count. by rewrite List.filter_app, length_app. Qed.

Lemma count_cons (p : Event -> bool) (ev : Event) (out : list Event) :
  count p (ev :: out) = ((if p ev then 1 else 0) + count p out)%nat.
Proof. unfold count. simpl. by destruct (p ev). Qed.

Lemma count_nil (p : Event -> bool) : count p [] = 0%nat.
Proof. reflexivity. Qed.

(** Count through the structure of an event list. *)
Ltac count_simpl :=
  repeat first [ rewrite count_app | rewrite count_cons | rewrite count_nil ].

Lemma count_none (p : Event -> bool) (out : list Event) :
  Forall (fun ev => p ev = false) out -> count p out = 0%nat.
Proof.
  unfold count. induction 1 as [|ev out Hev _ IH]; simpl; [done|]. by rewrite Hev.
Qed.


(** The slot search finds the first slot with a negative [fd]. *)
Lemma find_slot_from (suf : list Client) :
  forall (pre : list Client) (client_fd : Z),
  find_slot (pre ++ suf) client_fd (length pre) (length suf) =
  match list_find (fun c => Client.fd c < 0) suf with
  | Some (j, c) =>
      Some (<[(length pre + j)%nat :=
                Client.mk client_fd (init_write_buffer (Client.write_buf c))]> (pre ++ suf), true)
  | None => Some (pre ++ suf, false)
  end.
Proof.
  induction suf as [|c suf IH]; intros pre client_fd; [done|].
  cbn [length find_slot]. rewrite list_lookup_middle by done.
  cbn [list_find]. destruct (Client.fd c <? 0) eqn:Hc.
  - apply Z.ltb_lt in Hc. rewrite decide_True by done. by rewrite Nat.add_0_r.
  - apply Z.ltb_ge in Hc. rewrite decide_False by lia.
    specialize (IH (pre ++ [c]) client_fd).
    rewrite <- app_assoc, length_app in IH. simpl in IH.
    rewrite Nat.add_1_r in IH. rewrite IH.
    destruct (list_find _ suf) as [[j c']|]; simpl; [|done].
    do 3 f_equal. lia.
Qed.

Lemma list_find_ext_in {A} (P Q : A -> Prop) `{!forall x, Decision (P x)}
    `{!forall x, Decision (Q x)} (l : list A) :
  (forall x, x ∈ l -> P x <-> Q x) -> list_find P l = list_find Q l.
Proof.
  induction l as [|x l IH]; intros Hext; [done|]. simpl.
  assert (P x <-> Q x) as Hx by (apply Hext; left).
  destruct (decide (P x)), (decide (Q x)); try tauto; try done.
  rewrite IH; [done|]. intros y Hy. apply Hext. by right.
Qed.

Lemma find_slot_first_free (cl : list Client) (client_fd : Z) :
  slots_wf cl ->
  find_slot cl client_fd 0 (length cl) =
  match first_free cl with
  | Some (j, c) =>
      Some (<[j := Client.mk client_fd (init_write_buffer (Client.write_buf c))]> cl, true)
  | None => Some (cl, false)
  end.
Proof.
  intros Hwf. pose proof (find_slot_from cl [] client_fd) as Hfind.
  simpl in Hfind. rewrite Hfind. unfold first_free.
  rewrite (list_find_ext_in (fun c => Client.fd c < 0) (fun c => Client.fd c = -1)); [done|].
  intros c Hc. destruct (Hwf c Hc); lia.
Qed.

Lemma set_nonblocking_ok (fd : Z) (f1 f2 : nat) (rest : list Reply) :
  set_nonblocking fd (ok f1 :: ok f2 :: rest) =
  Ok 0 [EvSys "fcntl" [fd; F_GETFL; 0] (Z.of_nat f1);
        EvSys "fcntl" [fd; F_SETFL; Z.lor (Z.of_nat f1) O_NONBLOCK] (Z.of_nat f2)] rest.
Proof.
  unfold set_nonblocking. rewrite run_bind. simpl.
  destruct (Z.of_nat f1 =? -1) eqn:Hv; [apply Z.eqb_eq in Hv; lia|].
  rewrite run_bind. simpl.
  destruct (Z.of_nat f2 =? -1) eqn:Hv'; [apply Z.eqb_eq in Hv'; lia|]. done.
Qed.



Lemma elem_of_FD_SET_same (FD_SETSIZE : nat) (fd : Z) (set : gset Z) :
  0 <= fd < Z.of_nat FD_SETSIZE -> fd ∈ FD_SET FD_SETSIZE fd set.
Proof.
  intros Hfd. unfold FD_SET. rewrite bool_decide_eq_true_2 by done.
  apply elem_of_union_l. by apply elem_of_singleton.
Qed.

Lemma not_elem_of_FD_CLR_same (fd : Z) (set : gset Z) : fd ∉ FD_CLR fd set.
Proof. unfold FD_CLR. rewrite elem_of_difference, elem_of_singleton. tauto. Qed.



(** ** The event loop: failures of the wait *)

Lemma run_bind_Ok_inv {A B} (m : M A) (f : A -> M B) (rs : list Reply) b out rs' :
  (m ≫= f) rs = Ok b out rs' ->
  exists a o1 rs1 o2, m rs = Ok a o1 rs1 /\ f a rs1 = Ok b o2 rs' /\ out = o1 ++ o2.
Proof.
  rewrite run_bind. destruct (m rs) as [a o1 rs1| |]; [|done..].
  intros Hrun. apply emit_Ok_inv in Hrun as (o2 & Hf & ->). by exists a, o1, rs1, o2.
Qed.

Lemma loop_iteration_select_err (FD_SETSIZE : nat) (server_fd : Z) (s : Server)
    (e : Errno) (rest : list Reply) :
  loop_iteration FD_SETSIZE server_fd s (err e :: rest) =
  let ev := EvSelect (max_fd s + 1) (master_read_set s) (master_write_set s) (-1) in
  if bool_decide (e = EINTR) then Ok (inl s) [ev] rest
  else Ok (inr (-1)) [ev; EvLog STDERR "select" []] rest.
Proof.
  unfold loop_iteration. rewrite run_bind. simpl.
  by destruct e.
Qed.

(** The loop is left only through [return -1]. *)
Lemma loop_iteration_returns (FD_SETSIZE : nat) (server_fd : Z) (s : Server)
    (rs : list Reply) v out rs' :
  loop_iteration FD_SETSIZE server_fd s rs = Ok (inr v) out rs' ->
  v = -1 /\ exists e, rs = err e :: rs' /\ e <> EINTR.
Proof.
  destruct rs as [|r rs]; [done|].
  destruct r as [n|e|bs|k|rd wr|cfd addr port]; try done.
  - rewrite loop_iteration_select_err. simpl.
    case_bool_decide; intros Hrun; simplify_eq. eauto.
  - unfold loop_iteration. rewrite run_bind. simpl.
    destruct (Z.of_nat _ <? 0) eqn:Hneg; [apply Z.ltb_lt in Hneg; lia|].
    intros Hrun. apply emit_Ok_inv in Hrun as (o & Hrun & _).
    apply run_bind_Ok_inv in Hrun as (s1 & o1 & rs1 & o2 & _ & Hrun & _).
    apply run_bind_Ok_inv in Hrun as (s2 & o3 & rs2 & o4 & _ & Hrun & _).
    rewrite run_ret in Hrun. by simplify_eq.
Qed.

Lemma event_loop_returns (FD_SETSIZE : nat) (server_fd : Z) (fuel : nat) :
  forall (s : Server) (rs : list Reply) v out rs',
  event_loop FD_SETSIZE fuel server_fd s rs = Ok v out rs' -> v = -1.
Proof.
  induction fuel as [|fuel IH]; intros s rs v out rs' Hrun; [done|].
  simpl in Hrun. apply run_bind_Ok_inv in Hrun as ([s1|v1] & o1 & rs1 & o2 & Hit & Hrun & _).
  - by eapply IH.
  - rewrite run_ret in Hrun. simplify_eq. by apply loop_iteration_returns in Hit as [-> _].
Qed.

Lemma create_server_hello_socket_ok (port : Z) (sfd f1 f2 o1 o2 o3 : nat) (rest : list Reply) :
  exists out,
    create_server_hello_socket port (ok sfd :: ok f1 :: ok f2 :: ok o1 :: ok o2 :: ok o3 :: rest) =
    Ok (Z.of_nat sfd) out rest.
Proof.
  unfold create_server_hello_socket. rewrite run_bind. simpl.
  destruct (Z.of_nat sfd <? 0) eqn:Hneg; [apply Z.ltb_lt in Hneg; lia|].
  rewrite run_bind, run_ret. simpl. rewrite run_bind, set_nonblocking_ok. simpl.
  rewrite run_bind, run_ret. simpl. rewrite run_bind. simpl.
  destruct (Z.of_nat o1 =? -1) eqn:H1; [apply Z.eqb_eq in H1; lia|].
  rewrite run_bind, run_ret. simpl. rewrite run_bind. simpl.
  destruct (Z.of_nat o2 =? -1) eqn:H2; [apply Z.eqb_eq in H2; lia|].
  rewrite run_bind, run_ret. simpl. rewrite run_bind. simpl.
  destruct (Z.of_nat o3 =? -1) eqn:H3; [apply Z.eqb_eq in H3; lia|].
  rewrite run_bind, run_ret. cbn [emit app]. rewrite run_printf, run_ret. simpl. eauto.
Qed.

Lemma main_returns (FD_SETSIZE fuel : nat) (stack : list Client) (rs : list Reply) v out rs' :
  main FD_SETSIZE fuel stack rs = Ok v out rs' -> v = -1.
Proof.
  unfold main. intros Hrun.
  apply run_bind_Ok_inv in Hrun as (sfd & o1 & rs1 & o2 & _ & Hrun & _).
  apply run_bind_Ok_inv in Hrun as (result & o3 & rs2 & o4 & Hloop & Hrun & _).
  rewrite run_sys_close, run_ret in Hrun. simpl in Hrun. simplify_eq.
  unfold run_server_with_select in Hloop. rewrite run_printf in Hloop.
  apply emit_Ok_inv in Hloop as (o & Hloop & _).
  by eapply event_loop_returns.
Qed.

(** C9. When the wait fails with [EINTR] the turn of the loop ends with
    the state as it was (slots, buffers, master sets, [max_fd]) and the loop
    goes on to its next turn; when it fails with any other error the loop
    returns -1. [main] returns what the loop returns, so whenever [main]
    returns, it returns -1 and the exit status is 255, not 0. *)
Theorem wait_failure_resumes_or_is_fatal
    (FD_SETSIZE : nat) (server_fd : Z) (s : Server) (e : Errno) (rest : list Reply)
    (fuel : nat) (stack : list Client) :
  let ev := EvSelect (max_fd s + 1) (master_read_set s) (master_write_set s) (-1) in
  loop_iteration FD_SETSIZE server_fd s (err e :: rest) =
    (if bool_decide (e = EINTR) then Ok (inl s) [ev] rest
     else Ok (inr (-1)) [ev; EvLog STDERR "select" []] rest) /\
  event_loop FD_SETSIZE (S fuel) server_fd s (err e :: rest) =
    (if bool_decide (e = EINTR) then emit [ev] (event_loop FD_SETSIZE fuel server_fd s rest)
     else Ok (-1) [ev; EvLog STDERR "select" []] rest) /\
  (forall rs v out rs',
     main FD_SETSIZE fuel stack rs = Ok v out rs' ->
     v = -1 /\ exit_status (main FD_SETSIZE fuel stack rs) = Some 255) /\
  (forall sfd f1 f2 o1 o2 o3 : nat,
     if bool_decide (e = EINTR) then True
     else
       let rs := ok sfd :: ok f1 :: ok f2 :: ok o1 :: ok o2 :: ok o3 :: err e :: rest in
       exists out,
         main FD_SETSIZE (S fuel) stack rs = Ok (-1) out rest /\
         last out = Some (EvClose (Z.of_nat sfd)) /\
         exit_status (main FD_SETSIZE (S fuel) stack rs) = Some 255).
Proof.
  intros ev.
  pose proof (loop_iteration_select_err FD_SETSIZE server_fd s e rest) as Hit.
  cbv zeta in Hit. fold ev in Hit.
  split; [exact Hit|]. split; [|split].
  - cbn [event_loop]. rewrite run_bind, Hit.
    by case_bool_decide.
  - intros rs v out rs' Hrun. pose proof (main_returns _ _ _ _ _ _ _ Hrun) as ->.
    by rewrite Hrun.
  - intros sfd f1 f2 o1 o2 o3. case_bool_decide as He; [done|].
    intros rs. unfold main, rs. rewrite run_bind.
    destruct (create_server_hello_socket_ok PORT sfd f1 f2 o1 o2 o3 (err e :: rest))
      as (out0 & ->).
    rewrite run_bind. unfold run_server_with_select. rewrite run_printf.
    cbn [event_loop]. rewrite run_bind, loop_iteration_select_err.
    cbv zeta. rewrite bool_decide_eq_false_2 by done.
    simpl. eexists. split; [reflexivity|]. split; [|done].
    by rewrite last_app.
Qed.

(** ** What each handler can do to the state *)

(** A run of the read handler on an occupied slot: no change, a close, or
    an accepted append of the bytes received with the fd armed for writing. *)
Lemma handle_client_read_inv {FD_SETSIZE : nat}
    (s : Server) (i : nat) (c : Client) (rs : list Reply)
    s' out rs' :
  clients s !! i = Some c -> 0 <= Client.fd c ->
  handle_client_read FD_SETSIZE s i rs = Ok s' out rs' ->
  (forall fd', transmitted fd' out = []) /\
  (forall fd', fd' <> Client.fd c -> received fd' out = []) /\
  ((s' = s /\ received (Client.fd c) out = []) \/
   s' = closed s i c \/
   (exists buf',
      write_buffer_append (Client.write_buf c) (received (Client.fd c) out) rs' =
        Ok (true, buf') [] rs' /\
      received (Client.fd c) out <> [] /\
      Z.of_nat (length (received (Client.fd c) out)) <= BUFFER_SIZE /\
      s' = with_slot s i (Client.fd c) buf' (master_read_set s)
                     (FD_SET FD_SETSIZE (Client.fd c) (master_write_set s)))).
Proof.
  intros Hi Hfd. unfold handle_client_read. rewrite Hi, run_bind.
  destruct rs as [|r rs]; [done|].
  destruct r as [v|e|bs|k|rd wr|cfd addr port]; simpl; try done.
  - (* the recv fails *)
    destruct (errno_is (Some e) EAGAIN || errno_is (Some e) EWOULDBLOCK).
    + rewrite run_ret. simpl. intros Hrun. simplify_eq.
      unfold received, transmitted. simpl. rewrite bool_decide_eq_true_2 by done.
      split; [done|]. split; [|by left].
      intros fd' Hfd'. by rewrite bool_decide_eq_false_2.
    + run_step. rewrite (close_client_open s i c rs Hi Hfd). simpl.
      intros Hrun. simplify_eq. unfold received, transmitted. simpl.
      split; [done|]. split; [|by right; left].
      intros fd' Hfd'. by rewrite bool_decide_eq_false_2.
  - set (got := take (Z.to_nat BUFFER_SIZE) bs).
    assert (Z.of_nat (length got) <= BUFFER_SIZE) as Hgot.
    { unfold got. rewrite length_take. unfold BUFFER_SIZE. lia. }
    destruct (Z.of_nat (length got) <? 0) eqn:Hneg; [apply Z.ltb_lt in Hneg; lia|].
    destruct (Z.of_nat (length got) =? 0) eqn:Hzero.
    + run_step. rewrite (close_client_open s i c rs Hi Hfd). simpl.
      intros Hrun. simplify_eq. unfold received, transmitted. simpl.
      split; [done|]. split; [|by right; left].
      intros fd' Hfd'. by rewrite bool_decide_eq_false_2.
    + apply Z.eqb_neq in Hzero.
      assert (got <> []) as Hne by (intros Hnil; rewrite Hnil in Hzero; simpl in Hzero; lia).
      run_step. rewrite run_bind.
      destruct (write_buffer_append_total (Client.write_buf c) got rs)
        as (appended & buf' & o & Happ & Ho).
      rewrite Happ. destruct appended; cbv beta iota zeta; cbn [negb].
      * subst o. rewrite run_ret. simpl. intros Hrun. simplify_eq.
        unfold received, transmitted. simpl. rewrite bool_decide_eq_true_2 by done.
        rewrite app_nil_r. split; [done|]. split.
        { intros fd' Hfd'. by rewrite bool_decide_eq_false_2. }
        right; right. exists buf'. by split_and!.
      * destruct Ho as [-> ->]. rewrite set_write_buf_same by done.
        run_step. rewrite (close_client_open s i c rs Hi Hfd). simpl.
        intros Hrun. simplify_eq. unfold received, transmitted. simpl.
        split; [done|]. split; [|by right; left].
        intros fd' Hfd'. by rewrite bool_decide_eq_false_2.
Qed.

(** A run of the write handler on an occupied slot: the buffer drained and
    the fd disarmed, the buffer partly sent, or a close. *)
Lemma handle_client_write_inv (s : Server) (i : nat) (c : Client) (rs : list Reply)
    s' out rs' :
  clients s !! i = Some c -> 0 <= Client.fd c ->
  buffer_bounds (Client.write_buf c) ->
  handle_client_write s i rs = Ok s' out rs' ->
  let buf := Client.write_buf c in
  let fd := Client.fd c in
  (forall fd', received fd' out = []) /\
  (forall fd', fd' <> fd -> transmitted fd' out = []) /\
  exists n,
    0 <= n <= WriteBuffer.size buf - WriteBuffer.offset buf /\
    transmitted fd out = region buf (WriteBuffer.offset buf) n /\
    ((n = WriteBuffer.size buf - WriteBuffer.offset buf /\
      s' = with_slot s i fd (WriteBuffer.mk (WriteBuffer.data buf) 0 0)
                     (master_read_set s) (FD_CLR fd (master_write_set s))) \/
     (n < WriteBuffer.size buf - WriteBuffer.offset buf /\
      s' = with_slot s i fd
             (WriteBuffer.mk (WriteBuffer.data buf) (WriteBuffer.size buf)
                             (WriteBuffer.offset buf + n))
             (master_read_set s) (master_write_set s)) \/
     s' = closed s i c).
Proof.
  intros Hi Hfd [Hos Hsz] Hrun buf fd. unfold MAX_PENDING_WRITES in Hsz.
  destruct (write_buffer_flush buf fd rs) as [[res buf'] o rs1| |] eqn:Hflush.
  2,3: by unfold handle_client_write in Hrun; rewrite Hi, run_bind in Hrun;
          fold buf fd in Hrun; rewrite Hflush in Hrun.
  rewrite (handle_client_write_run s i c rs res buf' o rs1 Hi Hfd Hflush) in Hrun.
  assert (WriteBuffer.size buf < 2 ^ 63) as Hsz' by (unfold buf; lia).
  destruct (write_buffer_flush_cases rs buf fd res buf' o rs1 Hos Hsz' Hflush)
    as (Hdata & Hn & Htx & Hoth & Hrx & Hcase).
  pose proof Hrx as Hrx'.
  destruct Hcase as [(-> & Hn' & Hs & Ho & _)
                    |[(-> & Hs & Ho & Hlt & _)|(-> & Hs & Ho & Hlt & _)]];
    simpl in Hrun; injection Hrun as <- <- <-.
  - split.
    { intros fd'. rewrite received_app, Hrx'. done. }
    split.
    { intros fd' Hfd'. rewrite transmitted_app, Hoth by done. done. }
    exists (sent_total fd o). split; [done|]. split.
    { rewrite transmitted_app, Htx. unfold transmitted. simpl. by rewrite app_nil_r. }
    left. split; [done|]. f_equal. destruct buf'; simpl in *. by subst.
  - split; [done|]. split; [done|].
    exists (sent_total fd o). split; [done|]. split; [done|].
    right; left. split; [lia|]. f_equal. destruct buf'; simpl in *. by subst.
  - split.
    { intros fd'. rewrite received_app, Hrx'. done. }
    split.
    { intros fd' Hfd'. rewrite transmitted_app, Hoth by done. done. }
    exists (sent_total fd o). split; [done|]. split.
    { rewrite transmitted_app, Htx. unfold transmitted. simpl. by rewrite app_nil_r. }
    right; right. unfold closed, with_slot, init_write_buffer. simpl.
    by rewrite Hdata.
Qed.

(** ** [max_fd] *)

Lemma find_slot_shape (cl : list Client) (client_fd : Z) (n : nat) :
  forall i cl' added,
  find_slot cl client_fd i n = Some (cl', added) ->
  (cl' = cl /\ added = false) \/
  (exists j c, cl !! j = Some c /\ Client.fd c < 0 /\ added = true /\
     cl' = <[j := Client.mk client_fd (init_write_buffer (Client.write_buf c))]> cl).
Proof.
  induction n as [|n IH]; intros i cl' added Hfind; simpl in Hfind.
  - simplify_eq. by left.
  - destruct (cl !! i) as [c|] eqn:Hi; [|done].
    destruct (Client.fd c <? 0) eqn:Hc.
    + simplify_eq. right. exists i, c. apply Z.ltb_lt in Hc. by split_and!.
    + by eapply IH.
Qed.

(** The state after any run of the acceptor. *)
Lemma handle_new_connection_shape (FD_SETSIZE : nat) (server_fd : Z) (s : Server)
    (rs : list Reply) s' out rs' :
  handle_new_connection FD_SETSIZE server_fd s rs = Ok s' out rs' ->
  s' = s \/
  exists newfd addr port rs1 cl' added,
    rs = accepted newfd addr port :: rs1 /\
    find_slot (clients s) (Z.of_nat newfd) 0 FD_SETSIZE = Some (cl', added) /\
    s' = mkServer cl'
           (if added then FD_SET FD_SETSIZE (Z.of_nat newfd) (master_read_set s)
            else FD_CLR (Z.of_nat newfd) (FD_SET FD_SETSIZE (Z.of_nat newfd) (master_read_set s)))
           (master_write_set s) (Z.max (max_fd s) (Z.of_nat newfd)).
Proof.
  unfold handle_new_connection. rewrite run_bind.
  destruct rs as [|r rs]; [done|].
  destruct r as [v|e| | | |newfd addr port]; simpl; try done.
  - destruct (negb (errno_is (Some e) EAGAIN) && negb (errno_is (Some e) EWOULDBLOCK));
      simpl; intros Hrun; simplify_eq; by left.
  - destruct (Z.of_nat newfd =? -1) eqn:Hv; [apply Z.eqb_eq in Hv; lia|].
    rewrite run_bind.
    destruct (set_nonblocking (Z.of_nat newfd) rs) as [nb out1 rs2| |]; [|done..].
    simpl. destruct (nb <? 0).
    { repeat run_step. simpl. intros Hrun. simplify_eq. by left. }
    assert ((if Z.of_nat newfd >? max_fd s then Z.of_nat newfd else max_fd s)
            = Z.max (max_fd s) (Z.of_nat newfd))
      as -> by (destruct (Z.of_nat newfd >? max_fd s) eqn:Hgt; lia).
    destruct (find_slot _ _ _ _) as [[cl' added]|] eqn:Hfind; [|done].
    destruct added; simpl; repeat run_step; simpl; intros Hrun; simplify_eq;
      right; by eexists newfd, addr, port, rs, cl', _.
Qed.

Lemma slot_step_refl (s : Server) (i : nat) (c : Client) :
  clients s !! i = Some c -> slot_step s s i c.
Proof. intros Hi. split; [done|]. exists c. split; [by left|]. by rewrite list_insert_id. Qed.

Lemma close_client_shape (s : Server) (i : nat) (c : Client) (rs : list Reply) s' out rs' :
  clients s !! i = Some c ->
  close_client s i rs = Ok s' out rs' -> slot_step s s' i c.
Proof.
  intros Hi. unfold close_client. rewrite Hi.
  destruct (Client.fd c <? 0).
  - rewrite run_ret. intros; simplify_eq. by apply slot_step_refl.
  - repeat run_step. simpl. intros; simplify_eq. split; [done|].
    eexists (Client.mk (-1) _). split; [by right|done].
Qed.

Lemma handle_client_read_shape {FD_SETSIZE : nat}
    (s : Server) (i : nat) (c : Client) (rs : list Reply)
    s' out rs' :
  clients s !! i = Some c -> 0 <= Client.fd c ->
  handle_client_read FD_SETSIZE s i rs = Ok s' out rs' -> slot_step s s' i c.
Proof.
  intros Hi Hfd Hrun.
  destruct (handle_client_read_inv s i c rs s' out rs' Hi Hfd Hrun)
    as (_ & _ & [[-> _]|[->|(buf' & _ & _ & _ & ->)]]).
  - by apply slot_step_refl.
  - split; [done|]. eexists (Client.mk (-1) _). split; [by right|done].
  - split; [done|]. eexists (Client.mk _ _). split; [by left|done].
Qed.

Lemma handle_client_write_shape (s : Server) (i : nat) (c : Client) (rs : list Reply)
    s' out rs' :
  clients s !! i = Some c -> 0 <= Client.fd c ->
  handle_client_write s i rs = Ok s' out rs' -> slot_step s s' i c.
Proof.
  intros Hi Hfd Hrun.
  destruct (write_buffer_flush (Client.write_buf c) (Client.fd c) rs)
    as [[res buf'] o rs1| |] eqn:Hflush.
  2,3: by unfold handle_client_write in Hrun; rewrite Hi, run_bind, Hflush in Hrun.
  rewrite (handle_client_write_run s i c rs res buf' o rs1 Hi Hfd Hflush) in Hrun.
  destruct (res =? -1); [|destruct (res =? 0)]; simplify_eq; (split; [done|]).
  - eexists (Client.mk (-1) _). split; [by right|done].
  - eexists (Client.mk _ _). split; [by left|done].
  - eexists (Client.mk _ _). split; [by left|done].
Qed.

(** Every operation keeps [max_fd] or raises it, and keeps it a bound. *)
Lemma run_op_max_fd (FD_SETSIZE : nat) (server_fd : Z) (op : Op) (s : Server)
    (rs : list Reply) s' out rs' :
  enabled op s ->
  run_op FD_SETSIZE server_fd op s rs = Ok s' out rs' ->
  max_fd s <= max_fd s' /\ (fd_bound server_fd s -> fd_bound server_fd s').
Proof.
  assert (Hslot : forall i c, clients s !! i = Some c -> slot_step s s' i c ->
            max_fd s <= max_fd s' /\ (fd_bound server_fd s -> fd_bound server_fd s')).
  { intros i c Hi (Hmax & c' & Hc' & Hcl). split; [lia|].
    intros [Hsrv Hb]. split; [lia|]. intros j cj Hj Hpos. rewrite Hcl in Hj. rewrite Hmax.
    apply list_lookup_insert_Some in Hj as [(-> & <- & Hlt)|(Hne & Hj)]; [|by eapply Hb].
    destruct Hc' as [Heq|Heq]; [|lia]. rewrite Heq. eapply Hb; [exact Hi|lia]. }
  destruct op as [|i|i|i]; simpl.
  - intros _ Hrun. apply handle_new_connection_shape in Hrun
      as [->|(newfd & addr & port & rs1 & cl' & added & -> & Hfind & ->)]; [done|].
    simpl. split; [lia|]. intros [Hsrv Hb]. split; [simpl; lia|]. simpl.
    intros j cj Hj Hpos.
    apply find_slot_shape in Hfind as [[-> _]|(k & c & Hk & Hneg & _ & ->)].
    + specialize (Hb j cj Hj Hpos). lia.
    + apply list_lookup_insert_Some in Hj as [(-> & <- & Hlt)|(Hne & Hj)]; [simpl; lia|].
      specialize (Hb j cj Hj Hpos). lia.
  - intros (c & Hi & Hfd) Hrun. eapply Hslot; [exact Hi|]. by eapply handle_client_read_shape.
  - intros (c & Hi & Hfd) Hrun. eapply Hslot; [exact Hi|]. by eapply handle_client_write_shape.
  - intros (c & Hi) Hrun. eapply Hslot; [exact Hi|]. by eapply close_client_shape.
Qed.

(** ** A turn of the loop is a sequence of operations *)

Section LoopOps.

Variables (FD_SETSIZE : nat) (server_fd : Z).

(** A property of pairs of states that holds of every operation and is
    reflexive and transitive. *)
Variable R : Server -> Server -> Prop.
Hypothesis R_refl : forall s, R s s.
Hypothesis R_trans : forall s1 s2 s3, R s1 s2 -> R s2 s3 -> R s1 s3.
Hypothesis R_op : forall op s rs s' out rs',
  enabled op s -> run_op FD_SETSIZE server_fd op s rs = Ok s' out rs' -> R s s'.

Lemma client_loop_ops (read_set write_set : gset Z) (n : nat) :
  forall (i : nat) (s : Server) (rs : list Reply) s' out rs',
  client_loop FD_SETSIZE read_set write_set s i n rs = Ok s' out rs' -> R s s'.
Proof.
  induction n as [|n IH]; intros i s rs s' out rs' Hrun; simpl in Hrun.
  { rewrite run_ret in Hrun. by simplify_eq. }
  destruct (clients s !! i) as [c|] eqn:Hi; [|done].
  destruct (Client.fd c <? 0) eqn:Hc; [by eapply IH|].
  apply Z.ltb_ge in Hc.
  apply run_bind_Ok_inv in Hrun as (s1 & o1 & rs1 & o2 & Hread & Hrun & _).
  assert (R s s1) as H1.
  { destruct (FD_ISSET (Client.fd c) read_set).
    - eapply (R_op (OpRead i)); [|exact Hread]. by exists c.
    - rewrite run_ret in Hread. by simplify_eq. }
  destruct (clients s1 !! i) as [c1|] eqn:Hi1; [|done].
  apply run_bind_Ok_inv in Hrun as (s2 & o3 & rs2 & o4 & Hwrite & Hrun & _).
  assert (R s1 s2) as H2.
  { destruct (Client.fd c1 >=? 0) eqn:Hc1; simpl in Hwrite.
    - destruct (FD_ISSET (Client.fd c) write_set).
      + eapply (R_op (OpWrite i)); [|exact Hwrite]. exists c1. split; [done|].
        rewrite Z.geb_leb in Hc1. by apply Z.leb_le in Hc1.
      + rewrite run_ret in Hwrite. by simplify_eq.
    - rewrite run_ret in Hwrite. by simplify_eq. }
  eapply R_trans; [exact H1|]. eapply R_trans; [exact H2|]. by eapply IH.
Qed.

Lemma loop_iteration_ops (s : Server) (rs : list Reply) s' out rs' :
  loop_iteration FD_SETSIZE server_fd s rs = Ok (inl s') out rs' -> R s s'.
Proof.
  unfold loop_iteration. intros Hrun.
  apply run_bind_Ok_inv in Hrun as ([[[activity read_set] write_set] errno] & o1 & rs1 & o2
                                      & _ & Hrun & _).
  destruct (activity <? 0).
  { destruct (errno_is errno EINTR).
    - rewrite run_ret in Hrun. by simplify_eq.
    - rewrite run_perror, run_ret in Hrun. simpl in Hrun. by simplify_eq. }
  apply run_bind_Ok_inv in Hrun as (s1 & o3 & rs2 & o4 & Hacc & Hrun & _).
  apply run_bind_Ok_inv in Hrun as (s2 & o5 & rs3 & o6 & Hloop & Hrun & _).
  rewrite run_ret in Hrun. simplify_eq.
  eapply R_trans; [|by eapply client_loop_ops].
  destruct (FD_ISSET server_fd read_set).
  - by eapply (R_op OpAccept).
  - rewrite run_ret in Hacc. by simplify_eq.
Qed.

End LoopOps.

Lemma initial_server_fd_bound {FD_SETSIZE : nat} (stack : list Client) (server_fd : Z) :
  fd_bound server_fd (initial_server FD_SETSIZE stack server_fd).
Proof.
  split; [done|]. intros i c Hi Hpos. simpl in Hi.
  rewrite list_lookup_fmap in Hi.
  destruct (stack !! i); simpl in Hi; simplify_eq. simpl in Hpos. lia.
Qed.

Lemma handle_new_connection_full_table (FD_SETSIZE : nat) (server_fd : Z) (s : Server)
    (newfd : nat) (addr port : Z) (f1 f2 : nat) (rest : list Reply) :
  length (clients s) = FD_SETSIZE ->
  (forall i c, clients s !! i = Some c -> 0 <= Client.fd c) ->
  exists out,
    handle_new_connection FD_SETSIZE server_fd s
      (accepted newfd addr port :: ok f1 :: ok f2 :: rest) =
    Ok (mkServer (clients s)
                 (FD_CLR (Z.of_nat newfd) (FD_SET FD_SETSIZE (Z.of_nat newfd) (master_read_set s)))
                 (master_write_set s) (Z.max (max_fd s) (Z.of_nat newfd)))
       out rest.
Proof.
  intros Hlen Hfull. unfold handle_new_connection. rewrite run_bind. simpl.
  destruct (Z.of_nat newfd =? -1) eqn:Hv; [apply Z.eqb_eq in Hv; lia|].
  rewrite run_bind, set_nonblocking_ok. simpl.
  assert (slots_wf (clients s)) as Hwf.
  { intros c Hc. apply list_elem_of_lookup in Hc as [i Hi]. right. by eapply Hfull. }
  rewrite <- Hlen, find_slot_first_free by done.
  assert (first_free (clients s) = None) as ->.
  { apply list_find_None, Forall_forall. intros c Hc.
    apply list_elem_of_lookup in Hc as [i Hi]. specialize (Hfull i c Hi). lia. }
  simpl. repeat run_step. simpl.
  assert ((if Z.of_nat newfd >? max_fd s then Z.of_nat newfd else max_fd s)
          = Z.max (max_fd s) (Z.of_nat newfd))
    as -> by (destruct (Z.of_nat newfd >? max_fd s) eqn:Hgt; lia).
  eauto.
Qed.

(** C7. In every state the event loop reaches, [max_fd] is at least the
    listener's descriptor and the descriptor of every occupied slot. No
    operation lowers [max_fd], nor does a whole turn of the loop; a
    connection close leaves it as it is; and when the acceptor has raised it
    for a connection it then rejects because every slot is occupied, it
    stays raised. *)
Theorem max_fd_bounds_and_never_decreases
    (FD_SETSIZE : nat) (server_fd : Z) (stack : list Client) :
  (forall s, reachable FD_SETSIZE server_fd stack s -> fd_bound server_fd s) /\
  (forall op s rs s' out rs',
     enabled op s -> run_op FD_SETSIZE server_fd op s rs = Ok s' out rs' ->
     max_fd s <= max_fd s') /\
  (forall s rs s' out rs',
     loop_iteration FD_SETSIZE server_fd s rs = Ok (inl s') out rs' ->
     max_fd s <= max_fd s' /\
     (reachable FD_SETSIZE server_fd stack s -> reachable FD_SETSIZE server_fd stack s')) /\
  (forall s i rs s' out rs',
     close_client s i rs = Ok s' out rs' -> max_fd s' = max_fd s) /\
  (forall s (newfd : nat) (addr port : Z) (f1 f2 : nat) rest,
     length (clients s) = FD_SETSIZE ->
     (forall i c, clients s !! i = Some c -> 0 <= Client.fd c) ->
     exists s' out,
       handle_new_connection FD_SETSIZE server_fd s
         (accepted newfd addr port :: ok f1 :: ok f2 :: rest) = Ok s' out rest /\
       clients s' = clients s /\
       max_fd s' = Z.max (max_fd s) (Z.of_nat newfd)).
Proof.
  split_and!.
  - induction 1 as [|s op rs s' out rs' _ IH Hen Hrun].
    + apply initial_server_fd_bound.
    + by eapply run_op_max_fd.
  - intros op s rs s' out rs' Hen Hrun.
    by destruct (run_op_max_fd _ _ _ _ _ _ _ _ Hen Hrun).
  - intros s rs s' out rs' Hrun. split.
    + eapply (loop_iteration_ops FD_SETSIZE server_fd (fun a b => max_fd a <= max_fd b));
        [done|lia| |exact Hrun].
      intros op a rs0 b o rs0' Hen Hop.
      by destruct (run_op_max_fd _ _ _ _ _ _ _ _ Hen Hop).
    + eapply (loop_iteration_ops FD_SETSIZE server_fd
                (fun a b => reachable FD_SETSIZE server_fd stack a ->
                            reachable FD_SETSIZE server_fd stack b));
        [done|by auto| |exact Hrun].
      intros op a rs0 b o rs0' Hen Hop Ha. by eapply reach_op.
  - intros s i rs s' out rs' Hrun.
    destruct (clients s !! i) as [c|] eqn:Hi.
    + by eapply close_client_shape.
    + unfold close_client in Hrun. by rewrite Hi in Hrun.
  - intros s newfd addr port f1 f2 rest Hlen Hfull.
    destruct (handle_new_connection_full_table FD_SETSIZE server_fd s newfd addr port f1 f2
                rest Hlen Hfull) as (out & Hrun).
    eexists _, out. by split_and!.
Qed.

(** ** The interest invariants *)

(** Case analysis on a lookup in a table with one slot replaced. *)
Ltac slot_cases H :=
  apply list_lookup_insert_Some in H as [(<- & <- & ?)|(? & H)]; simpl in *.

Lemma elem_of_FD_CLR (fd x : Z) (set : gset Z) : x ∈ FD_CLR fd set <-> x ∈ set /\ x <> fd.
Proof. unfold FD_CLR. rewrite elem_of_difference, elem_of_singleton. tauto. Qed.

(** [FD_SET] registers a descriptor that has a bit in the bitmap, and no
    other. *)
Lemma elem_of_FD_SET (FD_SETSIZE : nat) (fd x : Z) (set : gset Z) :
  x ∈ FD_SET FD_SETSIZE fd set <-> (x = fd /\ 0 <= fd < Z.of_nat FD_SETSIZE) \/ x ∈ set.
Proof.
  unfold FD_SET. case_bool_decide as Hfd.
  - rewrite elem_of_union, elem_of_singleton. tauto.
  - tauto.
Qed.

Lemma init_write_buffer_bounds (buf : WriteBuffer) : buffer_bounds (init_write_buffer buf).
Proof. unfold buffer_bounds, MAX_PENDING_WRITES. simpl. lia. Qed.

Lemma Inv_closed (FD_SETSIZE : nat) (s : Server) (i : nat) (c : Client) :
  Inv FD_SETSIZE s -> clients s !! i = Some c -> 0 <= Client.fd c ->
  Inv FD_SETSIZE (closed s i c).
Proof.
  intros [Hlen Hslots Hnn Hread Hdist Hsub Hwrite Hbuf] Hi Hfd.
  constructor; simpl.
  - by rewrite length_insert.
  - intros j cj Hj. slot_cases Hj; [by left|by eapply Hslots].
  - intros x Hx. apply elem_of_FD_CLR in Hx as [Hx _]. by apply Hnn.
  - intros j cj Hj Hpos. slot_cases Hj; [lia|].
    apply elem_of_FD_CLR. split; [by eapply Hread|].
    intros Heq. by specialize (Hdist j i cj c Hj Hi Hpos Heq).
  - intros j k cj ck Hj Hk Hpos Heq. slot_cases Hj; [lia|]. slot_cases Hk; [lia|].
    by eapply Hdist.
  - intros x Hx. apply elem_of_FD_CLR in Hx as [Hx Hne].
    apply elem_of_FD_CLR. split; [by apply Hsub|done].
  - intros j cj Hj Hw. apply elem_of_FD_CLR in Hw as [Hw Hne].
    slot_cases Hj; [|by eapply Hwrite].
    apply Hsub, Hnn in Hw. lia.
  - intros j cj Hj. slot_cases Hj; [apply init_write_buffer_bounds|by eapply Hbuf].
Qed.

(** Slot [i] keeps its descriptor and gets the buffer [buf']; the write-set
    may change at that descriptor only. *)
Lemma Inv_with_slot (FD_SETSIZE : nat) (s : Server) (i : nat) (c : Client)
    (buf' : WriteBuffer) (write_set : gset Z) :
  Inv FD_SETSIZE s -> clients s !! i = Some c -> 0 <= Client.fd c ->
  buffer_bounds buf' ->
  (forall x, x ∈ write_set -> x = Client.fd c \/ x ∈ master_write_set s) ->
  (Client.fd c ∈ write_set -> write_buffer_empty buf' = false) ->
  Inv FD_SETSIZE (with_slot s i (Client.fd c) buf' (master_read_set s) write_set).
Proof.
  intros [Hlen Hslots Hnn Hread Hdist Hsub Hwrite Hbuf] Hi Hfd Hb Hws Hne.
  constructor; simpl.
  - by rewrite length_insert.
  - intros j cj Hj. slot_cases Hj; [by right|by eapply Hslots].
  - done.
  - intros j cj Hj Hpos. slot_cases Hj; by eapply Hread.
  - intros j k cj ck Hj Hk Hpos Heq. slot_cases Hj; slot_cases Hk; try done.
    + by eapply (Hdist i k c ck).
    + symmetry. eapply (Hdist i j c cj); [done..|]. by symmetry.
    + by eapply Hdist.
  - intros x Hx. destruct (Hws x Hx) as [->|Hx']; [by eapply Hread|by apply Hsub].
  - intros j cj Hj Hw. slot_cases Hj; [by apply Hne|].
    destruct (Hws _ Hw) as [Heq|Hw']; [|by eapply Hwrite].
    assert (0 <= Client.fd cj) as Hpos by lia.
    by specialize (Hdist j i cj c Hj Hi Hpos Heq).
  - intros j cj Hj. slot_cases Hj; [done|by eapply Hbuf].
Qed.

(** A fresh descriptor that has a bit in the bitmap, installed in an empty
    slot. *)
Lemma Inv_install (FD_SETSIZE : nat) (s : Server) (j : nat) (c : Client)
    (client_fd m : Z) :
  Inv FD_SETSIZE s -> clients s !! j = Some c -> Client.fd c < 0 ->
  0 <= client_fd < Z.of_nat FD_SETSIZE -> client_fd ∉ master_read_set s ->
  Inv FD_SETSIZE
      (mkServer (<[j := Client.mk client_fd (init_write_buffer (Client.write_buf c))]> (clients s))
                (FD_SET FD_SETSIZE client_fd (master_read_set s)) (master_write_set s) m).
Proof.
  intros [Hlen Hslots Hnn Hread Hdist Hsub Hwrite Hbuf] Hj Hneg Hpos Hfresh.
  constructor; simpl.
  - by rewrite length_insert.
  - intros k ck Hk. slot_cases Hk; [right; lia|by eapply Hslots].
  - intros x Hx. apply elem_of_FD_SET in Hx as [[-> _]|Hx]; [done|by apply Hnn].
  - intros k ck Hk Hp. apply elem_of_FD_SET. slot_cases Hk; [by left|].
    right. by eapply Hread.
  - intros k l ck cl Hk Hl Hp Heq. slot_cases Hk; slot_cases Hl; try done.
    + exfalso. apply Hfresh. rewrite Heq. eapply Hread; [done|lia].
    + exfalso. apply Hfresh. rewrite <- Heq. by eapply Hread.
    + by eapply Hdist.
  - intros x Hx. apply elem_of_FD_SET. right. by apply Hsub.
  - intros k ck Hk Hw. slot_cases Hk; [|by eapply Hwrite].
    exfalso. by apply Hfresh, Hsub.
  - intros k ck Hk. slot_cases Hk; [apply init_write_buffer_bounds|by eapply Hbuf].
Qed.

(** A fresh descriptor rejected: set in the read-set, then cleared. *)
Lemma Inv_reject (FD_SETSIZE : nat) (s : Server) (client_fd m : Z) :
  Inv FD_SETSIZE s -> client_fd ∉ master_read_set s ->
  Inv FD_SETSIZE
      (mkServer (clients s)
                (FD_CLR client_fd (FD_SET FD_SETSIZE client_fd (master_read_set s)))
                (master_write_set s) m).
Proof.
  intros [Hlen Hslots Hnn Hread Hdist Hsub Hwrite Hbuf] Hfresh.
  assert (forall x, x ∈ FD_CLR client_fd (FD_SET FD_SETSIZE client_fd (master_read_set s)) <->
                    x ∈ master_read_set s) as Hset.
  { intros x. rewrite elem_of_FD_CLR, elem_of_FD_SET. split; [tauto|].
    intros Hx. split; [by right|]. by intros ->. }
  constructor; simpl; try done.
  - intros x Hx. by apply Hnn, Hset.
  - intros k ck Hk Hp. apply Hset. by eapply Hread.
  - intros x Hx. by apply Hset, Hsub.
Qed.

(** An accepted append leaves a bounded, non-empty buffer. *)
Lemma write_buffer_append_accepted (buf : WriteBuffer) (data : list byte) (rs : list Reply)
    buf' out rs' :
  buffer_bounds buf -> data <> [] -> Z.of_nat (length data) <= BUFFER_SIZE ->
  write_buffer_append buf data rs = Ok (true, buf') out rs' ->
  buffer_bounds buf' /\ write_buffer_empty buf' = false.
Proof.
  intros [Hos Hsz] Hne Hlen. unfold write_buffer_append, buffer_bounds, write_buffer_empty.
  unfold MAX_PENDING_WRITES, BUFFER_SIZE in *.
  assert (0 < Z.of_nat (length data)) as Hpos.
  { destruct data; [done|]. simpl. lia. }
  rewrite (size_t_small (WriteBuffer.size buf + _)) by lia.
  destruct (_ >? 8192) eqn:Hfull; [run_step; simpl; intros; by simplify_eq|].
  rewrite run_ret. intros Hrun. simplify_eq. simpl.
  destruct (WriteBuffer.offset buf >=? WriteBuffer.size buf) eqn:Hge; simpl.
  - rewrite size_t_small by lia. split; [lia|]. rewrite Z.geb_leb. apply Z.leb_gt. lia.
  - rewrite size_t_small by lia. rewrite Z.geb_leb in Hge. apply Z.leb_gt in Hge.
    split; [lia|]. rewrite Z.geb_leb. apply Z.leb_gt. lia.
Qed.

Lemma run_op_Inv (FD_SETSIZE : nat) (server_fd : Z) (op : Op) (s : Server)
    (rs : list Reply) s' out rs' :
  Inv FD_SETSIZE s -> enabled op s -> fresh_accept FD_SETSIZE op s rs ->
  run_op FD_SETSIZE server_fd op s rs = Ok s' out rs' ->
  Inv FD_SETSIZE s'.
Proof.
  intros HInv Hen Hfresh Hrun. destruct op as [|i|i|i]; simpl in *.
  - apply handle_new_connection_shape in Hrun
      as [->|(newfd & addr & port & rs1 & cl' & added & -> & Hfind & ->)]; [done|].
    destruct Hfresh as [Hlt Hfresh].
    apply find_slot_shape in Hfind as [[-> ->]|(j & c & Hj & Hneg & -> & ->)].
    + by apply Inv_reject.
    + replace (Z.max (max_fd s) (Z.of_nat newfd)) with (max_fd
        (mkServer (clients s) (master_read_set s) (master_write_set s)
                  (Z.max (max_fd s) (Z.of_nat newfd)))) by done.
      apply Inv_install; [done..|lia|done].
  - destruct Hen as (c & Hi & Hfd).
    destruct (handle_client_read_inv s i c rs s' out rs' Hi Hfd Hrun)
      as (_ & _ & [[-> _]|[->|(buf' & Happ & Hne & Hlen & ->)]]).
    + done.
    + by apply Inv_closed.
    + destruct (write_buffer_append_accepted _ _ _ _ _ _
                  (inv_buffers _ _ HInv i c Hi) Hne Hlen Happ) as [Hb Hnonempty].
      apply Inv_with_slot; [done|done|done|done| |done].
      intros x Hx. apply elem_of_FD_SET in Hx as [[-> _]|Hx]; [by left|by right].
  - destruct Hen as (c & Hi & Hfd).
    pose proof (inv_buffers _ _ HInv i c Hi) as Hb.
    destruct (handle_client_write_inv s i c rs s' out rs' Hi Hfd Hb Hrun)
      as (_ & _ & n & Hn & _ & [[_ ->]|[[Hlt ->]| ->]]).
    + apply Inv_with_slot; [done|done|done|..].
      * unfold buffer_bounds, MAX_PENDING_WRITES. simpl. lia.
      * intros x Hx. apply elem_of_FD_CLR in Hx as [Hx _]. by right.
      * intros Hx. by apply elem_of_FD_CLR in Hx as [_ Hx].
    + destruct Hb as [Hos Hsz]. apply Inv_with_slot; [done|done|done|..].
      * unfold buffer_bounds. simpl. lia.
      * intros x Hx. by right.
      * intros _. unfold write_buffer_empty. simpl. rewrite Z.geb_leb. apply Z.leb_gt. lia.
    + by apply Inv_closed.
  - destruct Hen as (c & Hi).
    destruct (Z_lt_le_dec (Client.fd c) 0) as [Hneg|Hpos].
    + rewrite (close_client_empty s i c rs Hi Hneg) in Hrun. by simplify_eq.
    + rewrite (close_client_open s i c rs Hi Hpos) in Hrun. simplify_eq.
      by apply Inv_closed.
Qed.

Lemma initial_server_Inv (FD_SETSIZE : nat) (stack : list Client) (server_fd : Z) :
  length stack = FD_SETSIZE ->
  Inv FD_SETSIZE (initial_server FD_SETSIZE stack server_fd).
Proof.
  intros Hlen.
  assert (forall i c,
    (fun c => Client.mk (-1) (init_write_buffer (Client.write_buf c))) <$> stack !! i = Some c ->
    Client.fd c = -1 /\ buffer_bounds (Client.write_buf c)) as Hslot.
  { intros i c Hi. destruct (stack !! i); simpl in Hi; simplify_eq.
    split; [done|apply init_write_buffer_bounds]. }
  constructor; simpl; try setoid_rewrite list_lookup_fmap.
  - by rewrite length_map.
  - intros i c Hi. left. by apply (Hslot i).
  - intros x Hx. apply elem_of_FD_SET in Hx as [[-> Hx]|Hx]; [done|].
    by apply elem_of_empty in Hx.
  - intros i c Hi Hpos. apply Hslot in Hi as [Hfd _]. lia.
  - intros i j ci cj Hi Hj Hpos. apply Hslot in Hi as [Hfd _]. lia.
  - intros x Hx. by apply elem_of_empty in Hx.
  - intros i c Hi Hx. by apply elem_of_empty in Hx.
  - intros i c Hi. by apply (Hslot i).
Qed.



(** ** Echo *)

Lemma pending_empty (buf : WriteBuffer) :
  WriteBuffer.offset buf = WriteBuffer.size buf -> pending buf = [].
Proof.
  intros Heq. unfold pending, region. rewrite Heq, Z.sub_diag. reflexivity.
Qed.

(** An accepted append adds the bytes at the end of what is pending. *)
Lemma write_buffer_append_staged (buf : WriteBuffer) (data : list byte) (rs : list Reply)
    buf' out rs' :
  wf_buffer buf -> Z.of_nat (length data) < 2 ^ 63 ->
  write_buffer_append buf data rs = Ok (true, buf') out rs' ->
  wf_buffer buf' /\ pending buf' = pending buf ++ data.
Proof.
  intros Hwf Hlen Hrun. pose proof Hwf as (Hos & Hsz & Hdata).
  unfold MAX_PENDING_WRITES in *.
  rewrite write_buffer_append_run in Hrun by (done || lia).
  unfold MAX_PENDING_WRITES in Hrun.
  destruct (_ >? 8192) eqn:Hfull; [by simplify_eq|].
  assert (WriteBuffer.size buf + Z.of_nat (length data) <= 8192) as Hroom by lia.
  destruct (WriteBuffer.offset buf =? WriteBuffer.size buf) eqn:Heq; simplify_eq.
  - apply Z.eqb_eq in Heq. rewrite (pending_empty buf) by done. split.
    + unfold wf_buffer, MAX_PENDING_WRITES. simpl. rewrite length_memcpy by lia. lia.
    + unfold pending, region, memcpy. simpl. rewrite Z.sub_0_r, size_t_small by lia.
      rewrite ?Nat2Z.id. change (Z.to_nat 0) with 0%nat. rewrite drop_0.
      by rewrite take_app_length.
  - apply Z.eqb_neq in Heq. split.
    + unfold wf_buffer, MAX_PENDING_WRITES. simpl. rewrite length_memcpy by lia. lia.
    + unfold pending, region, memcpy. simpl.
      rewrite !size_t_small by lia.
      set (d := WriteBuffer.data buf) in *.
      set (o := Z.to_nat (WriteBuffer.offset buf)).
      set (sz := Z.to_nat (WriteBuffer.size buf)).
      assert (o <= sz)%nat as Hosz by lia.
      assert (sz <= length d)%nat as Hszd by lia.
      replace (Z.to_nat (WriteBuffer.size buf + Z.of_nat (length data) - WriteBuffer.offset buf))
        with ((sz - o) + length data)%nat by lia.
      replace (Z.to_nat (WriteBuffer.size buf - WriteBuffer.offset buf)) with (sz - o)%nat by lia.
      rewrite drop_app_le by (rewrite length_take; lia).
      rewrite app_assoc.
      assert (length (drop o (take sz d)) = (sz - o)%nat) as Hl
        by (rewrite length_drop, length_take; lia).
      rewrite take_app_le by (rewrite length_app, Hl; lia).
      rewrite take_app_ge by (rewrite Hl; lia).
      rewrite Hl. replace (sz - o + length data - (sz - o))%nat with (length data) by lia.
      rewrite firstn_all. f_equal.
      apply skipn_firstn_comm.
Qed.

Lemma write_buffer_append_pending (buf : WriteBuffer) (data : list byte) (rs : list Reply)
    buf' out rs' :
  wf_buffer buf -> Z.of_nat (length data) <= BUFFER_SIZE ->
  write_buffer_append buf data rs = Ok (true, buf') out rs' ->
  wf_buffer buf' /\ pending buf' = pending buf ++ data.
Proof.
  intros Hwf Hlen. apply write_buffer_append_staged; [done|].
  unfold BUFFER_SIZE in Hlen. lia.
Qed.

Lemma region_split (buf : WriteBuffer) (pos n len : Z) :
  0 <= pos -> 0 <= n <= len ->
  region buf pos n ++ take (Z.to_nat (len - n)) (drop (Z.to_nat (pos + n)) (WriteBuffer.data buf))
  = region buf pos len.
Proof.
  intros Hpos Hn. unfold region.
  replace (Z.to_nat (pos + n)) with (Z.to_nat pos + Z.to_nat n)%nat by lia.
  rewrite <- drop_drop, take_take_drop. f_equal. lia.
Qed.

(** ** The read handler, case by case *)

(** C3. On an occupied slot whose buffer respects its array, the read
    handler issues exactly one [recv] (one reply is read, one [recv] event is
    observed) and acts on its result. A positive count: when
    [size + len <= MAX_PENDING_WRITES] the bytes received are appended to the
    slot's write buffer - they are copied into the array after the bytes
    staged, [size] grows by their number and they follow the bytes that were
    pending - and the fd is set in the master write-set; when they do not fit
    the append is refused, the buffer is left as it was and the connection is
    closed. Zero closes the connection; a failure with
    [EAGAIN]/[EWOULDBLOCK] changes nothing; any other failure closes the
    connection. *)
Theorem read_handler_case_split
    (FD_SETSIZE : nat) (s : Server) (i : nat) (c : Client) (r : Reply) (rest : list Reply) :
  clients s !! i = Some c -> 0 <= Client.fd c ->
  wf_buffer (Client.write_buf c) ->
  (exists bs, r = recv_data bs) \/ (exists e, r = err e) ->
  let fd := Client.fd c in
  let buf := Client.write_buf c in
  exists s' out,
    handle_client_read FD_SETSIZE s i (r :: rest) = Ok s' out rest /\
    count is_recv out = 1%nat /\
    match r with
    | recv_data bs =>
        let got := take (Z.to_nat BUFFER_SIZE) bs in
        let len := Z.of_nat (length got) in
        head out = Some (EvRecv fd BUFFER_SIZE got len) /\
        if bool_decide (got = []) then
          s' = closed s i c /\ count (is_close_of fd) out = 1%nat
        else if WriteBuffer.size buf + len >? MAX_PENDING_WRITES then
          s' = closed s i c /\ count (is_close_of fd) out = 1%nat /\
          EvLog STDERR "Write buffer full, cannot append %zu bytes\n" [len] ∈ out
        else
          let start := if WriteBuffer.offset buf =? WriteBuffer.size buf
                       then 0 else WriteBuffer.size buf in
          let buf' :=
            WriteBuffer.mk (memcpy (WriteBuffer.data buf) start got) (start + len)
                           (if WriteBuffer.offset buf =? WriteBuffer.size buf
                            then 0 else WriteBuffer.offset buf) in
          s' = with_slot s i fd buf' (master_read_set s)
                         (FD_SET FD_SETSIZE fd (master_write_set s)) /\
          clients s' !! i = Some (Client.mk fd buf') /\
          region buf' start len = got /\
          pending buf' = pending buf ++ got /\
          wf_buffer buf' /\
          (fd < Z.of_nat FD_SETSIZE -> fd ∈ master_write_set s') /\
          out = [EvRecv fd BUFFER_SIZE got len;
                 EvLog STDOUT "Received %zd bytes from client (fd=%d)\n" [len; fd]]
    | err e =>
        head out = Some (EvRecv fd BUFFER_SIZE [] (-1)) /\
        if bool_decide (would_block e) then s' = s /\ out = [EvRecv fd BUFFER_SIZE [] (-1)]
        else s' = closed s i c /\ count (is_close_of fd) out = 1%nat
    | _ => False
    end.
Proof.
  intros Hi Hfd Hwf Hr fd buf. unfold handle_client_read. rewrite Hi, run_bind.
  destruct Hr as [[bs ->]|[e ->]]; simpl.
  - set (got := take (Z.to_nat BUFFER_SIZE) bs).
    assert (Z.of_nat (length got) <= BUFFER_SIZE) as Hgot.
    { unfold got. rewrite length_take. unfold BUFFER_SIZE. lia. }
    destruct (Z.of_nat (length got) <? 0) eqn:Hneg; [apply Z.ltb_lt in Hneg; lia|].
    destruct (Z.of_nat (length got) =? 0) eqn:Hzero.
    + (* end of stream *)
      apply Z.eqb_eq in Hzero.
      assert (got = []) as Hnil by (apply length_zero_iff_nil; lia).
      run_step; rewrite (close_client_open s i c rest Hi Hfd). simpl.
      eexists _, _. split; [reflexivity|]. fold fd.
      rewrite Hnil. cbn. rewrite !bool_decide_eq_true_2 by done. by split_and!.
    + (* data *)
      apply Z.eqb_neq in Hzero.
      assert (got <> []) as Hne by (intros Hnil; rewrite Hnil in Hzero; simpl in Hzero; lia).
      run_step; rewrite run_bind.
      assert (Z.of_nat (length got) < 2 ^ 63) as Hl by (unfold BUFFER_SIZE in Hgot; lia).
      pose proof (write_buffer_append_run buf got rest Hwf Hl) as Happ. cbv zeta in Happ.
      fold buf. rewrite bool_decide_eq_false_2 by done.
      destruct (WriteBuffer.size buf + Z.of_nat (length got) >? MAX_PENDING_WRITES) eqn:Hfull.
      * (* refused *)
        rewrite Happ. cbv beta iota zeta. cbn [negb]. unfold buf.
        rewrite set_write_buf_same by done.
        run_step; rewrite (close_client_open s i c rest Hi Hfd). simpl.
        eexists _, _. split; [reflexivity|]. fold fd. cbn.
        rewrite !bool_decide_eq_true_2 by done.
        split; [done|]. split; [done|]. split; [done|]. split; [done|].
        repeat (apply elem_of_cons; first [by left|right]).
      * (* appended *)
        set (start := if WriteBuffer.offset buf =? WriteBuffer.size buf
                      then 0 else WriteBuffer.size buf).
        set (buf' := WriteBuffer.mk (memcpy (WriteBuffer.data buf) start got)
                       (start + Z.of_nat (length got))
                       (if WriteBuffer.offset buf =? WriteBuffer.size buf
                        then 0 else WriteBuffer.offset buf)).
        assert (write_buffer_append buf got rest = Ok (true, buf') [] rest) as Happ'.
        { rewrite Happ. unfold buf', start.
          by destruct (WriteBuffer.offset buf =? WriteBuffer.size buf). }
        destruct (write_buffer_append_staged _ _ _ _ _ _ Hwf Hl Happ') as [Hwf' Hpend].
        rewrite Happ'. cbv beta iota zeta. cbn [negb]. rewrite run_ret.
        eexists _, _. split; [reflexivity|]. fold fd. cbn [emit app count List.filter is_recv
          length head].
        split; [done|]. split; [done|].
        assert (0 <= start /\ start + Z.of_nat (length got) <= MAX_PENDING_WRITES) as Hstart.
        { destruct Hwf as (Hos & Hsz & _). fold buf in Hos, Hsz.
          rewrite Z.gtb_ltb in Hfull. apply Z.ltb_ge in Hfull.
          unfold start. destruct (WriteBuffer.offset buf =? WriteBuffer.size buf); lia. }
        split_and!; try done.
        -- apply list_lookup_insert_eq. by eapply lookup_lt_Some.
        -- unfold region, buf', memcpy. cbn [WriteBuffer.data].
           destruct Hwf as (_ & _ & Hdata). fold buf in Hdata.
           rewrite drop_app_length'; [|rewrite length_take; lia].
           rewrite Nat2Z.id. by rewrite take_app_length.
        -- intros Hlt. unfold set_write_buf. cbn [master_write_set].
           unfold FD_SET. rewrite bool_decide_eq_true_2 by (fold fd; lia).
           apply elem_of_union_l. by apply elem_of_singleton.
  - destruct (errno_is (Some e) EAGAIN || errno_is (Some e) EWOULDBLOCK) eqn:He.
    + apply errno_is_would_block in He. rewrite bool_decide_eq_true_2 by done.
      eexists _, _. split; [reflexivity|]. by split_and!.
    + assert (~ would_block e) as Hnb.
      { intros Hwb. apply errno_is_would_block in Hwb. congruence. }
      rewrite bool_decide_eq_false_2 by done.
      run_step; rewrite (close_client_open s i c rest Hi Hfd). simpl.
      eexists _, _. split; [reflexivity|]. fold fd. cbn.
      rewrite !bool_decide_eq_true_2 by done. by split_and!.
Qed.

Lemma read_handler_case_split_witness :
  let buf := WriteBuffer.mk (replicate (Z.to_nat MAX_PENDING_WRITES) x00) 0 0 in
  let s := mkServer [Client.mk 5 buf] {[3; 5]} ∅ 5 in
  exists s' out,
    handle_client_read 8 s 0 [recv_data [x68; x69]] = Ok s' out [] /\
    count is_recv out = 1%nat /\
    pending (WriteBuffer.mk (memcpy (WriteBuffer.data buf) 0 [x68; x69]) 2 0) = [x68; x69] /\
    (5 ∈ master_write_set s').
Proof.
  intros buf s.
  destruct (read_handler_case_split 8 s 0 (Client.mk 5 buf) (recv_data [x68; x69]) [])
    as (s' & out & Hrun & Hcount & _ & Hcase).
  - reflexivity.
  - simpl. lia.
  - unfold wf_buffer, buf. cbn [Client.write_buf WriteBuffer.data WriteBuffer.size
                                 WriteBuffer.offset].
    rewrite length_replicate. unfold MAX_PENDING_WRITES. lia.
  - left. by exists [x68; x69].
  - exists s', out. split; [exact Hrun|]. split; [exact Hcount|].
    cbn in Hcase. destruct Hcase as (_ & _ & _ & Hpend & _ & Harmed & _).
    split; [exact Hpend|]. apply Harmed. lia.
Defined.

Lemma serve_closed {FD_SETSIZE : nat} (i : nat) (evs : list Invocation) (s : Server) (c : Client)
    (rs : list Reply) :
  clients s !! i = Some c -> Client.fd c < 0 -> serve FD_SETSIZE i evs s rs = Ok s [] rs.
Proof.
  intros Hi Hneg. apply Z.ltb_lt in Hneg.
  induction evs as [|ev evs IH]; simpl; [done|]. by rewrite Hi, Hneg.
Qed.

Lemma with_slot_lookup (s : Server) (i : nat) (c : Client) (fd : Z) (buf : WriteBuffer)
    (read_set write_set : gset Z) :
  clients s !! i = Some c ->
  clients (with_slot s i fd buf read_set write_set) !! i = Some (Client.mk fd buf).
Proof. intros Hi. simpl. apply list_lookup_insert_eq. by eapply lookup_lt_Some. Qed.

(** The stream of one connection: at every moment what was transmitted,
    followed by what is pending (or, once the connection is closed, by the
    bytes that were dropped), is what was pending at the start followed by
    what was received. *)
Lemma serve_stream {FD_SETSIZE : nat} (i : nat) (evs : list Invocation) :
  forall (s : Server) (c : Client) (rs : list Reply) s' out rs',
  clients s !! i = Some c -> 0 <= Client.fd c -> wf_buffer (Client.write_buf c) ->
  serve FD_SETSIZE i evs s rs = Ok s' out rs' ->
  (forall fd', fd' <> Client.fd c -> transmitted fd' out = [] /\ received fd' out = []) /\
  exists c', clients s' !! i = Some c' /\
    ((Client.fd c' = Client.fd c /\ wf_buffer (Client.write_buf c') /\
      transmitted (Client.fd c) out ++ pending (Client.write_buf c') =
        pending (Client.write_buf c) ++ received (Client.fd c) out) \/
     (Client.fd c' = -1 /\ exists dropped,
      transmitted (Client.fd c) out ++ dropped =
        pending (Client.write_buf c) ++ received (Client.fd c) out)).
Proof.
  induction evs as [|ev evs IH]; intros s c rs s' out rs' Hi Hfd Hwf Hrun; simpl in Hrun.
  { rewrite run_ret in Hrun. simplify_eq. split; [done|]. exists c. split; [done|].
    left. unfold transmitted, received. simpl. by rewrite app_nil_r. }
  rewrite Hi in Hrun. destruct (Client.fd c <? 0) eqn:Hneg; [apply Z.ltb_lt in Hneg; lia|].
  apply run_bind_Ok_inv in Hrun as (s1 & o1 & rs1 & o2 & Hstep & Hrun & ->).
  set (fd := Client.fd c) in *. set (buf := Client.write_buf c) in *.
  (* what one handler run does to the stream *)
  assert (Hone :
    (forall fd', fd' <> fd -> transmitted fd' o1 = [] /\ received fd' o1 = []) /\
    ((exists buf1, clients s1 !! i = Some (Client.mk fd buf1) /\ wf_buffer buf1 /\
        transmitted fd o1 ++ pending buf1 = pending buf ++ received fd o1) \/
     (clients s1 !! i = Some (Client.mk (-1) (init_write_buffer buf)) /\
      exists dropped, transmitted fd o1 ++ dropped = pending buf ++ received fd o1))).
  { destruct ev.
    - destruct (handle_client_read_inv s i c rs s1 o1 rs1 Hi Hfd Hstep)
        as (Htx & Hrx & [[-> Hnil]|[->|(buf1 & Happ & Hne & Hlen & ->)]]).
      + split; [by intros fd' Hfd'; rewrite Htx, Hrx|]. left. exists buf.
        rewrite Htx. fold fd in Hnil. rewrite Hnil, app_nil_r. split; [|done].
        by rewrite Hi, <- (client_eta c).
      + split; [by intros fd' Hfd'; rewrite Htx, Hrx|]. right.
        split; [by apply closed_lookup|]. rewrite Htx. eauto.
      + split; [by intros fd' Hfd'; rewrite Htx, Hrx|]. left. exists buf1.
        destruct (write_buffer_append_pending _ _ _ _ _ _ Hwf Hlen Happ) as [Hwf1 Hp].
        split; [by eapply with_slot_lookup|]. split; [done|]. by rewrite Htx.
    - assert (buffer_bounds buf) as Hb by (destruct Hwf as (? & ? & ?); by split).
      pose proof Hwf as (Hos & Hsz & Hdata). unfold MAX_PENDING_WRITES in Hsz.
      destruct (handle_client_write_inv s i c rs s1 o1 rs1 Hi Hfd Hb Hstep)
        as (Hrx & Htx & n & Hn & Htxn & Hcase). fold fd buf in Htx, Hn, Htxn, Hcase.
      split; [by intros fd' Hfd'; rewrite Htx, Hrx|].
      assert (pending buf = region buf (WriteBuffer.offset buf)
                (WriteBuffer.size buf - WriteBuffer.offset buf)) as Hpend.
      { unfold pending. by rewrite size_t_small by lia. }
      pose proof (region_split buf (WriteBuffer.offset buf) n
                    (WriteBuffer.size buf - WriteBuffer.offset buf) (proj1 Hos) Hn) as Hsplit.
      rewrite <- Htxn, <- Hpend in Hsplit.
      destruct Hcase as [[Hall ->]|[[Hlt ->]| ->]].
      + left. eexists. split; [by eapply with_slot_lookup|]. split.
        { unfold wf_buffer, MAX_PENDING_WRITES in *. simpl. lia. }
        rewrite (Hrx fd), (pending_empty (WriteBuffer.mk _ 0 0)) by done.
        rewrite !app_nil_r, Htxn, Hpend. by rewrite Hall.
      + left. eexists. split; [by eapply with_slot_lookup|]. split.
        { unfold wf_buffer, MAX_PENDING_WRITES in *. simpl. lia. }
        rewrite (Hrx fd), app_nil_r, <- Hsplit. f_equal.
        unfold pending, region. simpl. rewrite size_t_small by lia.
        f_equal. lia.
      + right. split; [by apply closed_lookup|]. rewrite (Hrx fd), app_nil_r. eauto. }
  destruct Hone as [Hother [(buf1 & Hi1 & Hwf1 & Hs1)|(Hi1 & dropped & Hs1)]].
  - destruct (IH s1 (Client.mk fd buf1) rs1 s' o2 rs' Hi1 Hfd Hwf1 Hrun)
      as (Hother2 & c' & Hi' & Hc'). simpl in Hother2, Hc'.
    split.
    { intros fd' Hfd'. rewrite transmitted_app, received_app.
      destruct (Hother fd' Hfd') as [-> ->]. destruct (Hother2 fd' Hfd') as [-> ->]. done. }
    exists c'. split; [done|]. rewrite transmitted_app, received_app.
    destruct Hc' as [(Hfd' & Hwf' & Hs2)|(Hfd' & dropped & Hs2)].
    + left. split; [done|]. split; [done|].
      rewrite <- app_assoc, Hs2, !app_assoc. by rewrite Hs1.
    + right. split; [done|]. exists dropped.
      rewrite <- app_assoc, Hs2, !app_assoc. by rewrite Hs1.
  - rewrite (serve_closed i evs s1 _ rs1 Hi1) in Hrun by (simpl; lia). simplify_eq.
    rewrite !app_nil_r. split; [done|]. eexists. split; [exact Hi1|]. right.
    split; [done|]. by exists dropped.
Qed.

(** Sends that leave bytes behind, then one with room for the rest: the
    flush drains the buffer and reads no further reply. *)
Lemma write_buffer_flush_exact (ks : list positive) :
  forall (buf : WriteBuffer) (fd : Z) (k : positive) (rest : list Reply),
  0 <= WriteBuffer.offset buf <= WriteBuffer.size buf ->
  WriteBuffer.size buf < 2 ^ 63 ->
  room ks < WriteBuffer.size buf - WriteBuffer.offset buf <= room ks + Z.pos k ->
  exists out,
    write_buffer_flush buf fd ((send_room <$> ks) ++ send_room k :: rest) =
      Ok (0, WriteBuffer.mk (WriteBuffer.data buf) 0 0) out rest.
Proof.
  induction ks as [|k0 ks IH]; intros buf fd k rest Hos Hsz Hroom; simpl in Hroom;
    [|fold (room ks) in *; pose proof (room_nonneg ks)].
  - simpl. assert ((WriteBuffer.offset buf <? WriteBuffer.size buf) = true) as ->
      by (apply Z.ltb_lt; lia).
    rewrite (size_t_small (WriteBuffer.size buf - WriteBuffer.offset buf)) by lia.
    rewrite Z.min_r by lia.
    destruct (_ <? 0) eqn:Hneg; [apply Z.ltb_lt in Hneg; lia|].
    rewrite size_t_small by lia.
    rewrite write_buffer_flush_drained by (simpl; lia). simpl. eauto.
  - simpl. assert ((WriteBuffer.offset buf <? WriteBuffer.size buf) = true) as ->
      by (apply Z.ltb_lt; lia).
    rewrite (size_t_small (WriteBuffer.size buf - WriteBuffer.offset buf)) by lia.
    rewrite Z.min_l by lia.
    destruct (Z.pos k0 <? 0) eqn:Hneg; [lia|].
    rewrite (size_t_small (WriteBuffer.offset buf + Z.pos k0)) by lia.
    change (list_fmap _ _ send_room ks) with (send_room <$> ks).
    destruct (IH (WriteBuffer.mk (WriteBuffer.data buf) (WriteBuffer.size buf)
                                 (WriteBuffer.offset buf + Z.pos k0)) fd k rest)
      as (out & ->); simpl; try lia.
    eauto.
Qed.

(** The read handler on data that fits: the bytes are staged after those
    already staged and the descriptor is armed for writing. *)
Lemma handle_client_read_data (FD_SETSIZE : nat) (s : Server) (i : nat) (c : Client)
    (B : list byte) (rest : list Reply) :
  clients s !! i = Some c -> 0 <= Client.fd c -> wf_buffer (Client.write_buf c) ->
  B <> [] -> Z.of_nat (length B) <= BUFFER_SIZE ->
  WriteBuffer.size (Client.write_buf c) + Z.of_nat (length B) <= MAX_PENDING_WRITES ->
  let buf := Client.write_buf c in
  let len := Z.of_nat (length B) in
  let drained := WriteBuffer.offset buf =? WriteBuffer.size buf in
  let start := if drained then 0 else WriteBuffer.size buf in
  let buf' := WriteBuffer.mk (memcpy (WriteBuffer.data buf) start B) (start + len)
                             (if drained then 0 else WriteBuffer.offset buf) in
  wf_buffer buf' /\
  handle_client_read FD_SETSIZE s i (recv_data B :: rest) =
  Ok (with_slot s i (Client.fd c) buf' (master_read_set s)
                (FD_SET FD_SETSIZE (Client.fd c) (master_write_set s)))
     [EvRecv (Client.fd c) BUFFER_SIZE B len;
      EvLog STDOUT "Received %zd bytes from client (fd=%d)\n" [len; Client.fd c]] rest.
Proof.
  intros Hi Hfd Hwf Hne Hlen Hroom buf len drained start buf'.
  assert (0 < len) as Hpos by (unfold len; destruct B; [done|simpl; lia]).
  assert (len < 2 ^ 63) as Hl by (unfold BUFFER_SIZE in Hlen; unfold len; lia).
  assert (write_buffer_append buf B rest = Ok (true, buf') [] rest) as Happ.
  { rewrite write_buffer_append_run by done. fold len.
    destruct (WriteBuffer.size buf + len >? MAX_PENDING_WRITES) eqn:Hfull;
      [unfold buf, len in Hfull; lia|].
    unfold buf', start, drained. by destruct (WriteBuffer.offset buf =? WriteBuffer.size buf). }
  split; [by destruct (write_buffer_append_staged _ _ _ _ _ _ Hwf Hl Happ)|].
  unfold handle_client_read. rewrite Hi, run_bind. simpl.
  rewrite take_ge by (unfold BUFFER_SIZE in *; lia). fold len.
  destruct (len <? 0) eqn:Hneg; [apply Z.ltb_lt in Hneg; lia|].
  destruct (len =? 0) eqn:Hzero; [apply Z.eqb_eq in Hzero; lia|].
  run_step. rewrite run_bind. fold buf. rewrite Happ. done.
Qed.

(** The read handler when [recv] would block. *)
Lemma handle_client_read_again (FD_SETSIZE : nat) (s : Server) (i : nat) (c : Client)
    (e : Errno) (rest : list Reply) :
  clients s !! i = Some c ->
  errno_is (Some e) EAGAIN || errno_is (Some e) EWOULDBLOCK = true ->
  handle_client_read FD_SETSIZE s i (err e :: rest) =
  Ok s [EvRecv (Client.fd c) BUFFER_SIZE [] (-1)] rest.
Proof.
  intros Hi He. unfold handle_client_read. rewrite Hi, run_bind. simpl. by rewrite He.
Qed.

(** Along a connection whose peer and socket cause no failure, and whose
    bytes in flight fit the buffer, every handler returns with the
    connection open and the counters of the buffer as [account] has them. *)
Lemma serve_script (FD_SETSIZE : nat) (i : nat) (ts : list Turn) :
  forall (s : Server) (c : Client) (rest : list Reply) (staged0 unsent0 staged unsent : Z),
  clients s !! i = Some c -> 0 <= Client.fd c -> wf_buffer (Client.write_buf c) ->
  WriteBuffer.size (Client.write_buf c) = staged0 ->
  WriteBuffer.size (Client.write_buf c) - WriteBuffer.offset (Client.write_buf c) = unsent0 ->
  (unsent0 = 0 -> staged0 = 0) ->
  account staged0 unsent0 ts = Some (staged, unsent) ->
  exists s' out c',
    serve FD_SETSIZE i (invocation <$> ts) s (concat (replies <$> ts) ++ rest) = Ok s' out rest /\
    clients s' !! i = Some c' /\ Client.fd c' = Client.fd c /\
    wf_buffer (Client.write_buf c') /\
    WriteBuffer.size (Client.write_buf c') = staged /\
    WriteBuffer.size (Client.write_buf c') - WriteBuffer.offset (Client.write_buf c') = unsent /\
    received (Client.fd c) out = concat (arrived <$> ts).
Proof.
  induction ts as [|t ts IH];
    intros s c rest staged0 unsent0 staged unsent Hi Hfd Hwf Hst Hun Hinv Hacc.
  { simpl in Hacc. simplify_eq. exists s, [], c. by split_and!. }
  set (fd := Client.fd c) in *. set (buf := Client.write_buf c) in *.
  pose proof Hwf as (Hos & Hsz & Hdata). unfold MAX_PENDING_WRITES in Hsz.
  (* it suffices to run the handler of the turn and to go on from its state *)
  assert (Hgo : forall s1 o1 buf1 staged1 unsent1,
    (match invocation t with
     | ReadReady => handle_client_read FD_SETSIZE s i
     | WriteReady => handle_client_write s i
     end) (replies t ++ concat (replies <$> ts) ++ rest) =
      Ok s1 o1 (concat (replies <$> ts) ++ rest) ->
    clients s1 !! i = Some (Client.mk fd buf1) -> wf_buffer buf1 ->
    WriteBuffer.size buf1 = staged1 ->
    WriteBuffer.size buf1 - WriteBuffer.offset buf1 = unsent1 ->
    (unsent1 = 0 -> staged1 = 0) ->
    account staged1 unsent1 ts = Some (staged, unsent) ->
    received fd o1 = arrived t ->
    exists s' out c',
      serve FD_SETSIZE i (invocation <$> t :: ts) s (concat (replies <$> t :: ts) ++ rest)
        = Ok s' out rest /\
      clients s' !! i = Some c' /\ Client.fd c' = fd /\
      wf_buffer (Client.write_buf c') /\
      WriteBuffer.size (Client.write_buf c') = staged /\
      WriteBuffer.size (Client.write_buf c') - WriteBuffer.offset (Client.write_buf c') = unsent /\
      received fd out = concat (arrived <$> t :: ts)).
  { intros s1 o1 buf1 staged1 unsent1 Hstep Hi1 Hwf1 Hst1 Hun1 Hinv1 Hacc1 Hrx1.
    destruct (IH s1 (Client.mk fd buf1) rest staged1 unsent1 staged unsent
                Hi1 Hfd Hwf1 Hst1 Hun1 Hinv1 Hacc1)
      as (s' & out & c' & Hrun & Hi' & Hfd' & Hwf' & Hst' & Hun' & Hrx').
    cbn [Client.fd] in Hfd', Hrx'.
    exists s', (o1 ++ out), c'.
    split; [|by rewrite received_app, Hrx1, Hrx'].
    cbn [fmap list_fmap concat serve]. rewrite Hi. fold fd.
    destruct (fd <? 0) eqn:Hneg; [apply Z.ltb_lt in Hneg; lia|].
    rewrite <- app_assoc, run_bind, Hstep.
    change (list_fmap _ _ invocation ts) with (invocation <$> ts).
    by rewrite Hrun. }
  destruct t as [bs|e|ks k|ks e|]; cbn [account] in Hacc; cbn [invocation replies] in Hgo.
  - (* data arrives *)
    destruct ((0 <? Z.of_nat (length bs)) && (Z.of_nat (length bs) <=? BUFFER_SIZE)
              && (staged0 + Z.of_nat (length bs) <=? MAX_PENDING_WRITES)) eqn:Hfit; [|done].
    apply andb_prop in Hfit as [Hfit Hroom]. apply andb_prop in Hfit as [Hpos Hlen].
    apply Z.ltb_lt in Hpos. apply Z.leb_le in Hlen. apply Z.leb_le in Hroom.
    assert (bs <> []) as Hne by (intros ->; simpl in Hpos; lia).
    destruct (handle_client_read_data FD_SETSIZE s i c bs (concat (replies <$> ts) ++ rest)
                Hi Hfd Hwf Hne Hlen) as [Hwf1 Hstep]; [fold buf; lia|].
    fold buf fd in Hwf1, Hstep.
    assert ((if WriteBuffer.offset buf =? WriteBuffer.size buf then 0 else WriteBuffer.size buf)
            = WriteBuffer.size buf) as Hstart.
    { destruct (WriteBuffer.offset buf =? WriteBuffer.size buf) eqn:Heq; [|done].
      apply Z.eqb_eq in Heq. lia. }
    assert ((if WriteBuffer.offset buf =? WriteBuffer.size buf then 0 else WriteBuffer.offset buf)
            = WriteBuffer.offset buf) as Hoff.
    { destruct (WriteBuffer.offset buf =? WriteBuffer.size buf) eqn:Heq; [|done].
      apply Z.eqb_eq in Heq. lia. }
    eapply Hgo; [exact Hstep|by eapply with_slot_lookup|exact Hwf1|reflexivity|reflexivity|..].
    + cbn [WriteBuffer.size WriteBuffer.offset]. rewrite Hstart, Hoff. lia.
    + cbn [WriteBuffer.size WriteBuffer.offset]. rewrite Hstart, Hoff.
      replace (WriteBuffer.size buf + Z.of_nat (length bs)) with (staged0 + Z.of_nat (length bs))
        by lia.
      replace (staged0 + Z.of_nat (length bs) - WriteBuffer.offset buf)
        with (unsent0 + Z.of_nat (length bs)) by lia.
      exact Hacc.
    + unfold received. simpl. rewrite bool_decide_eq_true_2 by done. by rewrite app_nil_r.
  - (* the read would block *)
    destruct (errno_is (Some e) EAGAIN || errno_is (Some e) EWOULDBLOCK) eqn:He; [|done].
    pose proof (handle_client_read_again FD_SETSIZE s i c e (concat (replies <$> ts) ++ rest)
                  Hi He) as Hstep.
    eapply (Hgo s _ buf staged0 unsent0);
      [exact Hstep|by unfold fd, buf; rewrite client_eta|exact Hwf|exact Hst|exact Hun
      |exact Hinv|exact Hacc|].
    unfold received. simpl. by rewrite bool_decide_eq_true_2.
  - (* the sends drain the buffer *)
    destruct ((room ks <? unsent0) && (unsent0 <=? room ks + Z.pos k)) eqn:Hfit; [|done].
    apply andb_prop in Hfit as [Hlo Hhi]. apply Z.ltb_lt in Hlo. apply Z.leb_le in Hhi.
    destruct (write_buffer_flush_exact ks buf fd k (concat (replies <$> ts) ++ rest))
      as (o & Hflush); [done|lia|lia|].
    replace ((send_room <$> ks) ++ send_room k :: concat (replies <$> ts) ++ rest)
      with (((send_room <$> ks) ++ [send_room k]) ++ concat (replies <$> ts) ++ rest)
      in Hflush by (by rewrite <- app_assoc).
    pose proof (handle_client_write_run s i c _ 0 _ o _ Hi Hfd Hflush) as Hstep.
    cbn [Z.eqb] in Hstep.
    destruct (write_buffer_flush_cases _ _ _ _ _ _ _ Hos ltac:(lia) Hflush)
      as (_ & _ & _ & _ & Hrx & _).
    eapply (Hgo _ _ _ 0 0); [exact Hstep|by eapply with_slot_lookup| |reflexivity|reflexivity
                            |done|exact Hacc|].
    + unfold wf_buffer, MAX_PENDING_WRITES. cbn [WriteBuffer.size WriteBuffer.offset
        WriteBuffer.data]. fold buf. unfold MAX_PENDING_WRITES in Hdata. lia.
    + rewrite received_app, Hrx. done.
  - (* the sends stop short *)
    destruct ((room ks <? unsent0)
              && (errno_is (Some e) EAGAIN || errno_is (Some e) EWOULDBLOCK)) eqn:Hfit; [|done].
    apply andb_prop in Hfit as [Hlo He]. apply Z.ltb_lt in Hlo.
    pose proof (room_nonneg ks) as Hks.
    destruct (write_buffer_flush_stopped ks buf fd e (concat (replies <$> ts) ++ rest))
      as (o & Hflush & _ & _); [done|lia|lia|].
    rewrite He in Hflush.
    replace ((send_room <$> ks) ++ err e :: concat (replies <$> ts) ++ rest)
      with (((send_room <$> ks) ++ [err e]) ++ concat (replies <$> ts) ++ rest)
      in Hflush by (by rewrite <- app_assoc).
    pose proof (handle_client_write_run s i c _ 1 _ o _ Hi Hfd Hflush) as Hstep.
    cbn [Z.eqb] in Hstep.
    destruct (write_buffer_flush_cases _ _ _ _ _ _ _ Hos ltac:(lia) Hflush)
      as (_ & _ & _ & _ & Hrx & _).
    eapply (Hgo _ _ _ staged0 (unsent0 - room ks));
      [exact Hstep|by eapply with_slot_lookup| |done| |lia|exact Hacc|by rewrite Hrx].
    + unfold wf_buffer, MAX_PENDING_WRITES. cbn [WriteBuffer.size WriteBuffer.offset
        WriteBuffer.data]. fold buf. unfold MAX_PENDING_WRITES in Hdata. lia.
    + cbn [WriteBuffer.size WriteBuffer.offset]. lia.
  - (* nothing to send *)
    destruct (unsent0 =? 0) eqn:Hzero; [|done]. apply Z.eqb_eq in Hzero.
    assert (write_buffer_flush buf fd (concat (replies <$> ts) ++ rest) =
            Ok (0, WriteBuffer.mk (WriteBuffer.data buf) 0 0) []
               (concat (replies <$> ts) ++ rest)) as Hflush
      by (apply write_buffer_flush_drained; lia).
    pose proof (handle_client_write_run s i c _ 0 _ [] _ Hi Hfd Hflush) as Hstep.
    cbn [Z.eqb] in Hstep. cbn [app] in Hgo.
    eapply (Hgo _ _ _ 0 0); [exact Hstep|by eapply with_slot_lookup| |reflexivity|reflexivity
                            |done|exact Hacc|done].
    unfold wf_buffer, MAX_PENDING_WRITES. cbn [WriteBuffer.size WriteBuffer.offset
      WriteBuffer.data]. fold buf. unfold MAX_PENDING_WRITES in Hdata. lia.
Qed.

(** C2. A connection starts in slot [i] with the empty buffer the acceptor
    gave it. (1) After any sequence of read-handler and write-handler
    invocations on the slot, whatever the kernel answers: the bytes
    transmitted to the client's fd are a prefix of the bytes the read handler
    received from it, nothing is transmitted to or received from another fd,
    and while the connection is open the received stream is exactly the
    transmitted bytes followed by the bytes still pending. (2) Let the bytes
    [B] reach the read handler in any number of reads, interleaved in any
    way with write-handler invocations whose sends take the bytes in any
    number of pieces, or would block, and let the bytes staged since the
    buffer was last empty never exceed [MAX_PENDING_WRITES] ([account]).
    Then every handler returns, the connection stays open, nothing of [B] is
    lost, and once a flush has drained the buffer the client has been sent
    exactly [B], in order. *)
Theorem echo_in_order (FD_SETSIZE : nat) (i : nat) (s : Server) (c : Client) :
  clients s !! i = Some c -> 0 <= Client.fd c ->
  WriteBuffer.size (Client.write_buf c) = 0 ->
  WriteBuffer.offset (Client.write_buf c) = 0 ->
  Z.of_nat (length (WriteBuffer.data (Client.write_buf c))) = MAX_PENDING_WRITES ->
  let fd := Client.fd c in
  (forall evs rs s' out rs',
     serve FD_SETSIZE i evs s rs = Ok s' out rs' ->
     transmitted fd out `prefix_of` received fd out /\
     (forall fd', fd' <> fd -> transmitted fd' out = [] /\ received fd' out = []) /\
     (forall c', clients s' !! i = Some c' -> 0 <= Client.fd c' ->
        Client.fd c' = fd /\
        transmitted fd out ++ pending (Client.write_buf c') = received fd out /\
        (write_buffer_empty (Client.write_buf c') = true ->
         transmitted fd out = received fd out))) /\
  (forall (ts : list Turn) (rest : list Reply) (staged unsent : Z),
     account 0 0 ts = Some (staged, unsent) ->
     let B := concat (arrived <$> ts) in
     exists s' out c',
       serve FD_SETSIZE i (invocation <$> ts) s (concat (replies <$> ts) ++ rest)
         = Ok s' out rest /\
       clients s' !! i = Some c' /\ Client.fd c' = fd /\
       received fd out = B /\
       transmitted fd out ++ pending (Client.write_buf c') = B /\
       Z.of_nat (length (pending (Client.write_buf c'))) = unsent /\
       (unsent = 0 -> transmitted fd out = B)).
Proof.
  intros Hi Hfd Hsize Hoff Hdata fd.
  assert (wf_buffer (Client.write_buf c)) as Hwf.
  { unfold wf_buffer. rewrite Hsize, Hoff, Hdata. unfold MAX_PENDING_WRITES. lia. }
  assert (pending (Client.write_buf c) = []) as Hnil
    by (apply pending_empty; congruence).
  split.
  - intros evs rs s' out rs' Hrun.
    destruct (serve_stream i evs s c rs s' out rs' Hi Hfd Hwf Hrun)
      as (Hother & c' & Hi' & Hc'). fold fd in Hother, Hc'.
    rewrite Hnil in Hc'. simpl in Hc'. split; [|split; [done|]].
    + destruct Hc' as [(_ & _ & <-)|(_ & dropped & <-)]; by eexists.
    + intros c'' Hi'' Hopen. rewrite Hi' in Hi''. simplify_eq.
      destruct Hc' as [(Hfd' & Hwf' & Hs)|(Hfd' & _)]; [|lia].
      split; [done|]. split; [done|].
      intros Hempty. rewrite <- Hs, pending_empty, app_nil_r; [done|].
      unfold write_buffer_empty in Hempty. rewrite Z.geb_leb in Hempty.
      apply Z.leb_le in Hempty. destruct Hwf' as (? & _). lia.
  - intros ts rest staged unsent Hacc B.
    destruct (serve_script FD_SETSIZE i ts s c rest 0 0 staged unsent Hi Hfd Hwf)
      as (s' & out & c' & Hrun & Hi' & Hfd' & Hwf' & Hst & Hun & Hrx);
      [done|lia|done|done|].
    fold fd in Hfd', Hrx. fold B in Hrx.
    destruct (serve_stream i _ s c _ s' out rest Hi Hfd Hwf Hrun)
      as (_ & c'' & Hi'' & Hc'). rewrite Hi' in Hi''. injection Hi'' as <-.
    fold fd in Hc'. rewrite Hnil, Hrx in Hc'. simpl in Hc'.
    destruct Hc' as [(_ & _ & Hs)|(Hclosed & _)]; [|lia].
    assert (Z.of_nat (length (pending (Client.write_buf c'))) = unsent) as Hplen.
    { destruct Hwf' as (Hos & Hsz & Hlen). unfold pending, region.
      unfold MAX_PENDING_WRITES in *. rewrite size_t_small by lia.
      rewrite length_take, length_drop. lia. }
    exists s', out, c'. split_and!; try done.
    intros Hzero. rewrite Hzero in Hplen.
    assert (pending (Client.write_buf c') = []) as Hp
      by (apply length_zero_iff_nil; lia).
    by rewrite Hp, app_nil_r in Hs.
Qed.

Lemma echo_in_order_witness :
  let c := Client.mk 5 (WriteBuffer.mk (replicate (Z.to_nat MAX_PENDING_WRITES) x00) 0 0) in
  let s := mkServer [c] {[3; 5]} ∅ 5 in
  let ts := [Recv [x68; x69]; Recv [x6a]; SendSome [1%positive] EAGAIN; Recv [x6b];
             SendAll [1%positive; 1%positive] 5%positive] in
  exists s' out,
    serve 8 0 [ReadReady; ReadReady; WriteReady; ReadReady; WriteReady] s
      [recv_data [x68; x69]; recv_data [x6a]; send_room 1; err EAGAIN; recv_data [x6b];
       send_room 1; send_room 1; send_room 5] = Ok s' out [] /\
    received 5 out = [x68; x69; x6a; x6b] /\
    transmitted 5 out = [x68; x69; x6a; x6b].
Proof.
  intros c s ts.
  destruct (echo_in_order 8 0 s c) as [_ Hecho].
  - reflexivity.
  - simpl. lia.
  - reflexivity.
  - reflexivity.
  - cbn [Client.write_buf WriteBuffer.data c]. rewrite length_replicate.
    unfold MAX_PENDING_WRITES. lia.
  - destruct (Hecho ts [] 0 0) as (s' & out & c' & Hrun & _ & _ & Hrx & _ & _ & Htx).
    + reflexivity.
    + exists s', out. split; [exact Hrun|]. split; [exact Hrx|]. by apply Htx.
Defined.

(** ** The append along a connection *)




(** * Further properties of the code *)

(** ** [set_nonblocking] *)



(** ** Start-up *)


(** ** Where the program calls [exit] and where [main] returns *)




















Lemma exits_failure_usage_error {A} (progname usage : string) :
  exits_failure (usage_error progname usage : M A).
Proof. intros rs st out. unfold usage_error. rewrite run_fprintf_stderr. simpl. congruence. Qed.




(** ** What a turn of the loop touches *)

Lemma emits_ret {A} (P : Event -> Prop) (a : A) : emits P (mret a : M A).
Proof. intros rs a' out rs' Hrun. rewrite run_ret in Hrun. by simplify_eq. Qed.

Lemma emits_stuck {A} (P : Event -> Prop) : emits P (stuck : M A).
Proof. by intros rs a out rs' Hrun. Qed.

Lemma emits_tell (P : Event -> Prop) (ev : Event) : P ev -> emits P (tell ev).
Proof. intros Hev rs a out rs' Hrun. unfold tell in Hrun. simplify_eq. by constructor. Qed.

Lemma emits_syscall {A} (P : Event -> Prop) (interp : Reply -> option (A * Event)) :
  (forall r a ev, interp r = Some (a, ev) -> P ev) -> emits P (syscall interp).
Proof.
  intros Hev [|r rs] a out rs' Hrun; simpl in Hrun; [done|].
  destruct (interp r) as [[a' ev]|] eqn:Hr; [|done]. simplify_eq.
  constructor; [by eapply Hev|done].
Qed.

Lemma emits_bind {A B} (P : Event -> Prop) (m : M A) (f : A -> M B) :
  emits P m -> (forall a, emits P (f a)) -> emits P (m ≫= f).
Proof.
  intros Hm Hf rs b out rs' Hrun.
  apply run_bind_Ok_inv in Hrun as (a & o1 & rs1 & o2 & Hrun1 & Hrun2 & ->).
  apply Forall_app. split; [by eapply Hm|by eapply Hf].
Qed.

Lemma emits_impl {A} (P Q : Event -> Prop) (m : M A) :
  (forall ev, P ev -> Q ev) -> emits P m -> emits Q m.
Proof. intros HPQ Hm rs a out rs' Hrun. eapply Forall_impl; [by eapply Hm|done]. Qed.

(** Decompose a program into its calls; what is left is [P] of each event. *)
Ltac emits_step :=
  first
    [ apply emits_ret | apply emits_stuck
    | solve [auto]
    | apply emits_tell
    | apply emits_syscall; intros [] ? ? ?; simplify_eq/=
    | apply emits_bind; [|intros]
    | match goal with
      | |- emits _ (if ?b then _ else _) => destruct b eqn:?
      | |- emits _ (match ?x with _ => _ end) => destruct x eqn:?
      end ].

Lemma emits_write_buffer_flush (P : Event -> Prop) (buf : WriteBuffer) (fd : Z) :
  (forall bytes ret, P (EvSend fd bytes ret)) -> P (EvLog STDERR "send" []) ->
  emits P (write_buffer_flush buf fd).
Proof.
  intros Hsend Hlog rs. revert buf. induction rs as [|r rs IH]; intros buf a out rs' Hrun;
    simpl in Hrun.
  - destruct (_ <? _); [done|]. by simplify_eq.
  - destruct (_ <? _); [|by simplify_eq].
    destruct r as [v|e|bs|k|rd wr|cfd addr port]; simpl in Hrun; try done.
    + destruct (_ || _); simplify_eq; by repeat constructor.
    + destruct (_ <? 0); [simplify_eq; by repeat constructor|].
      apply emit_Ok_inv in Hrun as (o & Hrun & ->).
      constructor; [done|]. by eapply IH.
Qed.

Lemma within_mono (server_fd : Z) (rd wr rd' wr' : gset Z) (ev : Event) :
  rd ⊆ rd' -> wr ⊆ wr' -> within server_fd rd wr ev -> within server_fd rd' wr' ev.
Proof.
  intros Hrd Hwr. destruct ev; simpl; try done.
  - intros [-> H]. split; [done|]. by apply Hrd.
  - apply Hrd.
  - apply Hwr.
Qed.

Lemma emits_close_client (P : Event -> Prop) (s : Server) (i : nat) :
  (forall fd, P (EvClose fd)) -> (forall st fmt args, P (EvLog st fmt args)) ->
  emits P (close_client s i).
Proof.
  intros Hclose Hlog. unfold close_client, printf, sys_close. repeat emits_step.
Qed.

Lemma emits_set_nonblocking (P : Event -> Prop) (fd : Z) :
  (forall name args ret, P (EvSys name args ret)) ->
  (forall st fmt args, P (EvLog st fmt args)) ->
  emits P (set_nonblocking fd).
Proof.
  intros Hsys Hlog. unfold set_nonblocking, sys_fcntl, perror, int_call.
  repeat emits_step.
Qed.

(** The read handler receives from the descriptor of its slot and sends
    nothing. *)
Lemma emits_handle_client_read {FD_SETSIZE : nat}
    (server_fd : Z) (s : Server) (i : nat) (c : Client) :
  clients s !! i = Some c ->
  emits (within server_fd {[Client.fd c]} ∅) (handle_client_read FD_SETSIZE s i).
Proof.
  intros Hi. unfold handle_client_read. rewrite Hi.
  unfold sys_recv, recv_reply, perror, printf, fprintf_stderr, write_buffer_append.
  pose proof (emits_close_client (within server_fd {[Client.fd c]} ∅)) as Hclose.
  repeat emits_step; try done; try (apply Hclose; done); try (simpl; set_solver).
Qed.

(** The write handler sends to the descriptor of its slot and receives
    nothing. *)
Lemma emits_handle_client_write (server_fd : Z) (s : Server) (i : nat) (c : Client) :
  clients s !! i = Some c ->
  emits (within server_fd ∅ {[Client.fd c]}) (handle_client_write s i).
Proof.
  intros Hi. unfold handle_client_write. rewrite Hi. unfold printf.
  pose proof (emits_close_client (within server_fd ∅ {[Client.fd c]})) as Hclose.
  apply emits_bind.
  - apply emits_write_buffer_flush; [|done]. intros bytes ret. simpl. set_solver.
  - intros [res buf]. repeat emits_step; try done; try (apply Hclose; done).
Qed.

(** The acceptor accepts on the listener and neither receives nor sends. *)
Lemma emits_handle_new_connection (FD_SETSIZE : nat) (server_fd : Z) (s : Server) :
  emits (within server_fd {[server_fd]} ∅) (handle_new_connection FD_SETSIZE server_fd s).
Proof.
  unfold handle_new_connection, sys_accept, accept_reply, perror, printf, fprintf_stderr,
    sys_close.
  pose proof (emits_set_nonblocking (within server_fd {[server_fd]} ∅)) as Hnb.
  repeat emits_step; try done; try (apply Hnb; done); try (simpl; set_solver).
Qed.

Lemma emits_client_loop {FD_SETSIZE : nat} (server_fd : Z) (read_set write_set : gset Z) (n : nat) :
  forall (s : Server) (i : nat),
  emits (within server_fd read_set write_set) (client_loop FD_SETSIZE read_set write_set s i n).
Proof.
  induction n as [|n IH]; intros s i rs a out rs' Hrun; simpl in Hrun.
  { rewrite run_ret in Hrun. by simplify_eq. }
  destruct (clients s !! i) as [c|] eqn:Hi; [|done].
  destruct (Client.fd c <? 0) eqn:Hc; [by eapply IH|].
  apply Z.ltb_ge in Hc.
  apply run_bind_Ok_inv in Hrun as (s1 & o1 & rs1 & o2 & Hread & Hrun & ->).
  assert (Forall (within server_fd read_set write_set) o1 /\ slot_step s s1 i c) as [Ho1 Hstep].
  { unfold FD_ISSET in Hread. case_bool_decide as Hready.
    - split; [|by eapply handle_client_read_shape].
      eapply Forall_impl; [by eapply (emits_handle_client_read server_fd)|].
      intros ev. apply within_mono; set_solver.
    - rewrite run_ret in Hread. simplify_eq. split; [done|by apply slot_step_refl]. }
  destruct Hstep as (_ & c' & Hc' & Hcl).
  assert (clients s1 !! i = Some c') as Hi1.
  { rewrite Hcl. apply list_lookup_insert_eq. by eapply lookup_lt_Some. }
  rewrite Hi1 in Hrun.
  apply run_bind_Ok_inv in Hrun as (s2 & o3 & rs2 & o4 & Hwrite & Hrun & ->).
  apply Forall_app. split; [done|]. apply Forall_app. split; [|by eapply IH].
  destruct (Client.fd c' >=? 0) eqn:Hopen; simpl in Hwrite.
  - rewrite Z.geb_leb in Hopen. apply Z.leb_le in Hopen.
    assert (Client.fd c' = Client.fd c) as Hsame by lia.
    unfold FD_ISSET in Hwrite. case_bool_decide as Hready.
    + eapply Forall_impl; [by eapply (emits_handle_client_write server_fd)|].
      intros ev. apply within_mono; [set_solver|]. rewrite Hsame. set_solver.
    + rewrite run_ret in Hwrite. by simplify_eq.
  - rewrite run_ret in Hwrite. by simplify_eq.
Qed.

(** X4. In a turn of the loop in which the wait reports [rd] readable
    and [wr] writable, every [recv] is on a descriptor that is in [rd] and in
    the master read-set the turn started with, every [send] is on one that is
    in [wr] and in the master write-set it started with, and [accept] is
    called on the listener only, and only if the listener is in [rd]. A
    descriptor armed or accepted during the turn is not touched before the
    next wait. *)
Theorem turn_touches_only_ready_descriptors
    (FD_SETSIZE : nat) (server_fd : Z) (s : Server) (rd wr : gset Z) (rest : list Reply)
    r out rs' :
  loop_iteration FD_SETSIZE server_fd s (select_ready rd wr :: rest) = Ok r out rs' ->
  Forall (within server_fd (rd ∩ master_read_set s) (wr ∩ master_write_set s)) out.
Proof.
  unfold loop_iteration. rewrite run_bind. simpl.
  destruct (Z.of_nat _ <? 0) eqn:Hneg; [apply Z.ltb_lt in Hneg; lia|].
  intros Hrun. apply emit_Ok_inv in Hrun as (o & Hrun & ->).
  constructor; [done|].
  apply run_bind_Ok_inv in Hrun as (s1 & o1 & rs1 & o2 & Hacc & Hrun & ->).
  apply run_bind_Ok_inv in Hrun as (s2 & o3 & rs2 & o4 & Hloop & Hrun & ->).
  rewrite run_ret in Hrun. simplify_eq. rewrite app_nil_r.
  apply Forall_app. split; [|by eapply emits_client_loop].
  unfold FD_ISSET in Hacc. case_bool_decide as Hready.
  - eapply Forall_impl; [by eapply emits_handle_new_connection|].
    intros ev. apply within_mono; set_solver.
  - rewrite run_ret in Hacc. by simplify_eq.
Qed.

Lemma turn_touches_only_ready_descriptors_witness :
  let free := Client.mk (-1) (WriteBuffer.mk [] 0 0) in
  let s := mkServer [Client.mk 5 (WriteBuffer.mk [x00; x00] 0 0); free; free; free; free; free]
             {[3; 5]} ∅ 5 in
  exists r out,
    loop_iteration 6 3 s [select_ready {[5]} ∅; recv_data [x61]] = Ok r out [] /\
    Forall (within 3 ({[5]} ∩ master_read_set s) (∅ ∩ master_write_set s)) out.
Proof.
  intros free s.
  assert (exists r out,
            loop_iteration 6 3 s [select_ready {[5]} ∅; recv_data [x61]] = Ok r out [])
    as (r & out & Hrun).
  { eexists _, _. vm_compute. reflexivity. }
  exists r, out. split; [exact Hrun|].
  exact (turn_touches_only_ready_descriptors 6 3 s {[5]} ∅ [recv_data [x61]] r out [] Hrun).
Defined.

(** ** The invariants over a whole turn *)

Lemma client_loop_Inv (FD_SETSIZE : nat) (read_set write_set : gset Z) (n : nat) :
  forall (i : nat) (s : Server) (rs : list Reply) s' out rs',
  Inv FD_SETSIZE s ->
  client_loop FD_SETSIZE read_set write_set s i n rs = Ok s' out rs' -> Inv FD_SETSIZE s'.
Proof.
  induction n as [|n IH]; intros i s rs s' out rs' HInv Hrun; simpl in Hrun.
  { rewrite run_ret in Hrun. by simplify_eq. }
  destruct (clients s !! i) as [c|] eqn:Hi; [|done].
  destruct (Client.fd c <? 0) eqn:Hc; [by eapply IH|].
  apply Z.ltb_ge in Hc.
  apply run_bind_Ok_inv in Hrun as (s1 & o1 & rs1 & o2 & Hread & Hrun & _).
  assert (Inv FD_SETSIZE s1) as HInv1.
  { destruct (FD_ISSET (Client.fd c) read_set).
    - eapply (run_op_Inv FD_SETSIZE 0 (OpRead i)); [exact HInv| |done|exact Hread].
      by exists c.
    - rewrite run_ret in Hread. by simplify_eq. }
  destruct (clients s1 !! i) as [c1|] eqn:Hi1; [|done].
  apply run_bind_Ok_inv in Hrun as (s2 & o3 & rs2 & o4 & Hwrite & Hrun & _).
  assert (Inv FD_SETSIZE s2) as HInv2.
  { destruct (Client.fd c1 >=? 0) eqn:Hc1; simpl in Hwrite.
    - destruct (FD_ISSET (Client.fd c) write_set).
      + eapply (run_op_Inv FD_SETSIZE 0 (OpWrite i)); [exact HInv1| |done|exact Hwrite].
        exists c1. split; [done|]. rewrite Z.geb_leb in Hc1. by apply Z.leb_le in Hc1.
      + rewrite run_ret in Hwrite. by simplify_eq.
    - rewrite run_ret in Hwrite. by simplify_eq. }
  by eapply IH.
Qed.

(** X6. The state the loop starts from satisfies the invariants of the slot
    table and the master sets, and a whole turn of the loop keeps them,
    provided the descriptor the kernel returns to an [accept] in that turn is
    below [FD_SETSIZE] and is not one of the master read-set. In particular
    no two slots ever hold the same descriptor, the master sets hold
    descriptors below [FD_SETSIZE] only, the master write-set stays inside
    the master read-set, and no buffer's [size] exceeds
    [MAX_PENDING_WRITES]. *)
Theorem turn_keeps_interest_invariants
    (FD_SETSIZE : nat) (server_fd : Z) (s : Server) (rs : list Reply) s' out rs' :
  Inv FD_SETSIZE s ->
  (forall rd wr rest, rs = select_ready rd wr :: rest ->
     fresh_accept FD_SETSIZE OpAccept s rest) ->
  loop_iteration FD_SETSIZE server_fd s rs = Ok (inl s') out rs' ->
  Inv FD_SETSIZE s' /\
  (forall stack, length stack = FD_SETSIZE ->
     Inv FD_SETSIZE (initial_server FD_SETSIZE stack server_fd)).
Proof.
  intros HInv Hfresh Hrun. split; [|intros stack; apply initial_server_Inv].
  destruct rs as [|r0 rs]; [done|].
  destruct r0 as [v|e|bs|k|rd wr|cfd addr port]; try done.
  { rewrite loop_iteration_select_err in Hrun. cbv zeta in Hrun.
    case_bool_decide; by simplify_eq. }
  specialize (Hfresh rd wr rs eq_refl).
  unfold loop_iteration in Hrun. rewrite run_bind in Hrun. simpl in Hrun.
  destruct (Z.of_nat _ <? 0) eqn:Hneg; [apply Z.ltb_lt in Hneg; lia|].
  apply emit_Ok_inv in Hrun as (o & Hrun & _).
  apply run_bind_Ok_inv in Hrun as (s1 & o3 & rs2 & o4 & Hacc & Hrun & _).
  apply run_bind_Ok_inv in Hrun as (s2 & o5 & rs3 & o6 & Hloop & Hrun & _).
  rewrite run_ret in Hrun. simplify_eq.
  eapply client_loop_Inv; [|exact Hloop].
  destruct (FD_ISSET server_fd _).
  - by eapply (run_op_Inv FD_SETSIZE server_fd OpAccept).
  - rewrite run_ret in Hacc. by simplify_eq.
Qed.

Lemma turn_keeps_interest_invariants_witness :
  let junk := Client.mk 9 (WriteBuffer.mk [] 1 0) in
  let s := initial_server 6 [Client.mk 0 (WriteBuffer.mk [] 7 7); junk; junk; junk; junk; junk]
             3 in
  let rs := [select_ready {[3]} ∅; accepted 4 2130706433 40000; ok 2; ok 0] in
  exists s' out,
    loop_iteration 6 3 s rs = Ok (inl s') out [] /\
    Inv 6 s' /\
    (forall stack, length stack = 6%nat -> Inv 6 (initial_server 6 stack 3)).
Proof.
  intros junk s rs.
  assert (exists s' out, loop_iteration 6 3 s rs = Ok (inl s') out [])
    as (s' & out & Hrun).
  { eexists _, _. vm_compute. reflexivity. }
  exists s', out. split; [exact Hrun|].
  apply (turn_keeps_interest_invariants 6 3 s rs s' out []); [| |exact Hrun].
  - apply initial_server_Inv. reflexivity.
  - intros rd wr rest Heq. injection Heq as <- <- <-. simpl. split; [lia|].
    intros Hin. apply elem_of_FD_SET in Hin as [[Hin _]|Hin]; [discriminate Hin|].
    by apply elem_of_empty in Hin.
Defined.

(** ** Isolation of connections *)

Lemma concerns_only_streams (fd x : Z) (out : list Event) :
  Forall (concerns_only fd) out -> x <> fd ->
  transmitted x out = [] /\ received x out = [] /\ count (is_close_of x) out = 0%nat.
Proof.
  intros Hout Hx. induction Hout as [|ev out Hev _ (IH1 & IH2 & IH3)]; [done|].
  unfold transmitted, received in *. count_simpl. simpl. rewrite IH1, IH2, IH3.
  destruct ev; simpl in *; try done; subst;
    rewrite ?bool_decide_eq_false_2 by done; done.
Qed.

Lemma emits_concerns_close_client (s : Server) (i : nat) (c : Client) :
  clients s !! i = Some c -> emits (concerns_only (Client.fd c)) (close_client s i).
Proof.
  intros Hi. unfold close_client, printf, sys_close. rewrite Hi. repeat emits_step; done.
Qed.

Lemma emits_concerns_handle_client_read {FD_SETSIZE : nat} (s : Server) (i : nat) (c : Client) :
  clients s !! i = Some c -> emits (concerns_only (Client.fd c)) (handle_client_read FD_SETSIZE s i).
Proof.
  intros Hi. unfold handle_client_read. rewrite Hi.
  unfold sys_recv, recv_reply, perror, printf, fprintf_stderr, write_buffer_append.
  pose proof (emits_concerns_close_client s i c Hi) as Hclose.
  assert (forall buf, emits (concerns_only (Client.fd c))
                       (close_client (set_write_buf s i c buf) i)) as Hclose'.
  { intros buf. apply (emits_concerns_close_client _ i (Client.mk (Client.fd c) buf)).
    simpl. apply list_lookup_insert_eq. by eapply lookup_lt_Some. }
  repeat emits_step; done.
Qed.

Lemma emits_concerns_handle_client_write (s : Server) (i : nat) (c : Client) :
  clients s !! i = Some c -> emits (concerns_only (Client.fd c)) (handle_client_write s i).
Proof.
  intros Hi. unfold handle_client_write. rewrite Hi. unfold printf.
  assert (forall buf, emits (concerns_only (Client.fd c))
                       (close_client (set_write_buf s i c buf) i)) as Hclose'.
  { intros buf. apply (emits_concerns_close_client _ i (Client.mk (Client.fd c) buf)).
    simpl. apply list_lookup_insert_eq. by eapply lookup_lt_Some. }
  apply emits_bind; [by apply emits_write_buffer_flush|].
  intros [res buf]. repeat emits_step; done.
Qed.

(** The states a handler on slot [i] can leave: slot [i] rewritten, the
    master sets changed at most at the descriptor of the slot. *)
Lemma handler_state_frame (s s' : Server) (i : nat) (c : Client) fd' buf' rset' wset' :
  clients s !! i = Some c ->
  s' = with_slot s i fd' buf' rset' wset' ->
  (forall x, x <> Client.fd c -> (x ∈ rset' <-> x ∈ master_read_set s) /\
                                 (x ∈ wset' <-> x ∈ master_write_set s)) ->
  length (clients s') = length (clients s) /\
  (forall j, j <> i -> clients s' !! j = clients s !! j) /\
  max_fd s' = max_fd s /\
  (forall x, x <> Client.fd c ->
     (x ∈ master_read_set s' <-> x ∈ master_read_set s) /\
     (x ∈ master_write_set s' <-> x ∈ master_write_set s)).
Proof.
  intros Hi -> Hsets. simpl. split_and!; try done.
  - by rewrite length_insert.
  - intros j Hj. by apply list_lookup_insert_ne.
Qed.

(** X7. A handler run on slot [i] - the read handler, the write handler
    or a close - changes nothing that belongs to another connection: the
    other slots and the length of the table are as before, [max_fd] is as
    before, every other descriptor is in the master sets exactly if it was,
    and no byte is sent to, received from, and no close is made of, a
    descriptor other than the slot's. *)
Theorem handlers_touch_one_connection
    (FD_SETSIZE : nat) (server_fd : Z) (op : Op) (i : nat) (c : Client) (s : Server)
    (rs : list Reply) s' out rs' :
  op = OpRead i \/ op = OpWrite i \/ op = OpClose i ->
  clients s !! i = Some c -> 0 <= Client.fd c ->
  run_op FD_SETSIZE server_fd op s rs = Ok s' out rs' ->
  length (clients s') = length (clients s) /\
  (forall j, j <> i -> clients s' !! j = clients s !! j) /\
  max_fd s' = max_fd s /\
  (forall x, x <> Client.fd c ->
     (x ∈ master_read_set s' <-> x ∈ master_read_set s) /\
     (x ∈ master_write_set s' <-> x ∈ master_write_set s)) /\
  (forall x, x <> Client.fd c ->
     transmitted x out = [] /\ received x out = [] /\ count (is_close_of x) out = 0%nat).
Proof.
  intros Hop Hi Hfd Hrun.
  assert (Hclr : forall x, x <> Client.fd c ->
            (x ∈ FD_CLR (Client.fd c) (master_read_set s) <-> x ∈ master_read_set s) /\
            (x ∈ FD_CLR (Client.fd c) (master_write_set s) <-> x ∈ master_write_set s)).
  { intros x Hx. rewrite !elem_of_FD_CLR. tauto. }
  assert (Hframe : forall fd' buf' rset' wset',
            s' = with_slot s i fd' buf' rset' wset' ->
            (forall x, x <> Client.fd c -> (x ∈ rset' <-> x ∈ master_read_set s) /\
                                           (x ∈ wset' <-> x ∈ master_write_set s)) ->
            Forall (concerns_only (Client.fd c)) out ->
            length (clients s') = length (clients s) /\
            (forall j, j <> i -> clients s' !! j = clients s !! j) /\
            max_fd s' = max_fd s /\
            (forall x, x <> Client.fd c ->
               (x ∈ master_read_set s' <-> x ∈ master_read_set s) /\
               (x ∈ master_write_set s' <-> x ∈ master_write_set s)) /\
            (forall x, x <> Client.fd c ->
               transmitted x out = [] /\ received x out = [] /\
               count (is_close_of x) out = 0%nat)).
  { intros fd' buf' rset' wset' Hs' Hsets Hout.
    destruct (handler_state_frame s s' i c fd' buf' rset' wset' Hi Hs' Hsets)
      as (? & ? & ? & ?).
    split_and!; try done. intros x Hx. by apply (concerns_only_streams (Client.fd c)). }
  assert (Hsame : s' = s -> s' = with_slot s i (Client.fd c) (Client.write_buf c)
                                   (master_read_set s) (master_write_set s)).
  { intros ->. unfold with_slot. rewrite client_eta, list_insert_id by done. by destruct s. }
  destruct Hop as [->|[->| ->]]; simpl in Hrun.
  - pose proof (emits_concerns_handle_client_read s i c Hi _ _ _ _ Hrun) as Hout.
    destruct (handle_client_read_inv s i c rs s' out rs' Hi Hfd Hrun)
      as (_ & _ & [[Hs _]|[Hs|(buf' & _ & _ & _ & Hs)]]).
    + eapply Hframe; [by apply Hsame| |done]. tauto.
    + eapply Hframe; [exact Hs|done|done].
    + eapply Hframe; [exact Hs| |done]. intros x Hx. rewrite elem_of_FD_SET. tauto.
  - pose proof (emits_concerns_handle_client_write s i c Hi _ _ _ _ Hrun) as Hout.
    destruct (write_buffer_flush (Client.write_buf c) (Client.fd c) rs)
      as [[res buf'] o rs1| |] eqn:Hflush.
    2,3: by unfold handle_client_write in Hrun; rewrite Hi, run_bind, Hflush in Hrun.
    rewrite (handle_client_write_run s i c rs res buf' o rs1 Hi Hfd Hflush) in Hrun.
    destruct (res =? -1); [|destruct (res =? 0)]; injection Hrun as <- <- <-.
    + eapply Hframe; [reflexivity|done|done].
    + eapply Hframe; [reflexivity| |done]. intros x Hx. rewrite elem_of_FD_CLR. tauto.
    + eapply Hframe; [reflexivity| |done]. tauto.
  - pose proof (emits_concerns_close_client s i c Hi _ _ _ _ Hrun) as Hout.
    rewrite (close_client_open s i c rs Hi Hfd) in Hrun. injection Hrun as <- <- <-.
    eapply Hframe; [reflexivity|done|].
    repeat constructor.
Qed.

Lemma handlers_touch_one_connection_witness :
  let s := mkServer [Client.mk 5 (WriteBuffer.mk [x00; x00] 0 0);
                     Client.mk 6 (WriteBuffer.mk [x62; x00] 1 0)] {[3; 5; 6]} {[6]} 6 in
  exists s' out,
    run_op 8 3 (OpRead 0) s [recv_data [x61]] = Ok s' out [] /\
    clients s' !! 1%nat = clients s !! 1%nat /\
    max_fd s' = 6 /\
    transmitted 6 out = [] /\ received 6 out = [] /\ count (is_close_of 6) out = 0%nat.
Proof.
  intros s.
  assert (exists s' out, run_op 8 3 (OpRead 0) s [recv_data [x61]] = Ok s' out [])
    as (s' & out & Hrun).
  { eexists _, _. vm_compute. reflexivity. }
  destruct (handlers_touch_one_connection 8 3 (OpRead 0) 0
              (Client.mk 5 (WriteBuffer.mk [x00; x00] 0 0)) s [recv_data [x61]] s' out [])
    as (_ & Hslots & Hmax & _ & Hstreams).
  - by left.
  - reflexivity.
  - simpl. lia.
  - exact Hrun.
  - exists s', out. split; [exact Hrun|]. split; [by apply Hslots|]. split; [exact Hmax|].
    apply Hstreams. simpl. lia.
Defined.

(** ** The acceptor when [accept] fails *)

(** X8. When [accept] fails the acceptor changes nothing and makes no
    other system call: with [EAGAIN] or [EWOULDBLOCK] it is silent, with any
    other error it reports the error on stderr, and in both cases it returns
    to the loop with the slot table, the master sets and [max_fd] as they
    were. *)
Theorem accept_failure_changes_nothing
    (FD_SETSIZE : nat) (server_fd : Z) (s : Server) (e : Errno) (rest : list Reply) :
  handle_new_connection FD_SETSIZE server_fd s (err e :: rest) =
  Ok s (EvAccept server_fd (-1) ::
        if bool_decide (would_block e) then [] else [EvLog STDERR "accept" []]) rest.
Proof.
  unfold handle_new_connection. rewrite run_bind. simpl.
  destruct e; simpl; rewrite ?bool_decide_eq_true_2 by (unfold would_block; tauto);
    rewrite ?bool_decide_eq_false_2 by (unfold would_block; intros [?|?]; discriminate);
    done.
Qed.

(** ** Back-pressure in the read handler *)

(** X9. On a connection with bytes still pending ([offset < size]), the
    read handler stages the [len] bytes it received after the bytes already
    staged exactly when [size + len <= MAX_PENDING_WRITES], leaving [offset]
    as it was and arming the descriptor for writing; otherwise - even if the
    bytes still pending plus the new ones would fit - it closes the
    connection and the pending bytes are never sent. The buffer can be filled
    to exactly [MAX_PENDING_WRITES]. *)
Theorem read_handler_stages_or_closes (FD_SETSIZE : nat)
    (s : Server) (i : nat) (c : Client) (B : list byte) (rest : list Reply) :
  clients s !! i = Some c -> 0 <= Client.fd c ->
  wf_buffer (Client.write_buf c) ->
  WriteBuffer.offset (Client.write_buf c) < WriteBuffer.size (Client.write_buf c) ->
  B <> [] -> Z.of_nat (length B) <= BUFFER_SIZE ->
  let buf := Client.write_buf c in
  let fd := Client.fd c in
  let len := Z.of_nat (length B) in
  handle_client_read FD_SETSIZE s i (recv_data B :: rest) =
  if WriteBuffer.size buf + len <=? MAX_PENDING_WRITES then
    Ok (with_slot s i fd
                  (WriteBuffer.mk (memcpy (WriteBuffer.data buf) (WriteBuffer.size buf) B)
                                  (WriteBuffer.size buf + len) (WriteBuffer.offset buf))
                  (master_read_set s) (FD_SET FD_SETSIZE fd (master_write_set s)))
       [EvRecv fd BUFFER_SIZE B len;
        EvLog STDOUT "Received %zd bytes from client (fd=%d)\n" [len; fd]] rest
  else
    Ok (closed s i c)
       [EvRecv fd BUFFER_SIZE B len;
        EvLog STDOUT "Received %zd bytes from client (fd=%d)\n" [len; fd];
        EvLog STDERR "Write buffer full, cannot append %zu bytes\n" [len];
        EvLog STDERR "Write buffer overflow for fd=%d, closing connection\n" [fd];
        EvLog STDOUT "Closing client fd=%d\n" [fd];
        EvClose fd] rest.
Proof.
  intros Hi Hfd Hwf Hlt Hne Hlen buf fd len. unfold handle_client_read.
  rewrite Hi, run_bind. simpl.
  rewrite take_ge by (unfold BUFFER_SIZE in *; lia). fold len fd.
  assert (0 < len) as Hpos by (unfold len; destruct B; [done|simpl; lia]).
  destruct (len <? 0) eqn:Hneg; [apply Z.ltb_lt in Hneg; lia|].
  destruct (len =? 0) eqn:Hzero; [apply Z.eqb_eq in Hzero; lia|].
  run_step. rewrite run_bind.
  rewrite write_buffer_append_run by (done || (unfold BUFFER_SIZE in *; lia)).
  fold buf len. cbv zeta.
  destruct (WriteBuffer.size buf + len <=? MAX_PENDING_WRITES) eqn:Hroom.
  - apply Z.leb_le in Hroom.
    destruct (WriteBuffer.size buf + len >? MAX_PENDING_WRITES) eqn:Hfull; [lia|].
    destruct (WriteBuffer.offset buf =? WriteBuffer.size buf) eqn:Heq;
      [apply Z.eqb_eq in Heq; unfold buf in Heq; lia|].
    done.
  - apply Z.leb_gt in Hroom.
    destruct (WriteBuffer.size buf + len >? MAX_PENDING_WRITES) eqn:Hfull; [|lia].
    cbn [negb emit app]. unfold buf. rewrite set_write_buf_same by done.
    run_step. rewrite (close_client_open s i c rest Hi Hfd). done.
Qed.

Lemma read_handler_stages_or_closes_witness :
  let buf := WriteBuffer.mk (replicate (Z.to_nat MAX_PENDING_WRITES) x00) 8191 0 in
  let s := mkServer [Client.mk 5 buf] {[3; 5]} {[5]} 5 in
  handle_client_read 8 s 0 [recv_data [x61]] =
    Ok (with_slot s 0 5
                  (WriteBuffer.mk (memcpy (WriteBuffer.data buf) 8191 [x61]) 8192 0)
                  (master_read_set s) (FD_SET 8 5 (master_write_set s)))
       [EvRecv 5 BUFFER_SIZE [x61] 1;
        EvLog STDOUT "Received %zd bytes from client (fd=%d)\n" [1; 5]] [].
Proof.
  intros buf s.
  apply (read_handler_stages_or_closes 8 s 0 (Client.mk 5 buf) [x61] []).
  - reflexivity.
  - simpl. lia.
  - unfold wf_buffer, buf. cbn [Client.write_buf WriteBuffer.data WriteBuffer.size
                                 WriteBuffer.offset].
    rewrite length_replicate. unfold MAX_PENDING_WRITES. lia.
  - simpl. lia.
  - discriminate.
  - unfold BUFFER_SIZE. simpl. lia.
Defined.

(** ** Append, then flush *)

(** When the replies offer at least as much room as there are bytes
    pending, the flush drains the buffer, however the room is split. *)
Lemma write_buffer_flush_drains (ks : list positive) :
  forall (buf : WriteBuffer) (fd : Z) (rest : list Reply),
  0 <= WriteBuffer.offset buf <= WriteBuffer.size buf ->
  WriteBuffer.size buf < 2 ^ 63 ->
  WriteBuffer.size buf - WriteBuffer.offset buf <= room ks ->
  exists out ks',
    write_buffer_flush buf fd ((send_room <$> ks) ++ rest) =
      Ok (0, WriteBuffer.mk (WriteBuffer.data buf) 0 0) out ((send_room <$> ks') ++ rest) /\
    ks' `suffix_of` ks.
Proof.
  induction ks as [|k ks IH]; intros buf fd rest Hos Hsz Hroom.
  - simpl in Hroom. rewrite write_buffer_flush_drained by lia. by exists [], [].
  - destruct (Z.le_gt_cases (WriteBuffer.size buf) (WriteBuffer.offset buf)) as [Hge|Hlt].
    { rewrite write_buffer_flush_drained by done. by exists [], (k :: ks). }
    simpl in Hroom. fold (room ks) in Hroom.
    cbn [fmap list_fmap app write_buffer_flush].
    assert ((WriteBuffer.offset buf <? WriteBuffer.size buf) = true) as ->
      by (apply Z.ltb_lt; lia).
    rewrite (size_t_small (WriteBuffer.size buf - WriteBuffer.offset buf)) by lia.
    cbn [send_reply].
    set (len := WriteBuffer.size buf - WriteBuffer.offset buf) in *.
    set (sent := Z.min (Z.pos k) len) in *.
    assert (1 <= sent <= len) as Hsent by (unfold sent; lia).
    destruct (sent <? 0) eqn:Hneg; [apply Z.ltb_lt in Hneg; lia|].
    rewrite (size_t_small (WriteBuffer.offset buf + sent)) by lia.
    change (list_fmap _ _ send_room ks) with (send_room <$> ks).
    destruct (IH (WriteBuffer.mk (WriteBuffer.data buf) (WriteBuffer.size buf)
                                 (WriteBuffer.offset buf + sent)) fd rest)
      as (out & ks' & -> & Hsuf); simpl; try lia.
    { pose proof (room_nonneg ks). unfold sent, len in *. lia. }
    simpl. eexists _, ks'. split; [reflexivity|]. by apply suffix_cons_r.
Qed.

(** X10. Bytes appended to a well-formed buffer come out of the next flush
    after the bytes that were already pending, in order and whole, whenever
    the kernel's successive sends offer room for all of them, however that
    room is split over the sends; the flush then returns 0 with the buffer
    reset and leaves the replies it did not need unread. *)
Theorem append_then_flush_round_trip
    (buf : WriteBuffer) (data : list byte) (fd : Z) (ks : list positive)
    (rs rest : list Reply) buf' out0 rs0 :
  wf_buffer buf -> Z.of_nat (length data) <= BUFFER_SIZE ->
  write_buffer_append buf data rs = Ok (true, buf') out0 rs0 ->
  Z.of_nat (length (pending buf ++ data)) <= room ks ->
  exists out ks',
    write_buffer_flush buf' fd ((send_room <$> ks) ++ rest) =
      Ok (0, WriteBuffer.mk (WriteBuffer.data buf') 0 0) out ((send_room <$> ks') ++ rest) /\
    ks' `suffix_of` ks /\
    transmitted fd out = pending buf ++ data /\
    (forall fd', fd' <> fd -> transmitted fd' out = []).
Proof.
  intros Hwf Hlen Happ Hroom.
  destruct (write_buffer_append_pending _ _ _ _ _ _ Hwf Hlen Happ) as [Hwf' Hpend].
  pose proof Hwf' as (Hos & Hsz & Hdata). unfold MAX_PENDING_WRITES in *.
  assert (Z.of_nat (length (pending buf')) =
          WriteBuffer.size buf' - WriteBuffer.offset buf') as Hplen.
  { unfold pending, region. rewrite size_t_small by lia.
    rewrite length_take, length_drop. lia. }
  rewrite <- Hpend, Hplen in Hroom.
  destruct (write_buffer_flush_drains ks buf' fd rest Hos ltac:(lia) Hroom)
    as (out & ks' & Hrun & Hsuf).
  exists out, ks'. split; [done|]. split; [done|].
  destruct (write_buffer_flush_cases _ _ _ _ _ _ _ Hos ltac:(lia) Hrun)
    as (_ & _ & Htx & Hoth & _ & [(_ & Hn & _)|[(Hres & _)|(Hres & _)]]); try done.
  split; [|done]. rewrite Htx, Hn, <- Hpend. unfold pending.
  by rewrite size_t_small by lia.
Qed.

Lemma append_then_flush_round_trip_witness :
  let buf := WriteBuffer.mk (x61 :: x62 :: replicate (Z.to_nat 8190) x00) 2 1 in
  exists buf' out ks',
    write_buffer_append buf [x63; x64] [] = Ok (true, buf') [] [] /\
    write_buffer_flush buf' 5 ((send_room <$> [1; 1; 4; 9]%positive) ++ [err EPIPE]) =
      Ok (0, WriteBuffer.mk (WriteBuffer.data buf') 0 0) out
         ((send_room <$> ks') ++ [err EPIPE]) /\
    ks' `suffix_of` [1; 1; 4; 9]%positive /\
    transmitted 5 out = pending buf ++ [x63; x64] /\
    (forall fd', fd' <> 5 -> transmitted fd' out = []).
Proof.
  intros buf.
  assert (exists buf', write_buffer_append buf [x63; x64] [] = Ok (true, buf') [] [])
    as (buf' & Happ).
  { eexists. vm_compute. reflexivity. }
  destruct (append_then_flush_round_trip buf [x63; x64] 5 [1; 1; 4; 9]%positive []
              [err EPIPE] buf' [] [] ) as (out & ks' & Hrun).
  - unfold wf_buffer, buf, MAX_PENDING_WRITES.
    cbn [WriteBuffer.data WriteBuffer.size WriteBuffer.offset length].
    rewrite length_replicate. lia.
  - unfold BUFFER_SIZE. simpl. lia.
  - exact Happ.
  - vm_compute. discriminate.
  - by exists buf', out, ks'.
Defined.

(** ** The system calls of one turn *)

Lemma count_plain (out : list Event) :
  Forall plain out ->
  count is_select out = 0%nat /\ count is_accept out = 0%nat /\ count is_recv out = 0%nat.
Proof.
  intros Hout. split_and!; apply count_none; eapply Forall_impl; try exact Hout;
    intros ev (? & ? & ?); done.
Qed.

Lemma emits_plain_close_client (s : Server) (i : nat) : emits plain (close_client s i).
Proof. by apply emits_close_client. Qed.

(** The read handler: one [recv], then plain events. *)
Lemma handle_client_read_events {FD_SETSIZE : nat}
    (s : Server) (i : nat) (rs : list Reply) s' out rs' :
  handle_client_read FD_SETSIZE s i rs = Ok s' out rs' ->
  exists ev o, out = ev :: o /\ is_recv ev = true /\ is_select ev = false /\
               is_accept ev = false /\ Forall plain o.
Proof.
  unfold handle_client_read. destruct (clients s !! i) as [c|]; [|done].
  intros Hrun. apply run_bind_Ok_inv in Hrun as ([[n buffer] errno] & o1 & rs1 & o2 & Hrecv & Hrun & ->).
  assert (exists ev, o1 = [ev] /\ is_recv ev = true /\ is_select ev = false /\
                     is_accept ev = false) as (ev & -> & Hev).
  { unfold sys_recv, syscall in Hrecv. destruct rs as [|r rs]; [done|].
    destruct r; simpl in Hrecv; simplify_eq; by eexists. }
  exists ev, o2. split; [done|]. destruct Hev as (? & ? & ?). split_and!; try done.
  revert Hrun. generalize rs1 s' o2 rs'.
  match goal with |- forall rs a out rs', ?m rs = Ok a out rs' -> Forall plain out =>
    change (emits plain m) end.
  unfold perror, printf, fprintf_stderr, write_buffer_append.
  pose proof emits_plain_close_client.
  repeat emits_step; done.
Qed.

Lemma handle_client_write_events (s : Server) (i : nat) : emits plain (handle_client_write s i).
Proof.
  unfold handle_client_write. destruct (clients s !! i) as [c|]; [|apply emits_stuck].
  unfold printf. pose proof emits_plain_close_client.
  apply emits_bind; [by apply emits_write_buffer_flush|].
  intros [res buf]. repeat emits_step; done.
Qed.

(** The acceptor: one [accept], then plain events. *)
Lemma handle_new_connection_events (FD_SETSIZE : nat) (server_fd : Z) (s : Server)
    (rs : list Reply) s' out rs' :
  handle_new_connection FD_SETSIZE server_fd s rs = Ok s' out rs' ->
  exists ev o, out = ev :: o /\ is_accept ev = true /\ is_select ev = false /\
               is_recv ev = false /\ Forall plain o.
Proof.
  unfold handle_new_connection.
  intros Hrun.
  apply run_bind_Ok_inv in Hrun
    as ([[client_fd client_addr] errno] & o1 & rs1 & o2 & Hacc & Hrun & ->).
  assert (exists ev, o1 = [ev] /\ is_accept ev = true /\ is_select ev = false /\
                     is_recv ev = false) as (ev & -> & Hev).
  { unfold sys_accept, syscall in Hacc. destruct rs as [|r rs]; [done|].
    destruct r; simpl in Hacc; simplify_eq; by eexists. }
  exists ev, o2. split; [done|]. destruct Hev as (? & ? & ?). split_and!; try done.
  assert (emits plain (set_nonblocking client_fd)) as Hnb by (by apply emits_set_nonblocking).
  revert Hrun. generalize rs1 s' o2 rs'.
  match goal with |- forall rs a out rs', ?m rs = Ok a out rs' -> Forall plain out =>
    change (emits plain m) end.
  unfold perror, printf, fprintf_stderr, sys_close.
  repeat emits_step; done.
Qed.

Lemma client_loop_events {FD_SETSIZE : nat} (read_set write_set : gset Z) (n : nat) :
  forall (s : Server) (i : nat) (rs : list Reply) s' out rs',
  client_loop FD_SETSIZE read_set write_set s i n rs = Ok s' out rs' ->
  count is_select out = 0%nat /\ count is_accept out = 0%nat /\
  (count is_recv out <= n)%nat.
Proof.
  induction n as [|n IH]; intros s i rs s' out rs' Hrun; simpl in Hrun.
  { rewrite run_ret in Hrun. by simplify_eq. }
  destruct (clients s !! i) as [c|] eqn:Hi; [|done].
  destruct (Client.fd c <? 0).
  { apply IH in Hrun as (? & ? & ?). split_and!; [done..|lia]. }
  apply run_bind_Ok_inv in Hrun as (s1 & o1 & rs1 & o2 & Hread & Hrun & ->).
  assert (count is_select o1 = 0%nat /\ count is_accept o1 = 0%nat /\
          (count is_recv o1 <= 1)%nat) as (Hs1 & Ha1 & Hr1).
  { destruct (FD_ISSET _ read_set).
    - apply handle_client_read_events in Hread as (ev & o & -> & Hrecv & Hsel & Hacc & Hplain).
      apply count_plain in Hplain as (? & ? & ?). count_simpl.
      rewrite Hrecv, Hsel, Hacc. split_and!; lia.
    - rewrite run_ret in Hread. simplify_eq. rewrite !count_nil. split_and!; lia. }
  destruct (clients s1 !! i) as [c1|]; [|done].
  apply run_bind_Ok_inv in Hrun as (s2 & o3 & rs2 & o4 & Hwrite & Hrun & ->).
  assert (count is_select o3 = 0%nat /\ count is_accept o3 = 0%nat /\
          count is_recv o3 = 0%nat) as (Hs3 & Ha3 & Hr3).
  { apply count_plain. destruct (_ && _).
    - by eapply handle_client_write_events.
    - rewrite run_ret in Hwrite. by simplify_eq. }
  apply IH in Hrun as (Hs4 & Ha4 & Hr4). count_simpl. split_and!; lia.
Qed.

Lemma recv_fds_app (o1 o2 : list Event) : recv_fds (o1 ++ o2) = recv_fds o1 ++ recv_fds o2.
Proof. apply omap_app. Qed.

Lemma recv_fds_plain (out : list Event) : Forall plain out -> recv_fds out = [].
Proof.
  induction 1 as [|ev out (_ & _ & Hev) _ IH]; [done|].
  destruct ev; try done; exact IH.
Qed.

Lemma length_recv_fds (out : list Event) : length (recv_fds out) = count is_recv out.
Proof.
  induction out as [|ev out IH]; [done|]. rewrite count_cons, <- IH.
  by destruct ev.
Qed.

(** The one [recv] of the read handler is on the descriptor of its slot. *)
Lemma handle_client_read_recv_fds (FD_SETSIZE : nat) (s : Server) (i : nat) (c : Client)
    (rs : list Reply) s' out rs' :
  clients s !! i = Some c ->
  handle_client_read FD_SETSIZE s i rs = Ok s' out rs' ->
  recv_fds out = [Client.fd c].
Proof.
  intros Hi Hrun.
  pose proof (emits_concerns_handle_client_read s i c Hi _ _ _ _ Hrun) as Hfd.
  apply handle_client_read_events in Hrun as (ev & o & -> & Hrecv & _ & _ & Hplain).
  apply Forall_cons in Hfd as [Hev _].
  change (recv_fds (ev :: o)) with (recv_fds ([ev] ++ o)).
  rewrite recv_fds_app, (recv_fds_plain o) by done.
  destruct ev; try done. simpl in Hev. by subst.
Qed.

(** The slot loop reads the slots in order, each at most once: the
    descriptors of its [recv] calls are a sublist of the descriptors the
    table holds, from slot [i] on, when the loop starts. *)
Lemma client_loop_recv_fds (FD_SETSIZE : nat) (read_set write_set : gset Z) (n : nat) :
  forall (s : Server) (i : nat) (rs : list Reply) s' out rs',
  client_loop FD_SETSIZE read_set write_set s i n rs = Ok s' out rs' ->
  recv_fds out `sublist_of` (Client.fd <$> take n (drop i (clients s))).
Proof.
  induction n as [|n IH]; intros s i rs s' out rs' Hrun; simpl in Hrun.
  { rewrite run_ret in Hrun. simplify_eq. apply sublist_nil_l. }
  destruct (clients s !! i) as [c|] eqn:Hi; [|done].
  rewrite (drop_S _ _ _ Hi). cbn [take fmap list_fmap].
  change (list_fmap _ _ Client.fd ?l) with (Client.fd <$> l).
  destruct (Client.fd c <? 0) eqn:Hc.
  { apply sublist_cons. by eapply IH. }
  apply Z.ltb_ge in Hc.
  apply run_bind_Ok_inv in Hrun as (s1 & o1 & rs1 & o2 & Hread & Hrun & ->).
  assert (recv_fds o1 `sublist_of` [Client.fd c] /\ slot_step s s1 i c) as [Ho1 Hstep].
  { destruct (FD_ISSET _ read_set).
    - split; [|by eapply handle_client_read_shape].
      by rewrite (handle_client_read_recv_fds _ _ _ _ _ _ _ _ Hi Hread).
    - rewrite run_ret in Hread. simplify_eq. split; [apply sublist_nil_l|].
      by apply slot_step_refl. }
  destruct Hstep as (_ & c1 & Hc1 & Hcl1).
  assert (clients s1 !! i = Some c1) as Hi1.
  { rewrite Hcl1. apply list_lookup_insert_eq. by eapply lookup_lt_Some. }
  rewrite Hi1 in Hrun.
  apply run_bind_Ok_inv in Hrun as (s2 & o3 & rs2 & o4 & Hwrite & Hrun & ->).
  assert (recv_fds o3 = [] /\ drop (S i) (clients s2) = drop (S i) (clients s1)) as [Ho3 Hcl2].
  { destruct (Client.fd c1 >=? 0) eqn:Hopen; simpl in Hwrite.
    - rewrite Z.geb_leb in Hopen. apply Z.leb_le in Hopen.
      destruct (FD_ISSET _ write_set).
      + split; [apply recv_fds_plain; by eapply handle_client_write_events|].
        destruct (handle_client_write_shape s1 i c1 rs1 s2 o3 rs2 Hi1 Hopen Hwrite)
          as (_ & c2 & _ & ->).
        apply drop_insert_lt. lia.
      + rewrite run_ret in Hwrite. by simplify_eq.
    - rewrite run_ret in Hwrite. by simplify_eq. }
  apply IH in Hrun. rewrite Hcl2, Hcl1, drop_insert_lt in Hrun by lia.
  rewrite !recv_fds_app, Ho3, app_nil_l.
  change (Client.fd c :: ?l) with ([Client.fd c] ++ l).
  by apply sublist_app.
Qed.

(** A sublist of a list whose non-negative elements occur once has no
    duplicates, if its elements are non-negative. *)
Lemma sublist_NoDup_occupied (l L : list Z) :
  l `sublist_of` L -> Forall (fun x => 0 <= x) l ->
  (forall i j x, L !! i = Some x -> L !! j = Some x -> 0 <= x -> i = j) ->
  NoDup l.
Proof.
  induction 1 as [|x l L Hsub IH|x l L Hsub IH]; intros Hpos Hdist.
  - constructor.
  - apply Forall_cons in Hpos as [Hx Hpos]. constructor.
    + intros Hin. apply (elem_of_sublist _ _ _ Hin) in Hsub.
      apply list_elem_of_lookup in Hsub as [j Hj].
      by specialize (Hdist 0%nat (S j) x eq_refl Hj Hx).
    + apply IH; [done|]. intros i j y Hi Hj Hy.
      by specialize (Hdist (S i) (S j) y Hi Hj Hy) as [= ->].
  - apply IH; [done|]. intros i j y Hi Hj Hy.
    by specialize (Hdist (S i) (S j) y Hi Hj Hy) as [= ->].
Qed.

(** The table the acceptor leaves: the one it found, or that table with
    the descriptor [accept] returned in a slot that was empty. *)
Lemma handle_new_connection_table (FD_SETSIZE : nat) (server_fd : Z) (s : Server)
    (rs : list Reply) s1 out rs1 :
  handle_new_connection FD_SETSIZE server_fd s rs = Ok s1 out rs1 ->
  clients s1 = clients s \/
  exists j c newfd addr port rest,
    rs = accepted newfd addr port :: rest /\
    clients s !! j = Some c /\ Client.fd c < 0 /\
    clients s1 =
      <[j := Client.mk (Z.of_nat newfd) (init_write_buffer (Client.write_buf c))]> (clients s).
Proof.
  intros Hacc. apply handle_new_connection_shape in Hacc
    as [->|(newfd & addr & port & rest & cl' & added & -> & Hfind & ->)]; [by left|].
  apply find_slot_shape in Hfind as [[-> _]|(j & c & Hj & Hneg & _ & ->)]; [by left|].
  right. by exists j, c, newfd, addr, port, rest.
Qed.

(** X5. Whatever the kernel answers, a turn of the loop makes exactly one
    [select], at most one [accept], and at most one [recv] for each of the
    [FD_SETSIZE] slots, in slot order: the descriptors read are a sublist of
    the descriptors the slot table holds once the acceptor has run. When the
    state satisfies the invariants of the table and the master sets, and the
    descriptor an [accept] returns is below [FD_SETSIZE] and not in use, no
    descriptor is read twice in the turn, and every descriptor read is that
    of a slot that was occupied when the turn started: no connection is read
    twice before the others have had their turn. *)
Theorem turn_system_call_budget
    (FD_SETSIZE : nat) (server_fd : Z) (s : Server) (rs : list Reply) r out rs' :
  loop_iteration FD_SETSIZE server_fd s rs = Ok r out rs' ->
  count is_select out = 1%nat /\
  (count is_accept out <= 1)%nat /\
  (count is_recv out <= FD_SETSIZE)%nat /\
  (exists cl,
     recv_fds out `sublist_of` (Client.fd <$> cl) /\
     (cl = clients s \/
      exists j c newfd, clients s !! j = Some c /\ Client.fd c < 0 /\
        cl = <[j := Client.mk newfd (init_write_buffer (Client.write_buf c))]> (clients s))) /\
  (Inv FD_SETSIZE s ->
   (forall rd wr rest, rs = select_ready rd wr :: rest ->
      fresh_accept FD_SETSIZE OpAccept s rest) ->
   NoDup (recv_fds out) /\
   forall fd, fd ∈ recv_fds out ->
     fd ∈ master_read_set s /\ exists i c, clients s !! i = Some c /\ Client.fd c = fd).
Proof.
  intros Hrun0. pose proof Hrun0 as Hrun. unfold loop_iteration in Hrun.
  apply run_bind_Ok_inv in Hrun as ([[[activity read_set] write_set] errno] & o1 & rs1 & o2
                                      & Hsel & Hrun & ->).
  assert (exists ev, o1 = [ev] /\ is_select ev = true /\ is_accept ev = false /\
                     is_recv ev = false) as (ev & -> & Hev1 & Hev2 & Hev3).
  { unfold sys_select, syscall in Hsel. destruct rs as [|r0 rs]; [done|].
    destruct r0; simpl in Hsel; simplify_eq; by eexists. }
  assert (recv_fds [ev] = []) as Hev4 by (by destruct ev).
  rewrite recv_fds_app, Hev4, app_nil_l.
  count_simpl. rewrite Hev1, Hev2, Hev3.
  destruct (activity <? 0) eqn:Hact.
  { (* the wait failed: nothing else is called *)
    assert (count is_select o2 = 0%nat /\ count is_accept o2 = 0%nat /\
            count is_recv o2 = 0%nat /\ recv_fds o2 = []) as (-> & -> & -> & ->).
    { destruct (errno_is errno EINTR).
      - rewrite run_ret in Hrun. by simplify_eq.
      - rewrite run_perror, run_ret in Hrun. simpl in Hrun. by simplify_eq. }
    split_and!; try lia.
    - exists (clients s). split; [apply sublist_nil_l|by left].
    - intros _ _. split; [constructor|]. intros fd Hin. by apply elem_of_nil in Hin. }
  apply run_bind_Ok_inv in Hrun as (s1 & o3 & rs2 & o4 & Hacc & Hrun & ->).
  apply run_bind_Ok_inv in Hrun as (s2 & o5 & rs3 & o6 & Hloop & Hrun & ->).
  rewrite run_ret in Hrun. simplify_eq. rewrite app_nil_r.
  pose proof (client_loop_events _ _ _ _ _ _ _ _ _ Hloop) as (Hs5 & Ha5 & Hr5).
  pose proof (client_loop_recv_fds _ _ _ _ _ _ _ _ _ _ Hloop) as Hsub.
  rewrite drop_0 in Hsub.
  assert (recv_fds o5 `sublist_of` (Client.fd <$> clients s1)) as Hsub1.
  { etrans; [exact Hsub|]. apply fmap_sublist, sublist_take. }
  assert (count is_select o3 = 0%nat /\ (count is_accept o3 <= 1)%nat /\
          count is_recv o3 = 0%nat /\ recv_fds o3 = []) as (Hs3 & Ha3 & Hr3 & Hf3).
  { destruct (FD_ISSET server_fd read_set).
    - apply handle_new_connection_events in Hacc
        as (ev' & o & -> & Hacc' & Hsel' & Hrecv' & Hplain).
      pose proof (recv_fds_plain _ Hplain) as Hnone.
      apply count_plain in Hplain as (? & ? & ?). count_simpl.
      rewrite Hacc', Hsel', Hrecv'. split_and!; try lia.
      change (recv_fds (ev' :: o)) with (recv_fds ([ev'] ++ o)).
      rewrite recv_fds_app, Hnone. by destruct ev'.
    - rewrite run_ret in Hacc. simplify_eq. rewrite !count_nil. split_and!; (lia || done). }
  rewrite recv_fds_app, Hf3, app_nil_l. count_simpl.
  (* the table the slot loop starts from *)
  assert (Htable : clients s1 = clients s \/
            exists j c newfd rest,
              (FD_ISSET server_fd read_set = true ->
               exists addr port, rs1 = accepted newfd addr port :: rest) /\
              clients s !! j = Some c /\ Client.fd c < 0 /\
              clients s1 =
                <[j := Client.mk (Z.of_nat newfd) (init_write_buffer (Client.write_buf c))]>
                  (clients s)).
  { destruct (FD_ISSET server_fd read_set).
    - apply handle_new_connection_table in Hacc
        as [Heq|(j & c & newfd & addr & port & rest & -> & Hj & Hneg & Heq)]; [by left|].
      right. exists j, c, newfd, rest. split; [eauto|done].
    - rewrite run_ret in Hacc. simplify_eq. by left. }
  split_and!; try lia.
  - exists (clients s1). split; [done|].
    destruct Htable as [Heq|(j & c & newfd & rest & _ & Hj & Hneg & Heq)]; [by left|].
    right. by exists j, c, (Z.of_nat newfd).
  - intros HInv Hfresh.
    (* the reads are on descriptors the wait reported, with the state as it was *)
    destruct rs as [|r0 rs]; [done|].
    destruct r0 as [v|e|bs|k|rd wr|cfd addr port]; simpl in Hsel; try done.
    { by simplify_eq. }
    injection Hsel as <- <- <- <- <- <-. specialize (Hfresh rd wr rs eq_refl).
    assert (Inv FD_SETSIZE s1) as HInv1.
    { destruct (FD_ISSET server_fd (rd ∩ master_read_set s)).
      - by eapply (run_op_Inv FD_SETSIZE server_fd OpAccept).
      - rewrite run_ret in Hacc. by simplify_eq. }
    assert (forall fd, fd ∈ recv_fds o5 -> fd ∈ master_read_set s) as Hready.
    { intros fd Hin.
      pose proof (emits_client_loop server_fd _ _ _ _ _ _ _ _ _ Hloop) as Hwithin.
      unfold recv_fds in Hin. apply list_elem_of_omap in Hin as (ev0 & Hev0 & Hfd).
      rewrite Forall_forall in Hwithin. specialize (Hwithin ev0 Hev0).
      destruct ev0; simplify_eq/=. by apply elem_of_intersection in Hwithin as [_ ?]. }
    split.
    + eapply sublist_NoDup_occupied; [exact Hsub1| |].
      * apply Forall_forall. intros fd Hin. apply Hready in Hin.
        by apply (inv_range _ _ HInv) in Hin as [? _].
      * intros i j x Hi Hj Hx. rewrite list_lookup_fmap in Hi, Hj.
        destruct (clients s1 !! i) as [ci|] eqn:Hci; [|done].
        destruct (clients s1 !! j) as [cj|] eqn:Hcj; [|done].
        simpl in Hi, Hj. injection Hi as Hi. injection Hj as Hj.
        eapply (inv_distinct _ _ HInv1 i j ci cj); [done|done|lia|congruence].
    + intros fd Hin. pose proof (Hready fd Hin) as Hrd. split; [done|].
      apply (elem_of_sublist _ _ _ Hin) in Hsub1.
      apply list_elem_of_fmap in Hsub1 as (c1 & -> & Hc1).
      apply list_elem_of_lookup in Hc1 as [i Hi1].
      destruct Htable as [Heq|(j & c & newfd & rest & Hrs & Hj & Hneg & Heq)];
        rewrite Heq in Hi1; [by exists i, c1|].
      apply list_lookup_insert_Some in Hi1 as [(-> & <- & _)|(_ & Hi1)]; [|by exists i, c1].
      (* the slot just filled holds the fresh descriptor, which the wait did not report *)
      exfalso. simpl in Hrd.
      destruct (FD_ISSET server_fd (rd ∩ master_read_set s)) eqn:Hsrv.
      * destruct (Hrs eq_refl) as (addr & port & ->). by destruct Hfresh as [_ Hfresh].
      * rewrite run_ret in Hacc. injection Hacc as <- _ _.
        apply (f_equal (fun l => l !! i)) in Heq.
        rewrite list_lookup_insert_eq, Hj in Heq by (by eapply lookup_lt_Some).
        injection Heq as Heq. rewrite Heq in Hneg. simpl in Hneg. lia.
Qed.

Lemma turn_system_call_budget_witness :
  let free := Client.mk (-1) (WriteBuffer.mk [] 0 0) in
  let s := mkServer [Client.mk 4 (WriteBuffer.mk [x00; x00] 0 0);
                     Client.mk 5 (WriteBuffer.mk [x00; x00] 0 0); free; free; free; free]
             {[3; 4; 5]} ∅ 5 in
  let rs := [select_ready {[3; 4; 5]} ∅; err EAGAIN; recv_data [x61]; recv_data [x62]] in
  exists r out,
    loop_iteration 6 3 s rs = Ok r out [] /\
    count is_select out = 1%nat /\
    (count is_accept out <= 1)%nat /\
    (count is_recv out <= 6)%nat /\
    NoDup (recv_fds out).
Proof.
  intros free s rs.
  assert (exists r out, loop_iteration 6 3 s rs = Ok r out []) as (r & out & Hrun).
  { eexists _, _. vm_compute. reflexivity. }
  destruct (turn_system_call_budget 6 3 s rs r out [] Hrun)
    as (Hsel & Hacc & Hrecv & _ & Hinv).
  exists r, out. split_and!; try done.
  apply Hinv.
  - assert (forall i c, clients s !! i = Some c ->
              (i = 0%nat /\ Client.fd c = 4 \/ i = 1%nat /\ Client.fd c = 5 \/ Client.fd c = -1) /\
              buffer_bounds (Client.write_buf c)) as Hslots.
    { intros i c Hi. unfold buffer_bounds, MAX_PENDING_WRITES.
      do 6 (destruct i as [|i]; [injection Hi as <-; simpl; split; [tauto|lia]|]).
      done. }
    constructor.
    + reflexivity.
    + intros i c Hi. destruct (Hslots i c Hi) as [Hc _]. lia.
    + intros fd Hfd. simpl in Hfd. set_unfold. lia.
    + intros i c Hi Hpos. destruct (Hslots i c Hi) as [Hc _]. simpl. set_unfold. lia.
    + intros i j ci cj Hi Hj Hpos Heq.
      destruct (Hslots i ci Hi) as [Hci _]. destruct (Hslots j cj Hj) as [Hcj _]. lia.
    + intros fd Hfd. simpl in Hfd. set_solver.
    + intros i c Hi Hw. simpl in Hw. set_solver.
    + intros i c Hi. by destruct (Hslots i c Hi).
  - intros rd wr rest Heq. injection Heq as <- <- <-. exact I.
Defined.

(** ** Reuse of slots *)

Lemma handle_new_connection_installs (FD_SETSIZE : nat) (server_fd : Z) (s : Server)
    (j : nat) (c : Client) (newfd : nat) (addr port : Z) (f1 f2 : nat) (rest : list Reply) :
  length (clients s) = FD_SETSIZE -> slots_wf (clients s) ->
  first_free (clients s) = Some (j, c) ->
  exists out,
    handle_new_connection FD_SETSIZE server_fd s
      (accepted newfd addr port :: ok f1 :: ok f2 :: rest) =
    Ok (mkServer (<[j := Client.mk (Z.of_nat newfd) (init_write_buffer (Client.write_buf c))]>
                    (clients s))
                 (FD_SET FD_SETSIZE (Z.of_nat newfd) (master_read_set s))
                 (master_write_set s) (Z.max (max_fd s) (Z.of_nat newfd)))
       out rest.
Proof.
  intros Hlen Hwf Hfree. unfold handle_new_connection. rewrite run_bind. simpl.
  destruct (Z.of_nat newfd =? -1) eqn:Hv; [apply Z.eqb_eq in Hv; lia|].
  rewrite run_bind, set_nonblocking_ok. simpl.
  rewrite <- Hlen, find_slot_first_free, Hfree by done.
  simpl. repeat run_step. simpl.
  assert ((if Z.of_nat newfd >? max_fd s then Z.of_nat newfd else max_fd s)
          = Z.max (max_fd s) (Z.of_nat newfd))
    as -> by (destruct (Z.of_nat newfd >? max_fd s) eqn:Hgt; lia).
  eauto.
Qed.

(** X11. A slot released by a close is the one the next accepted connection
    gets when every slot below it is occupied: closing slot [i] and then
    accepting [newfd], a descriptor below [FD_SETSIZE], leaves the table as
    it was except that slot [i] now holds [newfd] with an empty buffer; the
    new descriptor is in the master read-set, and the closed one has left
    the master write-set and, unless the kernel has handed it out again as
    [newfd], the master read-set. *)
Theorem closed_slot_is_reused
    (FD_SETSIZE : nat) (server_fd : Z) (s : Server) (i : nat) (c : Client)
    (newfd : nat) (addr port : Z) (f1 f2 : nat) (rest : list Reply) :
  length (clients s) = FD_SETSIZE -> slots_wf (clients s) ->
  clients s !! i = Some c -> 0 <= Client.fd c ->
  (forall j cj, (j < i)%nat -> clients s !! j = Some cj -> 0 <= Client.fd cj) ->
  Z.of_nat newfd < Z.of_nat FD_SETSIZE ->
  exists s' out,
    (close_client s i ≫= handle_new_connection FD_SETSIZE server_fd)
      (accepted newfd addr port :: ok f1 :: ok f2 :: rest) = Ok s' out rest /\
    s' = mkServer
          (<[i := Client.mk (Z.of_nat newfd)
                            (WriteBuffer.mk (WriteBuffer.data (Client.write_buf c)) 0 0)]>
             (clients s))
          (FD_SET FD_SETSIZE (Z.of_nat newfd) (FD_CLR (Client.fd c) (master_read_set s)))
          (FD_CLR (Client.fd c) (master_write_set s))
          (Z.max (max_fd s) (Z.of_nat newfd)) /\
    (Z.of_nat newfd ∈ master_read_set s') /\
    (Client.fd c <> Z.of_nat newfd -> Client.fd c ∉ master_read_set s') /\
    (Client.fd c ∉ master_write_set s').
Proof.
  intros Hlen Hwf Hi Hfd Hbelow Hlt. rewrite run_bind, (close_client_open s i c _ Hi Hfd).
  set (c0 := Client.mk (-1) (init_write_buffer (Client.write_buf c))).
  assert (first_free (clients (closed s i c)) = Some (i, c0)) as Hfree.
  { apply list_find_Some. split; [by apply closed_lookup|]. split; [done|].
    intros j cj Hj Hlt'. simpl in Hj. rewrite list_lookup_insert_ne in Hj by lia.
    specialize (Hbelow j cj Hlt' Hj). lia. }
  destruct (handle_new_connection_installs FD_SETSIZE server_fd (closed s i c) i c0
              newfd addr port f1 f2 rest) as (out & ->); [| |done|].
  - simpl. by rewrite length_insert.
  - intros cj Hcj. apply list_elem_of_lookup in Hcj as [j Hj]. simpl in Hj.
    apply list_lookup_insert_Some in Hj as [(_ & <- & _)|(_ & Hj)]; [by left|].
    apply Hwf. apply list_elem_of_lookup. eauto.
  - simpl. rewrite list_insert_insert_eq. eexists _, _. split; [reflexivity|].
    split; [done|]. cbn [master_read_set master_write_set]. split_and!.
    + apply elem_of_FD_SET_same. lia.
    + intros Hne Hin. apply elem_of_FD_SET in Hin as [[Heq _]|Hin]; [done|].
      by apply not_elem_of_FD_CLR_same in Hin.
    + apply not_elem_of_FD_CLR_same.
Qed.

Lemma closed_slot_is_reused_witness :
  let c := Client.mk 5 (WriteBuffer.mk [x61; x62] 2 1) in
  let free := Client.mk (-1) (WriteBuffer.mk [] 0 0) in
  let s := mkServer [Client.mk 4 (WriteBuffer.mk [] 0 0); c; free; free; free; free; free; free]
             {[3; 4; 5]} {[5]} 5 in
  exists s' out,
    (close_client s 1 ≫= handle_new_connection 8 3)
      [accepted 7 2130706433 40000; ok 2; ok 0] = Ok s' out [] /\
    clients s' !! 1%nat = Some (Client.mk 7 (WriteBuffer.mk [x61; x62] 0 0)) /\
    max_fd s' = 7 /\
    (7 ∈ master_read_set s') /\ (5 ∉ master_read_set s') /\ (5 ∉ master_write_set s').
Proof.
  intros c free s.
  destruct (closed_slot_is_reused 8 3 s 1 c 7 2130706433 40000 2 0 [])
    as (s' & out & Hrun & Hs' & Hnew & Hold & Hw).
  - reflexivity.
  - intros cj Hcj. repeat (apply elem_of_cons in Hcj as [->|Hcj]; [simpl; lia|]).
    by apply elem_of_nil in Hcj.
  - reflexivity.
  - simpl. lia.
  - intros [|j] cj Hlt Hj; [|lia]. simpl in Hj. injection Hj as <-. simpl. lia.
  - lia.
  - exists s', out. split; [exact Hrun|]. rewrite Hs' at 1 2. split; [reflexivity|].
    split; [reflexivity|]. split; [exact Hnew|]. split; [|exact Hw].
    apply Hold. simpl. lia.
Defined.

(** ** A connection closed while it was being read *)

(** X12. When the read handler closes the connection of slot [i] - end of
    stream, or a [recv] error other than [EAGAIN]/[EWOULDBLOCK] - the loop
    does not call the write handler for that slot in the same turn, even if
    the descriptor was reported writable: no reply is read for a [send], no
    [send] is made, and the loop goes on with slot [i + 1]. *)
Theorem slot_closed_by_read_is_not_written (FD_SETSIZE : nat)
    (read_set write_set : gset Z) (s : Server) (i n : nat) (c : Client)
    (r : Reply) (rest : list Reply) :
  clients s !! i = Some c -> 0 <= Client.fd c ->
  Client.fd c ∈ read_set ->
  r = recv_data [] \/ (exists e, r = err e /\ ~ would_block e) ->
  exists o,
    handle_client_read FD_SETSIZE s i (r :: rest) = Ok (closed s i c) o rest /\
    count is_send o = 0%nat /\
    count (is_close_of (Client.fd c)) o = 1%nat /\
    client_loop FD_SETSIZE read_set write_set s i (S n) (r :: rest) =
      emit o (client_loop FD_SETSIZE read_set write_set (closed s i c) (S i) n rest).
Proof.
  intros Hi Hfd Hready Hr.
  assert (exists o, handle_client_read FD_SETSIZE s i (r :: rest) = Ok (closed s i c) o rest /\
                    count is_send o = 0%nat /\
                    count (is_close_of (Client.fd c)) o = 1%nat) as (o & Hread & Hns & Hcl).
  { unfold handle_client_read. rewrite Hi, run_bind.
    destruct Hr as [->|(e & -> & He)]; simpl.
    - run_step. rewrite (close_client_open s i c rest Hi Hfd). simpl.
      eexists. split; [reflexivity|]. count_simpl. simpl.
      by rewrite bool_decide_eq_true_2.
    - destruct (errno_is (Some e) EAGAIN || errno_is (Some e) EWOULDBLOCK) eqn:Hwb;
        [by apply errno_is_would_block in Hwb|].
      run_step. rewrite (close_client_open s i c rest Hi Hfd). simpl.
      eexists. split; [reflexivity|]. count_simpl. simpl.
      by rewrite bool_decide_eq_true_2. }
  exists o. split; [done|]. split; [done|]. split; [done|].
  cbn [client_loop]. rewrite Hi.
  destruct (Client.fd c <? 0) eqn:Hneg; [apply Z.ltb_lt in Hneg; lia|].
  assert (FD_ISSET (Client.fd c) read_set = true) as ->
    by (by apply bool_decide_eq_true_2).
  rewrite run_bind, Hread, (closed_lookup s i c Hi). cbn [Client.fd].
  change (-1 >=? 0) with false. cbn [andb]. by rewrite run_bind, run_ret, emit_nil.
Qed.

Lemma slot_closed_by_read_is_not_written_witness :
  let c := Client.mk 5 (WriteBuffer.mk [x61; x62] 2 1) in
  let s := mkServer [c] {[3; 5]} {[5]} 5 in
  exists o,
    handle_client_read 8 s 0 [recv_data []; send_room 9] = Ok (closed s 0 c) o [send_room 9] /\
    count is_send o = 0%nat /\
    count (is_close_of 5) o = 1%nat /\
    client_loop 8 {[5]} {[5]} s 0 1 [recv_data []; send_room 9] =
      emit o (client_loop 8 {[5]} {[5]} (closed s 0 c) 1 0 [send_room 9]).
Proof.
  intros c s.
  apply (slot_closed_by_read_is_not_written 8 {[5]} {[5]} s 0 0 c (recv_data [])
           [send_room 9]).
  - reflexivity.
  - simpl. lia.
  - simpl. by apply elem_of_singleton.
  - by left.
Defined.

(** ** Bounds along a connection *)

(** X13. Along a connection that starts with the empty buffer of a fresh
    slot, after any sequence of read-handler and write-handler invocations,
    as long as the connection is open: the counters satisfy
    [0 <= offset <= size <= MAX_PENDING_WRITES], the array still has
    [MAX_PENDING_WRITES] bytes (no append has written past its end), and the
    bytes received and not yet transmitted are exactly [size - offset], so
    never more than [MAX_PENDING_WRITES]. *)
Theorem connection_buffer_stays_in_bounds (FD_SETSIZE : nat)
    (i : nat) (evs : list Invocation) (s : Server) (c : Client) (rs : list Reply)
    s' out rs' c' :
  clients s !! i = Some c -> 0 <= Client.fd c ->
  WriteBuffer.size (Client.write_buf c) = 0 ->
  WriteBuffer.offset (Client.write_buf c) = 0 ->
  Z.of_nat (length (WriteBuffer.data (Client.write_buf c))) = MAX_PENDING_WRITES ->
  serve FD_SETSIZE i evs s rs = Ok s' out rs' ->
  clients s' !! i = Some c' -> 0 <= Client.fd c' ->
  let buf' := Client.write_buf c' in
  let fd := Client.fd c in
  0 <= WriteBuffer.offset buf' <= WriteBuffer.size buf' /\
  WriteBuffer.size buf' <= MAX_PENDING_WRITES /\
  Z.of_nat (length (WriteBuffer.data buf')) = MAX_PENDING_WRITES /\
  Z.of_nat (length (received fd out)) - Z.of_nat (length (transmitted fd out)) =
    WriteBuffer.size buf' - WriteBuffer.offset buf' /\
  Z.of_nat (length (received fd out)) <=
    Z.of_nat (length (transmitted fd out)) + MAX_PENDING_WRITES.
Proof.
  intros Hi Hfd Hsize Hoff Hdata Hrun Hi' Hopen buf' fd.
  assert (wf_buffer (Client.write_buf c)) as Hwf.
  { unfold wf_buffer. rewrite Hsize, Hoff, Hdata. unfold MAX_PENDING_WRITES. lia. }
  destruct (serve_stream i evs s c rs s' out rs' Hi Hfd Hwf Hrun)
    as (_ & c'' & Hi'' & Hc'). rewrite Hi' in Hi''. simplify_eq.
  destruct Hc' as [(_ & Hwf' & Hs)|(Hclosed & _)]; [|lia].
  rewrite (pending_empty (Client.write_buf c)) in Hs by congruence. simpl in Hs.
  pose proof Hwf' as (Hos & Hsz & Hlen). fold buf' in Hos, Hsz, Hlen, Hs.
  assert (Z.of_nat (length (pending buf')) =
          WriteBuffer.size buf' - WriteBuffer.offset buf') as Hplen.
  { unfold pending, region. unfold MAX_PENDING_WRITES in *. rewrite size_t_small by lia.
    rewrite length_take, length_drop. lia. }
  fold fd in Hs. rewrite <- Hs, length_app. split_and!; try done; lia.
Qed.

Lemma connection_buffer_stays_in_bounds_witness :
  let c := Client.mk 5 (WriteBuffer.mk (replicate (Z.to_nat MAX_PENDING_WRITES) x00) 0 0) in
  let s := mkServer [c] {[3; 5]} ∅ 5 in
  exists s' out c',
    serve 8 0 [ReadReady; WriteReady] s [recv_data [x68; x69; x6a]; send_room 2; err EAGAIN]
      = Ok s' out [] /\
    clients s' !! 0%nat = Some c' /\
    WriteBuffer.size (Client.write_buf c') - WriteBuffer.offset (Client.write_buf c') = 1 /\
    Z.of_nat (length (received 5 out)) - Z.of_nat (length (transmitted 5 out)) = 1.
Proof.
  intros c s.
  assert (exists s' out c',
            serve 8 0 [ReadReady; WriteReady] s
                  [recv_data [x68; x69; x6a]; send_room 2; err EAGAIN] = Ok s' out [] /\
            clients s' !! 0%nat = Some c' /\ Client.fd c' = 5 /\
            WriteBuffer.size (Client.write_buf c') - WriteBuffer.offset (Client.write_buf c') = 1)
    as (s' & out & c' & Hrun & Hi' & Hfd' & Hone).
  { eexists _, _, _. split; [vm_compute; reflexivity|]. split; [reflexivity|].
    split; reflexivity. }
  destruct (connection_buffer_stays_in_bounds 8 0 [ReadReady; WriteReady] s c
              [recv_data [x68; x69; x6a]; send_room 2; err EAGAIN] s' out [] c')
    as (_ & _ & _ & Heq & _).
  - reflexivity.
  - simpl. lia.
  - reflexivity.
  - reflexivity.
  - cbn [Client.write_buf WriteBuffer.data c]. rewrite length_replicate.
    unfold MAX_PENDING_WRITES. lia.
  - exact Hrun.
  - exact Hi'.
  - lia.
  - exists s', out, c'. split; [exact Hrun|]. split; [exact Hi'|]. split; [exact Hone|].
    change (Client.fd c) with 5 in Heq. lia.
Defined.
